(** * Larvitar imaging utilities: volumetric geometry and reslicing

    A shallow embedding of [src/imaging/image_utils.js] (permutation
    tables, sign test, voxel remapping, reslice metadata and pixel data,
    slice sorting, inter-slice distance, mean values, pixel extrema, image
    ids, dates and tag codes) and of [buildHeader] and [buildData] from the
    i/o module, together with the properties stated for them.

    Conventions of the embedding:
    - the entries of the permutation tables are JavaScript numbers, that is
      IEEE 754 binary64 values; they are modelled with the standard
      library's [spec_float] at precision 53 and maximal exponent 1024, so
      that [-0] and [0] are different values, as the sign test requires;
    - the results of [parseInt] (instance numbers as sort keys, slice
      numbers of image ids) are binary64 values as well: digits beyond
      2^53 are rounded to the nearest double, and no digits give [NaN];
    - sizes, indices, voxel coordinates and pixel values are integers ([Z]);
    - physical quantities (spacings, positions, direction cosines, pixel
      extrema) are idealised as rationals ([Q]): rounding is not modelled;
    - [undefined] is [None]; a JavaScript exception is [Throw]. *)

From Stdlib Require Import ZArith QArith Qabs QOrderedType QNsatz Lia Permutation
  Sorted Ascii String.
From Stdlib Require Import Floats.SpecFloat.
From stdpp Require Import gmap strings list pretty.

Local Open Scope Z_scope.

(** ** Results of computations that may throw *)

Inductive result (A : Type) : Type :=
| Ok (a : A)
| Throw (e : string).
Arguments Ok {A} a.
Arguments Throw {A} e.

#[global] Instance result_ret : MRet result := λ A a, Ok a.
#[global] Instance result_bind : MBind result := λ A B f r,
  match r with
  | Ok a => f a
  | Throw e => Throw e
  end.
#[global] Instance result_fmap : FMap result := λ A B f r,
  match r with
  | Ok a => Ok (f a)
  | Throw e => Throw e
  end.

(** Reading a property of [undefined] raises a [TypeError]. *)
Definition TypeError : string := "TypeError".
Definition RangeError : string := "RangeError".

Definition defined {A} (o : option A) : result A :=
  match o with
  | Some a => Ok a
  | None => Throw TypeError
  end.

(** ** JavaScript numbers of the permutation tables *)

Module Number.

Definition prec : Z := 53.
Definition emax : Z := 1024.

Definition number : Type := spec_float.

(** The number denoted by an integer literal. *)
Definition lit (z : Z) : number := binary_normalize prec emax z 0 false.

(** Unary minus, [Math.abs], [/] and [!==] on numbers. *)
Definition neg : number → number := SFopp.
Definition abs : number → number := SFabs.
Definition div : number → number → number := SFdiv prec emax.
Definition strict_neq (x y : number) : bool := negb (SFeqb x y).
Definition lt : number → number → bool := SFltb.

Definition Infinity : number := S754_infinity false.
Definition NaN : number := S754_nan.

(** The integer a number denotes, when it denotes one. *)
Definition to_Z (x : number) : option Z :=
  match x with
  | S754_zero _ => Some 0
  | S754_finite s m e =>
      if 0 <=? e then Some (cond_Zopp s (Z.pos m * 2 ^ e))
      else if Z.pos m mod 2 ^ (- e) =? 0
           then Some (cond_Zopp s (Z.pos m / 2 ^ (- e)))
           else None
  | _ => None
  end.

(** A number used as an array subscript: the property key of [-0] is
    ["0"]; negative and fractional numbers, [NaN] and the infinities name
    no element. *)
Definition array_index (x : number) : option nat :=
  z ← to_Z x; if 0 <=? z then Some (Z.to_nat z) else None.

(** A number is a double when it is not finite or when its mantissa and
    exponent fit the binary64 format. *)
Definition is_double (x : number) : Prop := valid_binary prec emax x = true.

End Number.

Import Number.

(** [image_utils.js], line 730:
    [isNegativeSign = function(x) { return 1 / x !== 1 / Math.abs(x); }] *)
Definition isNegativeSign (x : number) : bool :=
  strict_neq (div (lit 1) x) (div (lit 1) (abs x)).

(** ** Orientations and the permutation tables *)

Inductive orientation : Type := sagittal | coronal | axial.

#[global] Instance orientation_eq_dec : EqDecision orientation.
Proof. solve_decision. Defined.

Definition orientations : list orientation := [sagittal; coronal; axial].

(** [image_utils.js], lines 28-32.  [resliceTable[from][to]] is [undefined]
    on the diagonal. *)
Definition resliceTable (from to : orientation) : option (list number) :=
  match from, to with
  | sagittal, coronal => Some [neg (lit 2); lit 1; lit 0]
  | sagittal, axial => Some [neg (lit 2); lit 0; neg (lit 1)]
  | coronal, sagittal => Some [lit 2; lit 1; neg (lit 0)]
  | coronal, axial => Some [lit 0; lit 2; neg (lit 1)]
  | axial, sagittal => Some [lit 1; neg (lit 2); neg (lit 0)]
  | axial, coronal => Some [lit 0; neg (lit 2); lit 1]
  | _, _ => None
  end.

(** [permuteTable.map(function(v) { return Math.abs(v); })] *)
Definition absTable (permuteTable : list number) : list number :=
  abs <$> permuteTable.

(** ** Arrays *)

(** [a[x]] for an array whose elements may be [undefined]. *)
Definition array_get {A} (a : list (option A)) (x : number) : option A :=
  n ← array_index x; mjoin (a !! n).

(** [permuteTable[n]]: the sign test applied to a missing entry sees
    [undefined], and [1 / undefined] is [NaN]. *)
Definition entry (permuteTable : list number) (n : nat) : number :=
  default NaN (permuteTable !! n).

(** [image_utils.js], lines 718-725. *)
Definition permuteValues {A} (convertArray : list number)
    (sourceArray : list (option A)) : list (option A) :=
  array_get sourceArray <$> convertArray.

(** ** Voxel remapping *)

(** [ijk[x] = v] on the three-element array [ijk].  A subscript that is no
    array index ([NaN], a negative or a fractional number) names an
    ordinary property and leaves the elements as they are; an index past
    the end would grow the array and leave the result no coordinate triple,
    which is reported as [None]. *)
Definition set_coordinate_at (n : option nat) (v : Z) (ijk : list Z)
    : option (list Z) :=
  match n with
  | Some n => if (n <? length ijk)%nat then Some (<[n := v]> ijk) else None
  | None => Some ijk
  end.

Definition set_coordinate (x : number) (v : Z) (ijk : list Z) : option (list Z) :=
  set_coordinate_at (array_index x) v ijk.

(** [dims[fromOrientation][n] - c], [NaN] when the extent is missing. *)
Definition flipped (extent : list Z) (n : nat) (c : Z) : option Z :=
  d ← extent !! n; Some (d - c).

(** [image_utils.js], lines 561-584.  [dims] is the value returned by
    [getSerieDimensions()], a function of the loaders that is not part of
    the sources at hand: it is a parameter.  The result is [None] when a
    coordinate is not a number or the result is not a triple. *)
Definition remapVoxel (dims : orientation → list Z) (ijk : list Z)
    (fromOrientation toOrientation : orientation) : option (list Z) :=
  match ijk with
  | i :: j :: k :: _ =>
      if decide (fromOrientation = toOrientation) then Some [i; j; k]
      else
        permuteTable ← resliceTable toOrientation fromOrientation;
        let permuteAbsTable := absTable permuteTable in
        i_ ← (if isNegativeSign (entry permuteTable 0)
              then flipped (dims fromOrientation) 0 i else Some i);
        j_ ← (if isNegativeSign (entry permuteTable 1)
              then flipped (dims fromOrientation) 1 j else Some j);
        k_ ← (if isNegativeSign (entry permuteTable 2)
              then flipped (dims fromOrientation) 2 k else Some k);
        ijk0 ← set_coordinate (entry permuteAbsTable 0) i_ [0; 0; 0];
        ijk1 ← set_coordinate (entry permuteAbsTable 1) j_ ijk0;
        set_coordinate (entry permuteAbsTable 2) k_ ijk1
  | _ => None
  end.

(** The extents of one volume seen in the three orientations: the extents
    in [to] are those in [from] permuted by the table of the pair, as
    [getReslicedMetadata] computes them. *)
Definition dims_of_volume (dims : orientation → list Z) : Prop :=
  ∀ from to permuteTable,
    resliceTable from to = Some permuteTable →
    Some <$> dims to = permuteValues (absTable permuteTable) (Some <$> dims from).

(** The extents derived from the column, row and slice counts of an axial
    volume. *)
Definition dims_from_axial (c r n : Z) (o : orientation) : list Z :=
  match o with
  | axial => [c; r; n]
  | sagittal => [r; n; c]
  | coronal => [c; n; r]
  end.

(** ** Numbers of the geometry *)

(** A rational or [NaN].  Arithmetic on [undefined] yields [NaN], so a
    missing array element read as a number is [None] as well. *)
Definition num : Type := option Q.

Definition nlift2 (f : Q → Q → Q) (x y : num) : num := a ← x; b ← y; Some (f a b).
Definition nadd : num → num → num := nlift2 Qplus.
Definition nsub : num → num → num := nlift2 Qminus.
Definition nmul : num → num → num := nlift2 Qmult.
Definition nneg (x : num) : num := Qopp <$> x.
Definition nabs (x : num) : num := Qabs <$> x.
Definition of_Z (z : Z) : num := Some (inject_Z z).

(** The numbers of an array of rationals. *)
Definition numbers (a : list Q) : list num := Some <$> a.

(** Truthiness of a number: [0] and [NaN] are falsy. *)
Definition truthy (x : Q) : bool := negb (Qeq_bool x 0).

(** A spacing value as [getReslicedMetadata] reads and writes it: a number,
    or an array (the reslice stores the slice spacing as a one-element
    array). *)
#[local] Unset Elimination Schemes.
Inductive spacing : Type :=
| Spacing (x : num)
| SpacingArray (a : list (option spacing)).
#[local] Set Elimination Schemes.

(** Conversion of an operand of [*] to a number: an array is converted
    through its string, so [[]] and [[undefined]] are [0], [[x]] is [x] and
    longer arrays are [NaN]. *)
Fixpoint spacing_number (s : spacing) : num :=
  match s with
  | Spacing x => x
  | SpacingArray [] => Some 0%Q
  | SpacingArray [None] => Some 0%Q
  | SpacingArray [Some s'] => spacing_number s'
  | SpacingArray _ => None
  end.

Definition to_number (s : option spacing) : num := s ≫= spacing_number.

Definition spacing_truthy (s : option spacing) : bool :=
  match s with
  | Some (Spacing (Some x)) => truthy x
  | Some (Spacing None) => false
  | Some (SpacingArray _) => true
  | None => false
  end.

(** ** Series *)

(** The value of the instance number tag: a number (the reslice writes
    [f + 1]) or the string of a parsed data set. *)
Inductive tag_value : Type :=
| TagNumber (z : Z)
| TagString (s : string).

(** The attributes of a slice that the functions below read or write.
    [rows], [cols], [repr], [imageOrientation], [imagePosition],
    [pixelSpacing], [maxPixelValue] and [minPixelValue] are the aliases the
    loader adds to the raw tags. *)
Record metadata : Type := Metadata {
  rows : option Z;
  cols : option Z;
  repr : option string;
  imageOrientation : option (list Q);
  imagePosition : option (list Q);
  pixelSpacing : option (list Q);
  maxPixelValue : option Q;
  minPixelValue : option Q;
  x00280010 : option Z;
  x00280011 : option Z;
  x00280100 : option Z;
  x00280103 : option Z;
  x00200037 : option (list num);
  x00200032 : option (list num);
  x00280030 : option (list (option spacing));
  x00180050 : option spacing;
  x00200013 : option tag_value;
  x00201041 : option num;
  x00181090 : option Z;
  x00080033 : option string;
  x0020000e : option string;
}.

Record instance : Type := Instance {
  instanceId : option string;
  metadata_of : metadata;
  pixelData : option (list Z);
  permuteTable_of : option (list number);
}.

Record series : Type := Series {
  imageIds : list string;
  instances : gmap string instance;
  currentImageIdIndex : Z;
}.

(** [seriesData.instances[seriesData.imageIds[n]]]: an identifier past the
    end is [undefined] and names no instance. *)
Definition instance_at (seriesData : series) (n : nat) : option instance :=
  imageId ← imageIds seriesData !! n; instances seriesData !! imageId.

(** ** Geometry primitives *)

(** [image_utils.js], lines 56-67. *)
Definition getNormalOrientation (el : list num) : list num :=
  let at_ (n : nat) : num := mjoin (el !! n) in
  [ nsub (nmul (at_ 1%nat) (at_ 5%nat)) (nmul (at_ 2%nat) (at_ 4%nat));
    nsub (nmul (at_ 2%nat) (at_ 3%nat)) (nmul (at_ 0%nat) (at_ 5%nat));
    nsub (nmul (at_ 0%nat) (at_ 4%nat)) (nmul (at_ 1%nat) (at_ 3%nat)) ].

(** [m.alias ? m.alias : m.raw] for an array attribute (an array is
    truthy). *)
Definition alias_or_raw (alias : option (list Q)) (raw : option (list num))
    : option (list num) :=
  match alias with
  | Some a => Some (numbers a)
  | None => raw
  end.

(** [n[0] * p[0] + n[1] * p[1] + n[2] * p[2]] *)
Definition dot3 (n p : list num) : num :=
  let at_ (a : list num) (k : nat) : num := mjoin (a !! k) in
  nadd (nadd (nmul (at_ n 0%nat) (at_ p 0%nat)) (nmul (at_ n 1%nat) (at_ p 1%nat)))
       (nmul (at_ n 2%nat) (at_ p 2%nat)).

(** [image_utils.js], lines 508-548.  The result is [Ok None] when the
    function ends without a [return] (the orientation or the position of
    the first slice is absent). *)
Definition getDistanceBetweenSlices (seriesData : series)
    (sliceIndex1 sliceIndex2 : nat) : result (option num) :=
  if (length (imageIds seriesData) <=? 1)%nat then Ok (Some (Some 0%Q))
  else
    instance1 ← defined (instance_at seriesData sliceIndex1);
    let metadata1 := metadata_of instance1 in
    match alias_or_raw (imageOrientation metadata1) (x00200037 metadata1),
          alias_or_raw (imagePosition metadata1) (x00200032 metadata1) with
    | Some orientation1, Some position1 =>
        let normal := getNormalOrientation orientation1 in
        let d1 := dot3 normal position1 in
        instance2 ← defined (instance_at seriesData sliceIndex2);
        let metadata2 := metadata_of instance2 in
        position2 ← defined (alias_or_raw (imagePosition metadata2)
                                          (x00200032 metadata2));
        let d2 := dot3 normal position2 in
        Ok (Some (nabs (nsub d1 d2)))
    | _, _ => Ok None
    end.

(** ** Mean values and the volume header *)

Definition ntruthy (x : num) : bool :=
  match x with
  | Some q => truthy q
  | None => false
  end.

(** [x / n] for a count [n]; the only division by zero the callers reach
    is [0 / 0], which is [NaN]. *)
Definition ndiv (x : num) (n : nat) : num :=
  if decide (n = 0%nat) then None
  else q ← x; Some (q / inject_Z (Z.of_nat n))%Q.

(** The value of [metadata[tag]] for the numeric attributes. *)
Inductive attribute : Type :=
| AttrNumber (x : num)
| AttrArray (a : list num).

Definition attribute_of (m : metadata) (tag : string) : option attribute :=
  let number (z : option Z) := (λ z, AttrNumber (of_Z z)) <$> z in
  let rational (q : option Q) := (λ q, AttrNumber (Some q)) <$> q in
  let rationals (a : option (list Q)) := (λ a, AttrArray (numbers a)) <$> a in
  if decide (tag = "rows") then number (rows m)
  else if decide (tag = "cols") then number (cols m)
  else if decide (tag = "imageOrientation") then rationals (imageOrientation m)
  else if decide (tag = "imagePosition") then rationals (imagePosition m)
  else if decide (tag = "pixelSpacing") then rationals (pixelSpacing m)
  else if decide (tag = "maxPixelValue") then rational (maxPixelValue m)
  else if decide (tag = "minPixelValue") then rational (minPixelValue m)
  else if decide (tag = "x00280010") then number (x00280010 m)
  else if decide (tag = "x00280011") then number (x00280011 m)
  else if decide (tag = "x00280100") then number (x00280100 m)
  else if decide (tag = "x00280103") then number (x00280103 m)
  else if decide (tag = "x00200037") then AttrArray <$> x00200037 m
  else if decide (tag = "x00200032") then AttrArray <$> x00200032 m
  else if decide (tag = "x00201041") then AttrNumber <$> x00201041 m
  else if decide (tag = "x00181090") then number (x00181090 m)
  else None.

Inductive mean_value : Type :=
| MeanNumber (x : num)
| MeanArray (a : list num).

(** [meanValue[i] = meanValue[i] ? meanValue[i] + tagValue[i] : tagValue[i]].
    The components are written in increasing order from [0], so a
    component that is not there yet is the next free slot of the array. *)
Definition accumulate (tagValue : list num) (meanValue : list num) (i : nat)
    : list num :=
  let t := mjoin (tagValue !! i) in
  match meanValue !! i with
  | Some m => <[i := if ntruthy m then nadd m t else t]> meanValue
  | None => meanValue ++ [t]
  end.

(** The combinations of [isArray] and attribute values for which the source
    concatenates strings are outside the embedding. *)
Definition Unsupported : string := "unsupported".

Definition summed_length (n : nat) : bool :=
  bool_decide (n = 2 ∨ n = 3 ∨ n = 6)%nat.

(** The body of the loop of [getMeanValue]. *)
Definition add_tag_value (seriesData : series) (tag : string)
    (acc : result mean_value) (imageId : string) : result mean_value :=
  meanValue ← acc;
  inst ← defined (instances seriesData !! imageId);
  tagValue ← defined (attribute_of (metadata_of inst) tag);
  match meanValue, tagValue with
  | MeanArray m, AttrArray t =>
      if summed_length (length t)
      then Ok (MeanArray (foldl (accumulate t) m (seq 0 (length t))))
      else Throw Unsupported
  | MeanNumber m, AttrNumber x => Ok (MeanNumber (nadd m x))
  | MeanNumber _, AttrArray t =>
      if summed_length (length t) then Throw TypeError else Throw Unsupported
  | MeanArray _, AttrNumber _ => Throw Unsupported
  end.

(** [image_utils.js], lines 292-324. *)
Definition getMeanValue (seriesData : series) (tag : string) (isArray : bool)
    : result mean_value :=
  meanValue ← foldl (add_tag_value seriesData tag)
    (Ok (if isArray then MeanArray [] else MeanNumber (Some 0%Q)))
    (imageIds seriesData);
  let n := length (imageIds seriesData) in
  Ok match meanValue with
     | MeanArray m => MeanArray ((λ x, ndiv x n) <$> m)
     | MeanNumber x => MeanNumber (ndiv x n)
     end.

(** [a || b] on numbers: [0] is falsy. *)
Definition or_else (a b : option Z) : option Z :=
  match a with
  | Some z => if z =? 0 then b else a
  | None => b
  end.

Record volume : Type := Volume {
  volume_imageIds : list string;
  volume_rows : option Z;
  volume_cols : option Z;
  volume_repr : option string;
  volume_imagePosition : option (list Q);
  numberOfSlices : nat;
  volume_imageOrientation : mean_value;
  volume_pixelSpacing : mean_value;
  volume_maxPixelValue : mean_value;
  volume_minPixelValue : mean_value;
  sliceThickness : option num;
}.

(** The header is one object: the key ["volume"] and one key per slice
    identifier. *)
Inductive header_entry : Type :=
| HeaderVolume (v : volume)
| HeaderSlice (m : metadata).

(** [header[imageId] = series.instances[imageId].metadata] *)
Definition add_slice_entry (seriesData : series)
    (acc : result (gmap string header_entry)) (imageId : string)
    : result (gmap string header_entry) :=
  header ← acc;
  inst ← defined (instances seriesData !! imageId);
  Ok (<[imageId := HeaderSlice (metadata_of inst)]> header).

(** [buildHeader] of the i/o module ([src/unnamed/part_000], lines 50-85);
    the series identifier, slope and intercept it copies from the first
    slice are not modelled. *)
Definition buildHeader (seriesData : series) : result (gmap string header_entry) :=
  first ← defined (instance_at seriesData 0);
  let m := metadata_of first in
  orientation ← getMeanValue seriesData "imageOrientation" true;
  spacing_ ← getMeanValue seriesData "pixelSpacing" true;
  maxValue ← getMeanValue seriesData "maxPixelValue" false;
  minValue ← getMeanValue seriesData "minPixelValue" false;
  thickness ← getDistanceBetweenSlices seriesData 0 1;
  let v := {| volume_imageIds := imageIds seriesData;
              volume_rows := or_else (rows m) (x00280010 m);
              volume_cols := or_else (cols m) (x00280011 m);
              volume_repr := repr m;
              volume_imagePosition := imagePosition m;
              numberOfSlices := length (imageIds seriesData);
              volume_imageOrientation := orientation;
              volume_pixelSpacing := spacing_;
              volume_maxPixelValue := maxValue;
              volume_minPixelValue := minValue;
              sliceThickness := thickness |} in
  foldl (add_slice_entry seriesData) (Ok {[ "volume" := HeaderVolume v ]})
        (imageIds seriesData).

(** ** Slice ordering *)

(** [parseInt] on a string: leading white space, an optional sign, an
    optional [0x] prefix, then the longest run of digits.  The result is a
    number: [NaN] when there is no digit, else the double nearest to the
    integer the digits denote, with the sign in front (so ["-0"] is [-0]).
    Only the ASCII white space characters are recognised.  Beyond twenty
    significant decimal digits an engine may round from a truncated
    integer; the nearest double is taken here. *)
Definition is_space (c : ascii) : bool :=
  let n := N_of_ascii c in
  ((n =? 32) || (n =? 9) || (n =? 10) || (n =? 11) || (n =? 12) || (n =? 13))%N.

Definition digit_value (radix : Z) (c : ascii) : option Z :=
  let n := Z.of_N (N_of_ascii c) in
  d ← (if (48 <=? n) && (n <=? 57) then Some (n - 48)
       else if (97 <=? n) && (n <=? 122) then Some (n - 87)
       else if (65 <=? n) && (n <=? 90) then Some (n - 55)
       else None);
  if d <? radix then Some d else None.

Fixpoint skip_spaces (s : string) : string :=
  match s with
  | String c s' => if is_space c then skip_spaces s' else s
  | EmptyString => s
  end.

Fixpoint parse_digits (radix : Z) (acc : option Z) (s : string) : option Z :=
  match s with
  | String c s' =>
      match digit_value radix c with
      | Some d => parse_digits radix (Some (default 0 acc * radix + d)) s'
      | None => acc
      end
  | EmptyString => acc
  end.

(** The integer of the digits, [None] when there is no digit. *)
Definition parse_unsigned (s : string) : option Z :=
  match s with
  | String "0"%char (String "x"%char s') | String "0"%char (String "X"%char s') =>
      parse_digits 16 None s'
  | _ => parse_digits 10 None s
  end.

Definition parseInt_string (s : string) : number :=
  match skip_spaces s with
  | String "-"%char s' => from_option (λ z, neg (lit z)) NaN (parse_unsigned s')
  | String "+"%char s' => from_option lit NaN (parse_unsigned s')
  | s' => from_option lit NaN (parse_unsigned s')
  end.

(** [parseInt] on a number reads the string of the number.  A number
    attribute that holds the integer [z] holds the double nearest to [z].
    Below [10 ^ 21] in magnitude it prints as its digits and is read back.
    From [10 ^ 21] on the string has an exponent, [d.ddde+n], of which
    [parseInt] reads the first digit: the first digit of the shortest
    decimal, of at most seventeen digits, that denotes the double.  An
    infinity prints without a digit. *)
Fixpoint count_digits (fuel : nat) (v : Z) : Z :=
  match fuel with
  | O => 0
  | S fuel' => if v <? 10 then 1 else 1 + count_digits fuel' (v / 10)
  end.

Definition decimal_length (v : Z) : Z := count_digits (Z.to_nat (Z.log2 v) + 1) v.

Definition shortest_digits (v : Z) : Z :=
  let reads_back (s e : Z) : bool := SFeqb (lit (s * 10 ^ e)) (lit v) in
  default v
    (head (omap (λ k, let e := decimal_length v - k in
                      let s := v / 10 ^ e in
                      if reads_back s e then Some s
                      else if reads_back (s + 1) e then Some (s + 1)
                      else None)
                (seqZ 1 17))).

Definition first_digit (s : Z) : Z := s / 10 ^ (decimal_length s - 1).

Definition parseInt_integer (z : Z) : number :=
  match to_Z (lit z) with
  | Some v =>
      if Z.abs v <? 10 ^ 21 then lit z
      else (if v <? 0 then neg else id)
             (lit (first_digit (shortest_digits (Z.abs v))))
  | None => NaN
  end.

(** [parseInt(v)] for the value of the instance number tag: [NaN] for
    [undefined]. *)
Definition parseInt (v : option tag_value) : number :=
  match v with
  | Some (TagNumber z) => parseInt_integer z
  | Some (TagString s) => parseInt_string s
  | None => NaN
  end.

(** The value a slice is sorted by: a number ([NaN] is [KeyNumber None]),
    an infinity, a string or [undefined]. *)
Inductive sort_key : Type :=
| KeyNumber (x : num)
| KeyInfinity (negative : bool)
| KeyString (s : string)
| KeyUndefined.

(** The key of a double: its exact value. *)
Definition key_of_number (x : number) : sort_key :=
  match x with
  | S754_nan => KeyNumber None
  | S754_infinity s => KeyInfinity s
  | S754_zero _ => KeyNumber (Some 0%Q)
  | S754_finite s m e =>
      KeyNumber (Some (if 0 <=? e then inject_Z (cond_Zopp s (Z.pos m * 2 ^ e))
                       else Qmake (cond_Zopp s (Z.pos m)) (Z.to_pos (2 ^ (- e)))))
  end.

(** lodash's [compareAscending(value, other)]: defined keys in ascending
    order, then [undefined], then [NaN]; a [NaN] value is greater than
    every other key, a [NaN] included.  Each sorting method yields keys of
    one kind, so a number is never compared with a string (the answer is
    then [Eq]). *)
Definition compareAscending (value other : sort_key) : comparison :=
  match value, other with
  | KeyNumber None, _ => Gt
  | _, KeyNumber None => Lt
  | KeyUndefined, KeyUndefined => Eq
  | KeyUndefined, _ => Gt
  | _, KeyUndefined => Lt
  | KeyNumber (Some a), KeyNumber (Some b) => (a ?= b)%Q
  | KeyInfinity s, KeyInfinity s' =>
      if s then (if s' then Eq else Lt) else (if s' then Gt else Eq)
  | KeyInfinity s, KeyNumber (Some _) => if s then Lt else Gt
  | KeyNumber (Some _), KeyInfinity s => if s then Gt else Lt
  | KeyString a, KeyString b => String.compare a b
  | _, _ => Eq
  end.

(** [Array.prototype.sort] with the comparer [sortBy] passes, which is
    [compareAscending] on the keys and the position in the input between
    keys it finds equal.  The engine's sort is stable and asks the comparer
    about an element against the elements that precede it in the input
    (V8's binary insertion and merges): an element is put before the first
    element of the sorted run that the comparer places it below, else at
    the end.  For keys the comparer orders consistently this is the stable
    ascending sort; [NaN] keys, which the comparer places above every key,
    come last in the order of the input. *)
Fixpoint insert_sorted {A} (x : sort_key * A) (l : list (sort_key * A))
    : list (sort_key * A) :=
  match l with
  | [] => [x]
  | y :: l' =>
      match compareAscending x.1 y.1 with
      | Lt => x :: y :: l'
      | _ => y :: insert_sorted x l'
      end
  end.

Definition stable_sort {A} (l : list (sort_key * A)) : list (sort_key * A) :=
  foldl (λ sorted x, insert_sorted x sorted) [] l.

(** [sortBy(collection, iteratee)] of lodash: the iteratee runs on every
    element first, and an exception it raises ends the call; the elements
    are then put in ascending order of their keys by a stable sort. *)
Definition sortBy {A} (collection : list A) (iteratee : A → result sort_key)
    : result (list A) :=
  keyed ← foldr (λ x acc, k ← iteratee x; rest ← acc; Ok ((k, x) :: rest))
                (Ok []) collection;
  Ok ((stable_sort keyed).*2).

Definition NotATimeSeries : string :=
  "Not a time series: cardiacNumberOfImages tag not available or <= 1.".

Definition string_truthy (s : option string) : bool :=
  match s with
  | Some EmptyString | None => false
  | Some _ => true
  end.

(** The axis of the [imagePosition] method: three tests in a row, a later
    one overriding an earlier one; comparisons with [NaN] are false. *)
Definition nleb (x y : num) : bool :=
  match x, y with
  | Some a, Some b => Qle_bool a b
  | _, _ => false
  end.

Definition sortIndex_of (v1 v2 v3 : num) : option nat :=
  let s0 := if nleb v1 v2 && nleb v2 v3 then Some 0%nat else None in
  let s1 := if nleb v2 v1 && nleb v2 v3 then Some 1%nat else s0 in
  if nleb v3 v1 && nleb v3 v2 then Some 2%nat else s1.

(** [image_utils.js], lines 592-640. *)
Definition sortStackCallback (seriesData : series) (imageId : string)
    (method : string) : result sort_key :=
  if decide (method = "instanceNumber") then
    inst ← defined (instances seriesData !! imageId);
    Ok (key_of_number (parseInt (x00200013 (metadata_of inst))))
  else if decide (method = "contentTime") then
    inst ← defined (instances seriesData !! imageId);
    let cardiacNumberOfImages := x00181090 (metadata_of inst) in
    let contentTime := x00080033 (metadata_of inst) in
    match cardiacNumberOfImages, contentTime with
    | Some n, Some t =>
        if (negb (n =? 0)) && (1 <? n) && string_truthy contentTime
        then Ok (KeyString t) else Throw NotATimeSeries
    | _, _ => Throw NotATimeSeries
    end
  else if decide (method = "imagePosition") then
    inst ← defined (instances seriesData !! imageId);
    let p : list num := default [] (numbers <$> imagePosition (metadata_of inst)) in
    let o : list num := default [] (numbers <$> imageOrientation (metadata_of inst)) in
    let at_ (n : nat) : num := mjoin (o !! n) in
    let v1 := nadd (nmul (at_ 0%nat) (at_ 0%nat)) (nmul (at_ 3%nat) (at_ 3%nat)) in
    let v2 := nadd (nmul (at_ 1%nat) (at_ 1%nat)) (nmul (at_ 4%nat) (at_ 4%nat)) in
    let v3 := nadd (nmul (at_ 2%nat) (at_ 2%nat)) (nmul (at_ 5%nat) (at_ 5%nat)) in
    match sortIndex_of v1 v2 v3 ≫= (p !!.) with
    | Some x => Ok (KeyNumber x)
    | None => Ok KeyUndefined
    end
  else Ok KeyUndefined.

(** [image_utils.js], lines 167-199.  The inner function returns its
    variable [sorted] when no method is left; the variable is declared in
    the [try] block of the same call and is still [undefined] there: the
    result is [None]. *)
Fixpoint tryToSort (data : series) (methods : list string) : option (list string) :=
  match methods with
  | [] => None
  | sortMethod :: methods' =>
      match sortBy (imageIds data)
              (λ imageId, sortStackCallback data imageId sortMethod) with
      | Ok sorted => Some sorted
      | Throw _ => tryToSort data methods'
      end
  end.

Definition getSortedStack (seriesData : series) (sortPriorities : list string)
    (returnSuccessMethod : bool) : option (list string) :=
  tryToSort seriesData sortPriorities.

(** ** Typed arrays *)

Inductive array_type : Type := Uint8 | Sint8 | Uint16 | Sint16 | Uint32 | Sint32.

Record typed_array : Type := TypedArray {
  element_type : array_type;
  elements : list Z;
}.

Definition bits (t : array_type) : Z :=
  match t with
  | Uint8 | Sint8 => 8
  | Uint16 | Sint16 => 16
  | Uint32 | Sint32 => 32
  end.

Definition signed (t : array_type) : bool :=
  match t with
  | Sint8 | Sint16 | Sint32 => true
  | _ => false
  end.

(** An integer stored in a typed array wraps around to the element type. *)
Definition wrap (t : array_type) (v : Z) : Z :=
  let m := 2 ^ bits t in
  if signed t then (v + m / 2) mod m - m / 2 else v mod m.

(** [new T(size)]: a [NaN] size gives the empty array, a negative one a
    [RangeError]; the elements start at [0]. *)
Definition new_typed_array (t : array_type) (size : option Z) : result typed_array :=
  match size with
  | None => Ok (TypedArray t [])
  | Some n =>
      if n <? 0 then Throw RangeError
      else Ok (TypedArray t (replicate (Z.to_nat n) 0))
  end.

(** [a[index] = v]: a store outside the array is ignored, [undefined] is
    stored as [0]. *)
Definition typed_array_set (a : typed_array) (index : Z) (v : option Z) : typed_array :=
  if (0 <=? index) && (index <? Z.of_nat (length (elements a)))
  then TypedArray (element_type a)
         (<[Z.to_nat index := wrap (element_type a) (default 0 v)]> (elements a))
  else a.

(** [image_utils.js], lines 205-280.  [getTagValue] looks the tag up in
    the dictionary and reads its value through the accessors [uint16] and
    [string] of a parsed data set.  The attributes of a slice are a plain
    object without these accessors, so on them every path ends in a
    [TypeError]: in the call of the accessor, or before it in [.vr] for a
    tag the dictionary lacks. *)
Definition getTagValue (dataSet : metadata) (tag : string) : result (option Z) :=
  Throw TypeError.

(** [image_utils.js], lines 105-121. *)
Definition getPixelRepresentation (dataSet : metadata) : result string :=
  if string_truthy (repr dataSet) then Ok (default "" (repr dataSet))
  else
    bitsAllocated ← getTagValue dataSet "x00280100";
    pixelRepresentation ← getTagValue dataSet "x00280103";
    let shown := match bitsAllocated with
                 | Some b => pretty b
                 | None => "undefined"
                 end in
    Ok (if decide (pixelRepresentation = Some 1) then "Sint" +:+ shown
        else "Uint" +:+ shown).

(** [image_utils.js], lines 737-763: the [switch] has no default case. *)
Definition getTypedArray (tags : metadata) (size : option Z)
    : result (option typed_array) :=
  r ← getPixelRepresentation tags;
  if decide (r = "Uint8") then Some <$> new_typed_array Uint8 size
  else if decide (r = "Sint8") then Some <$> new_typed_array Sint8 size
  else if decide (r = "Uint16") then Some <$> new_typed_array Uint16 size
  else if decide (r = "Sint16") then Some <$> new_typed_array Sint16 size
  else if decide (r = "Uint32") then Some <$> new_typed_array Uint32 size
  else if decide (r = "Sint32") then Some <$> new_typed_array Sint32 size
  else Ok None.

(** ** Pixel data of a resliced slice *)

(** [a * b] on sizes, [NaN] when one is [undefined]. *)
Definition size_mul (a b : option Z) : option Z := x ← a; y ← b; Some (x * y).

(** [indexOf(array, value)], [-1] when the value is absent. *)
Fixpoint indexOf (array : list string) (value : string) : Z :=
  match array with
  | [] => -1
  | x :: array' =>
      if decide (x = value) then 0
      else let n := indexOf array' value in if n <? 0 then -1 else n + 1
  end.

(** [ijf[x] = v] on [[0, 0, 0]]: only the first three elements are read
    afterwards, so a store past them has no effect on the result. *)
Definition put_axis (x : number) (v : Z) (ijf : list Z) : list Z :=
  match array_index x with
  | Some n => <[n := v]> ijf
  | None => ijf
  end.

(** [array[z]] for an integer subscript. *)
Definition lookupZ {A} (array : list A) (z : Z) : option A :=
  if z <? 0 then None else array !! Z.to_nat z.

(** The inner function [getPixelValue] of [getReslicedPixeldata]. *)
Definition getPixelValue (originalData : series) (fromCols : option Z)
    (ijf : list Z) : result (option Z) :=
  let i := default 0 (ijf !! 0%nat) in
  let j := default 0 (ijf !! 1%nat) in
  let f := default 0 (ijf !! 2%nat) in
  match lookupZ (imageIds originalData) f ≫= (instances originalData !!.) with
  | None => Ok None
  | Some targetInstance =>
      targetPixeldata ← defined (pixelData targetInstance);
      Ok (index ← (c ← fromCols; Some (j * c + i)); lookupZ targetPixeldata index)
  end.

(** The subscript a pixel of row [j] and column [i] is stored at. *)
Definition write_index (permuteTable : list number) (rows cols j i : Z) : Z :=
  if isNegativeSign (entry permuteTable 1) then rows * cols - j * cols + i
  else j * cols + i.

(** The body of the two loops. *)
Definition reslice_pixel (originalData : series) (permuteTable : list number)
    (fromCols : option Z) (rows cols frame : Z)
    (acc : result (option typed_array)) (ji : Z * Z) : result (option typed_array) :=
  reslicedSlice ← acc;
  let '(j, i) := ji in
  let permuteAbsTable := absTable permuteTable in
  let ijf := put_axis (entry permuteAbsTable 2) frame
               (put_axis (entry permuteAbsTable 1) j
                  (put_axis (entry permuteAbsTable 0) i [0; 0; 0])) in
  let index := write_index permuteTable rows cols j i in
  target ← defined reslicedSlice;
  v ← getPixelValue originalData fromCols ijf;
  Ok (Some (typed_array_set target index v)).

(** The pairs [(j, i)] in the order the loops visit them. *)
Definition pixel_order (rows cols : option Z) : list (Z * Z) :=
  match rows with
  | Some r =>
      j ← seqZ 0 r;
      match cols with
      | Some c => (λ i, (j, i)) <$> seqZ 0 c
      | None => []
      end
  | None => []
  end.

(** [image_utils.js], lines 436-503.  The result is [Ok None] when the
    function returns [undefined]. *)
Definition getReslicedPixeldata (imageId : string)
    (originalData reslicedData : series) : result (option typed_array) :=
  reslicedInstance ← defined (instances reslicedData !! imageId);
  let reslicedMetadata := metadata_of reslicedInstance in
  permuteTable ← defined (permuteTable_of reslicedInstance);
  let rows := x00280010 reslicedMetadata in
  let cols := x00280011 reslicedMetadata in
  reslicedSlice ← getTypedArray reslicedMetadata (size_mul rows cols);
  let frame := indexOf (imageIds reslicedData) imageId in
  originalInstance ← defined (instance_at originalData 0);
  let fromCols := x00280011 (metadata_of originalInstance) in
  let frame := if isNegativeSign (entry permuteTable 2)
               then Z.of_nat (length (imageIds reslicedData)) - frame
               else frame in
  foldl (reslice_pixel originalData permuteTable fromCols
           (default 0 rows) (default 0 cols) frame)
        (Ok reslicedSlice) (pixel_order rows cols).

(** ** Metadata of a resliced series *)

(** [image_utils.js], lines 910-924. *)
Definition permuteSignedArrays (convertArray : list number)
    (sourceArray : list (option (list num))) : result (list (option (list num))) :=
  mapM (M := result)
       (λ c : number,
          let sourceIndex := abs c in
          if isNegativeSign c
          then source ← defined (array_get sourceArray sourceIndex);
               Ok (Some (nneg <$> (source : list num)))
          else Ok (array_get sourceArray sourceIndex))
       convertArray.

(** [iop.slice(0, 3)] and [iop.slice(3, 6)]. *)
Definition row_versor (iop : list num) : list num := take 3 iop.
Definition column_versor (iop : list num) : list num := take 3 (drop 3 iop).

(** [image_utils.js], lines 768-786.  [null] is [None]; [a.concat(undefined)]
    appends [undefined], read as [NaN] by every later use. *)
Definition getReslicedIOP (iop : option (list num)) (permuteTable : list number)
    : result (option (list num)) :=
  match iop with
  | None => Ok None
  | Some iop =>
      let u := row_versor iop in
      let v := column_versor iop in
      let w := getNormalOrientation iop in
      shuffledIop ← permuteSignedArrays permuteTable [Some u; Some v; Some w];
      first ← defined (mjoin (shuffledIop !! 0%nat));
      Ok (Some (first ++ default [None] (mjoin (shuffledIop !! 1%nat))))
  end.

(** [max(array)] of lodash: the first number that no later number
    exceeds; [NaN] elements are skipped, the result is [undefined] when
    there is no number. *)
Definition max_number (array : list num) : option Q :=
  foldl (λ computed current,
           match current, computed with
           | Some c, Some m => if Qle_bool c m then computed else Some c
           | Some c, None => Some c
           | None, _ => computed
           end) None array.

(** [indexOf(array, value)] of lodash on numbers, [None] for [-1]. *)
Fixpoint index_of_number (array : list num) (value : Q) : option nat :=
  match array with
  | [] => None
  | x :: array' =>
      if match x with Some q => Qeq_bool q value | None => false end
      then Some 0%nat
      else S <$> index_of_number array' value
  end.

(** [indexOf(a, max(a))] *)
Definition major_index (array : list num) : option nat :=
  max_number array ≫= index_of_number array.

Definition size_number (z : option Z) : num := z ≫= of_Z.

(** [permuteTable[n]] for a subscript that may be [-1]. *)
Definition entry_at (permuteTable : list number) (n : option nat) : number :=
  match n with
  | Some n => entry permuteTable n
  | None => NaN
  end.

(** [image_utils.js], lines 791-871. *)
Definition getReslicedIPP (ipp iop reslicedIOP : option (list num))
    (permuteTable : list number) (imageIndex : Z)
    (fromSize toSize : list (option Z)) (fromSpacing : list (option spacing))
    : result (list num) :=
  iop ← defined iop;
  let u := row_versor iop in
  let v := column_versor iop in
  let w := getNormalOrientation iop in
  let absW := nabs <$> w in
  let majorOriginalIndex := major_index absW in
  reslicedIOP ← defined reslicedIOP;
  let normalReslicedIop := nabs <$> getNormalOrientation reslicedIOP in
  let majorIndex := major_index normalReslicedIop in
  let size_at (n : option nat) : num :=
    size_number (n ≫= λ n, mjoin (toSize !! n)) in
  let flip_index (n : option nat) : num :=
    if isNegativeSign (entry_at permuteTable n)
    then nsub (size_at n) (of_Z imageIndex) else of_Z imageIndex in
  let index := flip_index majorIndex in
  ipp ← (if isNegativeSign (entry permuteTable 1)
         then ipp ← defined ipp;
              Ok (Some (imap (λ i val,
                    nadd val (nmul (nmul (size_number (mjoin (fromSize !! 2%nat)))
                                         (to_number (mjoin (fromSpacing !! 2%nat))))
                                   (mjoin (w !! i)))) ipp))
         else Ok ipp);
  let '(index, choice) :=
    if decide (majorIndex = Some 0%nat)
    then (index, Some (mjoin (fromSpacing !! 0%nat), u))
    else if decide (majorIndex = Some 1%nat)
    then if decide (majorOriginalIndex = Some 0%nat)
         then (index, Some (mjoin (fromSpacing !! 0%nat), u))
         else if decide (majorOriginalIndex = Some 2%nat)
         then (flip_index majorOriginalIndex, Some (mjoin (fromSpacing !! 1%nat), v))
         else (index, None)
    else if decide (majorIndex = Some 2%nat)
    then (index, Some (mjoin (fromSpacing !! 1%nat), v))
    else (index, None) in
  ipp ← defined ipp;
  match choice, ipp with
  | Some (spacing_, versor), _ =>
      Ok (imap (λ i val,
            nadd val (nmul (nmul index (to_number spacing_)) (mjoin (versor !! i)))) ipp)
  | None, [] => Ok []
  | None, _ => Throw TypeError
  end.

(** [image_utils.js], lines 876-884. *)
Definition getReslicedSliceLocation (reslicedIOP : option (list num))
    (reslicedIPP : list num) : result (option num) :=
  reslicedIOP ← defined reslicedIOP;
  let normalReslicedIop := nabs <$> getNormalOrientation reslicedIOP in
  let majorIndex := major_index normalReslicedIop in
  Ok (majorIndex ≫= (reslicedIPP !!.)).

(** [image_utils.js], lines 889-905. *)
Definition spacingArray (seriesData : series) (sampleMetadata : metadata)
    : result (list (option spacing)) :=
  distanceBetweenSlices ←
    (if spacing_truthy (x00180050 sampleMetadata)
     then Ok (x00180050 sampleMetadata)
     else fmap Spacing <$> getDistanceBetweenSlices seriesData 0 1);
  pixelSpacing_ ← defined (x00280030 sampleMetadata);
  Ok [mjoin (pixelSpacing_ !! 1%nat); mjoin (pixelSpacing_ !! 0%nat);
      distanceBetweenSlices].

Section Reslice.

(** The identifiers minted for the resliced slices come from the loader
    ([getCustomImageId], not among the sources) and from [uuid.v4]: the
    [n]-th identifier of a call is a parameter. *)
Variable getCustomImageId : string → nat → string.
Variable uuid_v4 : nat → string.

(** [extend(clone(sampleMetadata), {...})]: the attributes that are not
    overwritten are those of the sample. *)
Definition resliced_slice_metadata (sampleMetadata : metadata)
    (reslicedSeriesId : string) (toSize : list (option Z))
    (toSpacing : list (option spacing)) (f : Z)
    (reslicedIOP : option (list num)) (reslicedIPP : list num)
    (sliceLocation : option num) : metadata :=
  {| rows := rows sampleMetadata;
     cols := cols sampleMetadata;
     repr := repr sampleMetadata;
     imageOrientation := imageOrientation sampleMetadata;
     imagePosition := imagePosition sampleMetadata;
     pixelSpacing := pixelSpacing sampleMetadata;
     maxPixelValue := maxPixelValue sampleMetadata;
     minPixelValue := minPixelValue sampleMetadata;
     x00280010 := mjoin (toSize !! 1%nat);
     x00280011 := mjoin (toSize !! 0%nat);
     x00280100 := x00280100 sampleMetadata;
     x00280103 := x00280103 sampleMetadata;
     x00200037 := reslicedIOP;
     x00200032 := Some reslicedIPP;
     x00280030 := Some [mjoin (toSpacing !! 1%nat); mjoin (toSpacing !! 0%nat)];
     x00180050 := Some (SpacingArray [mjoin (toSpacing !! 2%nat)]);
     x00200013 := Some (TagNumber (f + 1));
     x00201041 := sliceLocation;
     x00181090 := x00181090 sampleMetadata;
     x00080033 := x00080033 sampleMetadata;
     x0020000e := Some reslicedSeriesId |}.

(** The number of turns of [for (f = 0; f < toSize[2]; f++)]. *)
Definition slice_count (toSize : list (option Z)) : nat :=
  match mjoin (toSize !! 2%nat) with
  | Some n => Z.to_nat n
  | None => 0
  end.

(** One turn of the loop of [getReslicedMetadata]: the state is the pair
    of [reslicedImageIds] and [reslicedInstances]. *)
Definition reslice_slice (reslicedSeriesId imageLoaderName : string)
    (sampleMetadata : metadata) (permuteTable : list number)
    (fromSize toSize : list (option Z)) (fromSpacing toSpacing : list (option spacing))
    (reslicedIOP : option (list num))
    (acc : result (list string * gmap string instance)) (f : nat)
    : result (list string * gmap string instance) :=
  '(reslicedImageIds, reslicedInstances) ← acc;
  let reslicedImageId := getCustomImageId imageLoaderName f in
  let instanceId_ := uuid_v4 f in
  reslicedIPP ← getReslicedIPP (x00200032 sampleMetadata)
                  (x00200037 sampleMetadata) reslicedIOP permuteTable
                  (Z.of_nat f) fromSize toSize fromSpacing;
  sliceLocation ← getReslicedSliceLocation reslicedIOP reslicedIPP;
  let metadata_ := resliced_slice_metadata sampleMetadata reslicedSeriesId
                     toSize toSpacing (Z.of_nat f) reslicedIOP reslicedIPP
                     sliceLocation in
  Ok (reslicedImageIds ++ [reslicedImageId],
      <[reslicedImageId :=
          {| instanceId := Some instanceId_;
             metadata_of := metadata_;
             pixelData := None;
             permuteTable_of := Some permuteTable |}]> reslicedInstances).

(** [image_utils.js], lines 329-431. *)
Definition getReslicedMetadata (reslicedSeriesId : string)
    (fromOrientation toOrientation : orientation) (seriesData : series)
    (imageLoaderName : string) : result series :=
  permuteTable ← defined (resliceTable fromOrientation toOrientation);
  let permuteAbsTable := absTable permuteTable in
  sample ← defined (instance_at seriesData 0);
  let sampleMetadata := metadata_of sample in
  let fromSize := [x00280011 sampleMetadata; x00280010 sampleMetadata;
                   Some (Z.of_nat (length (imageIds seriesData)))] in
  let toSize := permuteValues permuteAbsTable fromSize in
  fromSpacing ← spacingArray seriesData sampleMetadata;
  let toSpacing := permuteValues permuteAbsTable fromSpacing in
  reslicedIOP ← getReslicedIOP (x00200037 sampleMetadata) permuteTable;
  '(reslicedImageIds, reslicedInstances) ←
    foldl (reslice_slice reslicedSeriesId imageLoaderName sampleMetadata
             permuteTable fromSize toSize fromSpacing toSpacing reslicedIOP)
          (Ok ([], ∅)) (seq 0 (slice_count toSize));
  Ok {| imageIds := reslicedImageIds;
        instances := reslicedInstances;
        currentImageIdIndex := 0 |}.

End Reslice.

(** * Auxiliary definitions of the statements and proofs *)

(** ** Readings of the permutation tables *)

(** The axis a table entry selects and whether it is flipped. *)
Definition axes (permuteTable : list number) : list (option nat) :=
  array_index <$> absTable permuteTable.
Definition flips (permuteTable : list number) : list bool :=
  isNegativeSign <$> permuteTable.

(** The six tables read as flips and axes. *)
Definition table_flips (from to : orientation) : list bool :=
  match from, to with
  | sagittal, coronal => [true; false; false]
  | sagittal, axial => [true; false; true]
  | coronal, sagittal => [false; false; true]
  | coronal, axial => [false; false; true]
  | axial, sagittal => [false; true; true]
  | axial, coronal => [false; true; false]
  | _, _ => []
  end.

Definition table_axes (from to : orientation) : list (option nat) :=
  match from, to with
  | sagittal, coronal => [Some 2; Some 1; Some 0]
  | sagittal, axial => [Some 2; Some 0; Some 1]
  | coronal, sagittal => [Some 2; Some 1; Some 0]
  | coronal, axial => [Some 0; Some 2; Some 1]
  | axial, sagittal => [Some 1; Some 2; Some 0]
  | axial, coronal => [Some 0; Some 2; Some 1]
  | _, _ => []
  end%nat.

(** [remapVoxel] on the flips and axes of the table it looks up. *)
Definition remap_decoded (fl : list bool) (ax : list (option nat))
    (extent : list Z) (i j k : Z) : option (list Z) :=
  i_ ← (if default true (fl !! 0%nat) then flipped extent 0 i else Some i);
  j_ ← (if default true (fl !! 1%nat) then flipped extent 1 j else Some j);
  k_ ← (if default true (fl !! 2%nat) then flipped extent 2 k else Some k);
  ijk0 ← set_coordinate_at (mjoin (ax !! 0%nat)) i_ [0; 0; 0];
  ijk1 ← set_coordinate_at (mjoin (ax !! 1%nat)) j_ ijk0;
  set_coordinate_at (mjoin (ax !! 2%nat)) k_ ijk1.

(** ** Geometry of a slice *)

(** The first [n] elements of an array are numbers. *)
Definition has_numbers (n : nat) (a : list num) : Prop :=
  ∀ k, (k < n)%nat → ∃ q : Q, a !! k = Some (Some q).

(** The orientation and the position [getDistanceBetweenSlices] reads from
    the attributes of a slice. *)
Definition orientation_of (m : metadata) : option (list num) :=
  alias_or_raw (imageOrientation m) (x00200037 m).
Definition position_of (m : metadata) : option (list num) :=
  alias_or_raw (imagePosition m) (x00200032 m).

(** A slice without geometry. *)
Definition bare_metadata : metadata :=
  {| rows := None; cols := None; repr := None;
     imageOrientation := None; imagePosition := None; pixelSpacing := None;
     maxPixelValue := None; minPixelValue := None;
     x00280010 := None; x00280011 := None; x00280100 := None; x00280103 := None;
     x00200037 := None; x00200032 := None; x00280030 := None; x00180050 := None;
     x00200013 := None; x00201041 := None; x00181090 := None; x00080033 := None;
     x0020000e := None |}.

Definition bare_series : series :=
  let slice := {| instanceId := None; metadata_of := bare_metadata;
                  pixelData := None; permuteTable_of := None |} in
  {| imageIds := ["a"; "b"];
     instances := {[ "a" := slice; "b" := slice ]};
     currentImageIdIndex := 0 |}.

(** ** Buffers, sort keys and sums *)

(** The length of the buffer a reslice returns, if it returns one. *)
Definition buffer_length (a : option typed_array) : option nat :=
  (λ a, length (elements a)) <$> a.

(** A slice without cardiac gating: the number of cardiac images is absent
    or at most 1. *)
Definition lacks_gating (m : metadata) : Prop :=
  match x00181090 m with
  | Some n => n ≤ 1
  | None => True
  end.

(** The sum the loop of [getMeanValue] keeps: a component that is [0] or
    [NaN] is replaced by the new value, any other one is added to. *)
Fixpoint merge_sum (meanValue tagValue : list num) : list num :=
  match meanValue, tagValue with
  | m :: meanValue', t :: tagValue' =>
      (if ntruthy m then nadd m t else t) :: merge_sum meanValue' tagValue'
  | [], _ => tagValue
  | _, [] => meanValue
  end.

(** The attributes of the slices named by a list of identifiers, and those
    of all the slices of a series in the order of its identifiers. *)
Definition metadata_at (seriesData : series) (ids : list string) : list metadata :=
  omap (λ imageId, metadata_of <$> instances seriesData !! imageId) ids.
Definition slices_of (seriesData : series) : list metadata :=
  metadata_at seriesData (imageIds seriesData).

(** The arithmetic mean of a list of rationals, and the [k]-th components
    of a list of vectors. *)
Definition mean_of (xs : list Q) : Q :=
  (foldr Qplus 0 xs / inject_Z (Z.of_nat (length xs)))%Q.
Definition component (k : nat) (vs : list (list Q)) : list Q :=
  (λ v, default 0%Q (v !! k)) <$> vs.

(** A result of [getMeanValue] is the componentwise mean of [n]-vectors,
    respectively the mean of numbers. *)
Definition is_mean_array (n : nat) (vs : list (list Q)) (m : mean_value) : Prop :=
  ∃ a, m = MeanArray a ∧ length a = n ∧
       ∀ k, (k < n)%nat →
         ∃ q : Q, a !! k = Some (Some q) ∧ (q == mean_of (component k vs))%Q.
Definition is_mean_number (xs : list Q) (m : mean_value) : Prop :=
  ∃ q : Q, m = MeanNumber (Some q) ∧ (q == mean_of xs)%Q.

(** The slices of a series carry what the header averages: an orientation
    of six numbers, a spacing of two, a largest and a smallest pixel
    value. *)
Definition header_ready (seriesData : series) : Prop :=
  ∀ imageId, imageId ∈ imageIds seriesData →
    ∃ inst o p mx mn,
      instances seriesData !! imageId = Some inst ∧
      imageOrientation (metadata_of inst) = Some o ∧ length o = 6%nat ∧
      pixelSpacing (metadata_of inst) = Some p ∧ length p = 2%nat ∧
      maxPixelValue (metadata_of inst) = Some mx ∧
      minPixelValue (metadata_of inst) = Some mn.

(** The rational form of [merge_sum] on vectors of the same length. *)
Definition merge_Q (qs v : list Q) : list Q :=
  zip_with (λ q x, if truthy q then q + x else x)%Q qs v.

(** A computation returns. *)
Definition is_Ok {A} (r : result A) : Prop :=
  match r with
  | Ok _ => True
  | Throw _ => False
  end.

(** The orientations whose row and column directions lie along two
    different patient axes, in either sense. *)
Definition unit_vector (axis : nat) (sign : Q) : list Q :=
  <[axis := sign]> [0; 0; 0]%Q.

Definition axis_aligned_orientations : list (list Q) :=
  a ← [0; 1; 2]%nat; sa ← [1; -1]%Q;
  b ← filter (λ b, b ≠ a) [0; 1; 2]%nat; sb ← [1; -1]%Q;
  [unit_vector a sa ++ unit_vector b sb].

Definition axis_aligned (iop : list Q) : Prop :=
  iop ∈ axis_aligned_orientations.

(** ** Series used in the examples *)

(** The attributes of slice number [n] of an axial series: [r] rows and [c]
    columns at height [z], unit in-plane spacing, slice thickness 2. *)
Definition axial_metadata (r c : Z) (z : Q) (n : Z) : metadata :=
  {| rows := Some r; cols := Some c; repr := Some "Uint16";
     imageOrientation := Some [1; 0; 0; 0; 1; 0]%Q;
     imagePosition := Some [0; 0; z]%Q;
     pixelSpacing := Some [1; 1]%Q;
     maxPixelValue := Some (inject_Z n); minPixelValue := Some 0%Q;
     x00280010 := Some r; x00280011 := Some c;
     x00280100 := Some 16; x00280103 := Some 0;
     x00200037 := Some (numbers [1; 0; 0; 0; 1; 0]%Q);
     x00200032 := Some (numbers [0; 0; z]%Q);
     x00280030 := Some [Some (Spacing (Some 1%Q)); Some (Spacing (Some 1%Q))];
     x00180050 := Some (Spacing (Some 2%Q));
     x00200013 := Some (TagString (pretty n));
     x00201041 := Some (Some z);
     x00181090 := None; x00080033 := None; x0020000e := Some "series" |}.

(** Slice number [n] lies at height [2 n]; all its pixels hold [n + 1]. *)
Definition axial_slice (r c : Z) (n : Z) : instance :=
  {| instanceId := None;
     metadata_of := axial_metadata r c (inject_Z (2 * n)) n;
     pixelData := Some (replicate (Z.to_nat (r * c)) (n + 1));
     permuteTable_of := None |}.

Definition slice_name (n : nat) : string := "slice:" +:+ pretty n.

(** An axial series of [n] slices. *)
Definition axial_series (r c : Z) (n : nat) : series :=
  {| imageIds := slice_name <$> seq 0 n;
     instances := list_to_map ((λ k, (slice_name k, axial_slice r c (Z.of_nat k))) <$> seq 0 n);
     currentImageIdIndex := 0 |}.

(** An axial series of four slices of 2 rows and 3 columns whose three
    spacings differ: rows 1/2 apart, columns 1/4 apart, slices 2 apart. *)
Definition spaced_slice (n : Z) : instance :=
  {| instanceId := None;
     metadata_of :=
       {| rows := Some 2; cols := Some 3; repr := Some "Uint16";
          imageOrientation := Some [1; 0; 0; 0; 1; 0]%Q;
          imagePosition := Some [0; 0; inject_Z (2 * n)]%Q;
          pixelSpacing := Some [1 # 2; 1 # 4]%Q;
          maxPixelValue := Some (inject_Z n); minPixelValue := Some 0%Q;
          x00280010 := Some 2; x00280011 := Some 3;
          x00280100 := Some 16; x00280103 := Some 0;
          x00200037 := Some (numbers [1; 0; 0; 0; 1; 0]%Q);
          x00200032 := Some (numbers [0; 0; inject_Z (2 * n)]%Q);
          x00280030 := Some [Some (Spacing (Some (1 # 2)%Q));
                             Some (Spacing (Some (1 # 4)%Q))];
          x00180050 := Some (Spacing (Some 2%Q));
          x00200013 := Some (TagString (pretty n));
          x00201041 := Some (Some (inject_Z (2 * n)));
          x00181090 := None; x00080033 := None; x0020000e := Some "series" |};
     pixelData := Some (replicate 6 (n + 1));
     permuteTable_of := None |}.

Definition spaced_series : series :=
  {| imageIds := slice_name <$> seq 0 4;
     instances := list_to_map ((λ k, (slice_name k, spaced_slice (Z.of_nat k))) <$> seq 0 4);
     currentImageIdIndex := 0 |}.

(** Identifiers for the slices of a reslice. *)
Definition resliced_name (loader : string) (n : nat) : string :=
  loader +:+ "://" +:+ pretty n.
Definition uuid_name (n : nat) : string := "uuid-" +:+ pretty n.

(** The reslices of small axial series used in the examples. *)
Definition sagittal_of (r c : Z) (n : nat) : result series :=
  getReslicedMetadata resliced_name uuid_name "resliced" axial sagittal
    (axial_series r c n) "reslice".
Definition coronal_of (r c : Z) (n : nat) : result series :=
  getReslicedMetadata resliced_name uuid_name "resliced" axial coronal
    (axial_series r c n) "reslice".

(** Three slices listed out of the order of their instance numbers. *)
Definition numbered_slice (number : string) : instance :=
  {| instanceId := None;
     metadata_of :=
       {| rows := None; cols := None; repr := None;
          imageOrientation := None; imagePosition := None; pixelSpacing := None;
          maxPixelValue := None; minPixelValue := None;
          x00280010 := None; x00280011 := None; x00280100 := None;
          x00280103 := None; x00200037 := None; x00200032 := None;
          x00280030 := None; x00180050 := None;
          x00200013 := Some (TagString number); x00201041 := None;
          x00181090 := None; x00080033 := Some "101530.000";
          x0020000e := None |};
     pixelData := None; permuteTable_of := None |}.

Definition shuffled_series : series :=
  {| imageIds := ["a"; "b"; "c"];
     instances := {[ "a" := numbered_slice "3"; "b" := numbered_slice " 1";
                     "c" := numbered_slice "2" ]};
     currentImageIdIndex := 0 |}.

(** * Further functions of the imaging utilities *)

(** ** Pixel extrema *)

(** [image_utils.js], lines 72-83.  [!min] holds for [undefined] and for
    [0]. *)
Definition getMinPixelValue (value : option Z) (pixelData : list Z) : option Z :=
  match value with
  | Some _ => value
  | None =>
      foldl (λ (min : option Z) p,
               match min with
               | Some m => if (m =? 0) || (p <? m) then Some p else min
               | None => Some p
               end) None pixelData
  end.

(** [image_utils.js], lines 88-100. *)
Definition getMaxPixelValue (value : option Z) (pixelData : list Z) : option Z :=
  match value with
  | Some _ => value
  | None =>
      foldl (λ (max : option Z) p,
               match max with
               | Some m => if (m =? 0) || (m <? p) then Some p else max
               | None => Some p
               end) None pixelData
  end.

(** ** Image identifiers *)

Definition is_slash (c : ascii) : bool := (N_of_ascii c =? 47)%N.

(** [s.split("//").pop()]: the separators are found from left to right
    without overlap; the result is what follows the last one, the whole
    string when there is none.  [last_piece] is [None] when the string has
    no separator. *)
Fixpoint last_piece (s : string) : option string :=
  match s with
  | EmptyString => None
  | String c t =>
      match t with
      | String c' rest =>
          if is_slash c && is_slash c'
          then Some (default rest (last_piece rest))
          else last_piece t
      | EmptyString => None
      end
  end.

Definition split_pop (s : string) : string := default s (last_piece s).

(** [image_utils.js], lines 553-556. *)
Definition parseImageId (imageId : string) : number :=
  parseInt_string (split_pop imageId).

(** The string of a list of decimal digits and the number it denotes. *)
Definition digit_char (d : Z) : ascii := ascii_of_N (Z.to_N (48 + d)).
Definition digits_string (ds : list Z) : string :=
  foldr (λ d s, String (digit_char d) s) EmptyString ds.
Definition digits_value (ds : list Z) : Z := foldl (λ a d, a * 10 + d) 0 ds.
Definition decimal_digits (ds : list Z) : Prop :=
  ds ≠ [] ∧ Forall (λ d, 0 ≤ d ≤ 9) ds.

(** The last character of a string. *)
Fixpoint last_char (s : string) : option ascii :=
  match s with
  | EmptyString => None
  | String c EmptyString => Some c
  | String _ s' => last_char s'
  end.

(** ** The contiguous pixel array of a series *)

(** The [switch] of [buildData]: the default is an array of bytes. *)
Definition array_type_of (r : option string) : array_type :=
  if decide (r = Some "Uint8") then Uint8
  else if decide (r = Some "Sint8") then Sint8
  else if decide (r = Some "Uint16") then Uint16
  else if decide (r = Some "Sint16") then Sint16
  else if decide (r = Some "Uint32") then Uint32
  else if decide (r = Some "Sint32") then Sint32
  else Uint8.

(** [data.set(source, offset)]: a source that does not fit behind the
    offset is a [RangeError]; the values wrap around to the element type. *)
Definition typed_array_copy (data : typed_array) (source : list Z) (offset : nat)
    : result typed_array :=
  if (length (elements data) <? offset + length source)%nat then Throw RangeError
  else Ok (TypedArray (element_type data)
             (take offset (elements data)
              ++ (wrap (element_type data) <$> source)
              ++ drop (offset + length source) (elements data))).

(** The body of the loops of [buildData]: the state is the array and
    [offsetData]. *)
Definition copy_slice (acc : result (typed_array * nat))
    (sliceData : result (list Z)) : result (typed_array * nat) :=
  '(data, offsetData) ← acc;
  sliceData ← sliceData;
  data ← typed_array_copy data sliceData offsetData;
  Ok (data, (offsetData + length sliceData)%nat).

(** [series.instances[imageId].pixelData], as [data.set] receives it. *)
Definition slice_pixels (seriesData : series) (imageId : string) : result (list Z) :=
  inst ← defined (instances seriesData !! imageId);
  defined (pixelData inst).

(** [rows * cols * series.imageIds.length], with [rows || x00280010] and
    [cols || x00280011] of the first slice; [NaN] is [None]. *)
Definition data_length (seriesData : series) (m : metadata) : option Z :=
  size_mul (size_mul (or_else (rows m) (x00280010 m))
                     (or_else (cols m) (x00280011 m)))
           (Some (Z.of_nat (length (imageIds seriesData)))).

(** [buildData] of the i/o module ([src/unnamed/part_000], lines 94-146).
    [cachedImages] stands for the pixel data of the images of cornerstone's
    cache, in the order of the cache, which the function reads when
    [useSeriesData] is false. *)
Definition buildData (cachedImages : list (list Z)) (seriesData : series)
    (useSeriesData : bool) : result typed_array :=
  first ← defined (instance_at seriesData 0);
  let m := metadata_of first in
  let len := data_length seriesData m in
  data ← new_typed_array (array_type_of (repr m)) len;
  '(data, _) ← foldl copy_slice (Ok (data, 0%nat))
                 (if useSeriesData
                  then slice_pixels seriesData <$> imageIds seriesData
                  else Ok <$> cachedImages);
  Ok data.

(** ** Dates and tag codes *)

(** [s.slice(from, to)] for [0 <= from <= to]. *)
Definition slice (from to : nat) (s : string) : string :=
  substring from (to - from) s.

(** [p[1] ? p : "0" + p[0]] on a piece of at most two characters: the
    first character of the empty string is [undefined]. *)
Definition pad (p : string) : string :=
  match p with
  | String _ (String _ _) => p
  | String c EmptyString => String "0" p
  | EmptyString => "0undefined"
  end.

(** [image_utils.js], lines 671-678. *)
Definition formatDate (date : string) : string :=
  let yyyy := slice 0 4 date in
  let mm := slice 4 6 date in
  let dd := slice 6 8 date in
  yyyy +:+ "-" +:+ pad mm +:+ "-" +:+ pad dd.

(** [image_utils.js], lines 683-704. *)
Definition formatDateTime (date : string) : string :=
  let yyyy := slice 0 4 date in
  let mm := slice 4 6 date in
  let dd := slice 6 8 date in
  let hh := slice 8 10 date in
  let m := slice 10 12 date in
  let ss := slice 12 14 date in
  yyyy +:+ "-" +:+ pad mm +:+ "-" +:+ pad dd +:+ "/" +:+ hh +:+ ":" +:+ m
    +:+ ":" +:+ ss.

(** The class [\w]. *)
Definition is_word (c : ascii) : bool :=
  let n := N_of_ascii c in
  ((48 <=? n) && (n <=? 57) || (65 <=? n) && (n <=? 90)
   || (97 <=? n) && (n <=? 122) || (n =? 95))%N.

(** [n] word characters at the head of a string, and what follows them. *)
Fixpoint take_word (n : nat) (s : string) : option (string * string) :=
  match n with
  | O => Some (EmptyString, s)
  | S n' =>
      match s with
      | String c s' =>
          if is_word c
          then '(w, rest) ← take_word n' s'; Some (String c w, rest)
          else None
      | EmptyString => None
      end
  end.

(** [/x(\w{4})(\w{4})/.exec(code)]: the two groups of the leftmost match. *)
Fixpoint exec_tag (code : string) : option (string * string) :=
  match code with
  | EmptyString => None
  | String c s =>
      let here :=
        if Ascii.eqb c "x"
        then '(g1, rest) ← take_word 4 s; '(g2, _) ← take_word 4 rest; Some (g1, g2)
        else None in
      match here with
      | Some groups => Some groups
      | None => exec_tag s
      end
  end.

(** [toUpperCase] on ASCII text. *)
Definition upper_char (c : ascii) : ascii :=
  let n := N_of_ascii c in
  if ((97 <=? n) && (n <=? 122))%N then ascii_of_N (n - 32) else c.
Fixpoint toUpperCase (s : string) : string :=
  match s with
  | EmptyString => EmptyString
  | String c s' => String (upper_char c) (toUpperCase s')
  end.

(** [image_utils.js], lines 645-657. *)
Definition getDICOMTagCode (code : string) : string :=
  match exec_tag code with
  | None => code
  | Some (g1, g2) => toUpperCase ("(" +:+ g1 +:+ "," +:+ g2 +:+ ")")
  end.

(** ** Views and inputs used in the statements *)

(** The component of the position of a slice along axis [k]. *)
Definition position_along (seriesData : series) (k : nat) (imageId : string)
    : option Q :=
  inst ← instances seriesData !! imageId;
  p ← imagePosition (metadata_of inst);
  p !! k.

(** A series that lists an image id it has no instance for. *)
Definition incomplete_series : series :=
  {| imageIds := ["a"; "d"];
     instances := instances shuffled_series;
     currentImageIdIndex := 0 |}.

(** A slice that has only an orientation and a position, and stacks of
    such slices listed out of the order of their positions: one of axial
    slices, one of oblique slices whose normal leans from the first axis
    towards the third. *)
Definition positioned_slice (o p : list Q) : instance :=
  {| instanceId := None;
     metadata_of :=
       {| rows := None; cols := None; repr := None;
          imageOrientation := Some o; imagePosition := Some p;
          pixelSpacing := None; maxPixelValue := None; minPixelValue := None;
          x00280010 := None; x00280011 := None; x00280100 := None;
          x00280103 := None; x00200037 := None; x00200032 := None;
          x00280030 := None; x00180050 := None; x00200013 := None;
          x00201041 := None; x00181090 := None; x00080033 := None;
          x0020000e := None |};
     pixelData := None; permuteTable_of := None |}.

Definition positioned_series (o : list Q) : series :=
  {| imageIds := ["a"; "b"; "c"];
     instances := {[ "a" := positioned_slice o [8; 0; 4]%Q;
                     "b" := positioned_slice o [0; 5; -2]%Q;
                     "c" := positioned_slice o [4; 9; 0]%Q ]};
     currentImageIdIndex := 0 |}.

(** [permuteSignedArrays] on the flips and axes of a table. *)
Definition signed_permutation (fl : list bool) (ax : list (option nat))
    (src : list (list num)) : list (option (list num)) :=
  zip_with (λ (f : bool) (a : option nat),
              s ← a ≫= (src !!.);
              Some (if f then nneg <$> (s : list num) else s)) fl ax.

(** The row and the column direction are unit vectors at a right angle. *)
Definition orthonormal (iop : list Q) : Prop :=
  match iop with
  | [u0; u1; u2; v0; v1; v2] =>
      (u0 * u0 + u1 * u1 + u2 * u2 == 1 ∧ v0 * v0 + v1 * v1 + v2 * v2 == 1
       ∧ u0 * v0 + u1 * v1 + u2 * v2 == 0)%Q
  | _ => False
  end.

(** The coordinates [ijf] that the loops of [getReslicedPixeldata] read the
    pixel of row [j] and column [i] from. *)
Definition source_coordinates (permuteTable : list number) (frame j i : Z)
    : list Z :=
  let permuteAbsTable := absTable permuteTable in
  put_axis (entry permuteAbsTable 2) frame
    (put_axis (entry permuteAbsTable 1) j
       (put_axis (entry permuteAbsTable 0) i [0; 0; 0])).


(** A resliced slice of one pixel whose representation is none of the six
    integer ones. *)
Definition float_series : series :=
  {| imageIds := ["f"];
     instances :=
       {[ "f" := {| instanceId := None;
                    metadata_of :=
                      {| rows := None; cols := None; repr := Some "Float32";
                         imageOrientation := None; imagePosition := None;
                         pixelSpacing := None; maxPixelValue := None;
                         minPixelValue := None;
                         x00280010 := Some 1; x00280011 := Some 1;
                         x00280100 := Some 32; x00280103 := Some 0;
                         x00200037 := None; x00200032 := None;
                         x00280030 := None; x00180050 := None;
                         x00200013 := None; x00201041 := None;
                         x00181090 := None; x00080033 := None;
                         x0020000e := None |};
                    pixelData := None;
                    permuteTable_of := resliceTable coronal axial |} ]};
     currentImageIdIndex := 0 |}.

(** ** Instance numbers as a data set holds them *)

(** A string of [k] spaces, and the decimal string of an integer padded
    with spaces, with an optional sign ([Some true] is the minus sign). *)
Definition spaces (k : nat) : string := Nat.iter k (String " "%char) EmptyString.
Definition sign_string (sign : option bool) : string :=
  match sign with
  | None => ""
  | Some false => "+"
  | Some true => "-"
  end.
Definition integer_string (k : nat) (sign : option bool) (ds : list Z) (k' : nat)
    : string :=
  spaces k +:+ sign_string sign +:+ digits_string ds +:+ spaces k'.
Definition signed_value (sign : option bool) (ds : list Z) : Z :=
  match sign with
  | Some true => - digits_value ds
  | _ => digits_value ds
  end.

(** The value of the instance number tag holds the integer [n]: as a
    number, or as a decimal string. *)
Definition holds_number (v : tag_value) (n : Z) : Prop :=
  v = TagNumber n
  ∨ ∃ k sign ds k', decimal_digits ds ∧ v = TagString (integer_string k sign ds k')
                    ∧ n = signed_value sign ds.

(** The slice named [imageId] has the instance number [n]. *)
Definition numbered (seriesData : series) (imageId : string) (n : Z) : Prop :=
  ∃ inst v, instances seriesData !! imageId = Some inst
            ∧ x00200013 (metadata_of inst) = Some v ∧ holds_number v n.

(** ** The voxel behind a resliced pixel *)

(** The column, row and slice of the original series that the pixel of row
    [j] and column [i] of a resliced slice shows, for the four pairs of
    orientations whose table keeps the rows unflipped; [n] is the number of
    resliced slices and [frame] the place of the slice among them. *)
Definition source_voxel (from to : orientation) (n frame j i : Z)
    : option (Z * Z * Z) :=
  match from, to with
  | sagittal, coronal => Some (frame, j, i)
  | sagittal, axial => Some (j, n - frame, i)
  | coronal, sagittal => Some (n - frame, j, i)
  | coronal, axial => Some (i, n - frame, j)
  | _, _ => None
  end.

(** A stack whose pixels tell where they are: the pixel of column [x] and
    row [y] of slice [z] holds [100 z + 10 y + x]; and its reslice to axial
    when it is read as a coronal stack. *)
Definition coded_slice (r c z : Z) : instance :=
  {| instanceId := None;
     metadata_of := axial_metadata r c (inject_Z (2 * z)) z;
     pixelData := Some ((λ k, 100 * z + 10 * (k / c) + k mod c) <$> seqZ 0 (r * c));
     permuteTable_of := None |}.

Definition coded_series (r c : Z) (n : nat) : series :=
  {| imageIds := slice_name <$> seq 0 n;
     instances := list_to_map ((λ k, (slice_name k, coded_slice r c (Z.of_nat k))) <$> seq 0 n);
     currentImageIdIndex := 0 |}.

Definition coded_axial (r c : Z) (n : nat) : result series :=
  getReslicedMetadata resliced_name uuid_name "resliced" coronal axial
    (coded_series r c n) "reslice".

(** Two slices whose instance numbers differ beyond the precision of a
    double. *)
Definition wide_series : series :=
  {| imageIds := ["a"; "b"];
     instances := {[ "a" := numbered_slice "9007199254740993";
                     "b" := numbered_slice "9007199254740992" ]};
     currentImageIdIndex := 0 |}.

(** Slices whose instance numbers are in part no numbers. *)
Definition unnumbered_series : series :=
  {| imageIds := ["a"; "b"; "c"; "d"];
     instances := {[ "a" := numbered_slice "n/a"; "b" := numbered_slice "2";
                     "c" := numbered_slice ""; "d" := numbered_slice "1" ]};
     currentImageIdIndex := 0 |}.

(** * Properties *)

(** ** Reciprocals of doubles *)

(** The number of binary digits of a mantissa. *)
Lemma digits2_pos_bounds (p : positive) :
  2 ^ (Z.pos (digits2_pos p) - 1) ≤ Z.pos p < 2 ^ Z.pos (digits2_pos p).
Proof.
  induction p as [p IH | p IH |]; cbn [digits2_pos].
  - rewrite Pos2Z.inj_succ.
    replace (Z.succ (Z.pos (digits2_pos p)) - 1) with (Z.succ (Z.pos (digits2_pos p) - 1)) by lia.
    rewrite !Z.pow_succ_r by lia. lia.
  - rewrite Pos2Z.inj_succ.
    replace (Z.succ (Z.pos (digits2_pos p)) - 1) with (Z.succ (Z.pos (digits2_pos p) - 1)) by lia.
    rewrite !Z.pow_succ_r by lia. lia.
  - cbn. lia.
Qed.

(** One right shift halves a non-negative mantissa. *)
Lemma shr_1_m (mrs : shr_record) :
  0 ≤ shr_m mrs → shr_m (shr_1 mrs) = Z.shiftr (shr_m mrs) 1.
Proof.
  rewrite <- Z.div2_spec.
  destruct mrs as [m r s]; cbn [shr_m]; intros Hm.
  destruct m as [| [p | p |] | p]; cbn; try reflexivity; lia.
Qed.

(** [p] right shifts divide it by [2 ^ p]. *)
Lemma iter_pos_shr_m (p : positive) : ∀ mrs,
  0 ≤ shr_m mrs → shr_m (SpecFloat.iter_pos shr_1 p mrs) = Z.shiftr (shr_m mrs) (Z.pos p).
Proof.
  induction p as [p IH | p IH |]; intros mrs Hm; cbn [SpecFloat.iter_pos].
  - assert (H1 : 0 ≤ shr_m (shr_1 mrs)).
    { rewrite shr_1_m by done. apply Z.shiftr_nonneg; done. }
    assert (H2 : 0 ≤ shr_m (SpecFloat.iter_pos shr_1 p (shr_1 mrs))).
    { rewrite IH by done. apply Z.shiftr_nonneg; done. }
    rewrite IH, IH, shr_1_m by done.
    rewrite !Z.shiftr_shiftr by lia. f_equal. lia.
  - assert (H2 : 0 ≤ shr_m (SpecFloat.iter_pos shr_1 p mrs)).
    { rewrite IH by done. apply Z.shiftr_nonneg; done. }
    rewrite IH, IH by done.
    rewrite !Z.shiftr_shiftr by lia. f_equal. lia.
  - apply shr_1_m; done.
Qed.

(** Rounding to the format keeps a positive mantissa positive when the
    exponent is not below the smallest one: the shift removes fewer digits
    than the mantissa has. *)
Lemma shr_fexp_pos (m e : Z) (l : location) :
  0 < m → emin prec emax ≤ e →
  0 < shr_m (fst (shr_fexp prec emax m e l)) ∧ emin prec emax ≤ snd (shr_fexp prec emax m e l).
Proof.
  intros Hm He. unfold shr_fexp, shr.
  assert (Hrec : shr_m (shr_record_of_loc m l) = m) by (destruct l as [| []]; reflexivity).
  destruct m as [| p |]; try lia.
  cbn [Zdigits2].
  pose proof (digits2_pos_bounds p) as [Hlo _].
  set (d := Z.pos (digits2_pos p)) in *.
  assert (Hd : 1 ≤ d) by (unfold d; lia).
  destruct (fexp prec emax (d + e) - e) as [| n | n] eqn:Hn; cbn [fst snd]; try (rewrite Hrec; lia).
  split; [| lia].
  rewrite iter_pos_shr_m by (rewrite Hrec; lia).
  rewrite Hrec, Z.shiftr_div_pow2 by lia.
  apply Z.div_str_pos. split; [apply Z.pow_pos_nonneg; lia |].
  etrans; [| exact Hlo].
  apply Z.pow_le_mono_r; [lia |].
  unfold fexp, emin, prec, emax in *. lia.
Qed.

(** Rounding to nearest never decreases the truncated mantissa. *)
Lemma round_nearest_even_ge (m : Z) (l : location) : m ≤ round_nearest_even m l.
Proof. destruct l as [| []]; cbn; try destruct (Z.even m); lia. Qed.

(** The rounded result of a positive mantissa is a finite number other
    than zero or an infinity, of the sign asked for. *)
Lemma binary_round_aux_nonzero (s : bool) (m e : Z) (l : location) :
  0 < m → emin prec emax ≤ e →
  (∃ m' e', binary_round_aux prec emax s m e l = S754_finite s m' e')
  ∨ binary_round_aux prec emax s m e l = S754_infinity s.
Proof.
  intros Hm He. unfold binary_round_aux.
  pose proof (shr_fexp_pos m e l Hm He) as [H1 H2].
  destruct (shr_fexp prec emax m e l) as [mrs1 e1]; cbn [fst snd] in *.
  pose proof (round_nearest_even_ge (shr_m mrs1) (loc_of_shr_record mrs1)) as Hr.
  set (m1 := round_nearest_even _ _) in *.
  assert (Hm1 : 0 < m1) by lia.
  pose proof (shr_fexp_pos m1 e1 loc_Exact Hm1 H2) as [H3 H4].
  destruct (shr_fexp prec emax m1 e1 loc_Exact) as [mrs2 e2]; cbn [fst snd] in *.
  destruct (shr_m mrs2) as [| q |]; try lia.
  destruct (e2 <=? emax - prec); [left; by exists q, e2 | by right].
Qed.

(** The double [1]. *)
Lemma lit_1 : lit 1 = S754_finite false 4503599627370496 (-52).
Proof. reflexivity. Qed.

(** The reciprocal of a finite double other than zero is neither zero nor
    [NaN] and has the sign of the double: the quotient of the mantissas is
    at least [2 ^ 50] before rounding. *)
Lemma reciprocal_finite (s : bool) (m : positive) (e : Z) :
  bounded prec emax m e = true →
  (∃ m' e', div (lit 1) (S754_finite s m e) = S754_finite s m' e')
  ∨ div (lit 1) (S754_finite s m e) = S754_infinity s.
Proof.
  intros Hb. rewrite lit_1. unfold div, SFdiv.
  apply andb_prop in Hb as [Hc Hle].
  unfold canonical_mantissa in Hc. apply Z.eqb_eq in Hc. apply Z.leb_le in Hle.
  pose proof (digits2_pos_bounds m) as [Hlo Hhi].
  unfold SFdiv_core_binary.
  change (Zdigits2 4503599627370496) with 53.
  cbn [Zdigits2]. set (d := Z.pos (digits2_pos m)) in *.
  set (e' := Z.min _ _).
  set (sh := -52 - e - e').
  assert (Hd : 1 ≤ d) by (unfold d; lia).
  assert (Hd53 : d ≤ 53) by (unfold fexp, emin, prec, emax in *; lia).
  assert (Hsh : sh = Z.min d (1022 - e)).
  { unfold sh, e', fexp, emin, prec, emax in *. lia. }
  assert (He' : emin prec emax ≤ e').
  { unfold e', fexp, emin, prec, emax in *. lia. }
  assert (Hshpos : 0 < sh) by (unfold prec, emax in *; lia).
  destruct sh as [| n |] eqn:Esh; try lia.
  rewrite Z.shiftl_mul_pow2 by lia.
  set (m1 := 4503599627370496 * 2 ^ Z.pos n).
  assert (Hm1 : Z.pos m ≤ m1).
  { unfold m1. change 4503599627370496 with (2 ^ 52). rewrite <- Z.pow_add_r by lia.
    destruct (Z.le_ge_cases d (1022 - e)).
    - replace (Z.pos n) with d by lia.
      etrans; [apply Z.lt_le_incl, Hhi |]. apply Z.pow_le_mono_r; lia.
    - etrans; [apply Z.lt_le_incl, Hhi |]. apply Z.pow_le_mono_r; [lia |].
      unfold prec, emax in *. lia. }
  pose proof (Z.div_eucl_eq m1 (Z.pos m) ltac:(lia)) as Heq.
  pose proof (Z.mod_pos_bound m1 (Z.pos m) ltac:(lia)) as Hmod.
  unfold Z.modulo in Hmod.
  destruct (Z.div_eucl m1 (Z.pos m)) as [q r].
  assert (Hq : 0 < q) by nia.
  replace (xorb false s) with s by (destruct s; reflexivity).
  apply binary_round_aux_nonzero; done.
Qed.

(** ** Integers that are doubles *)

Lemma iter_xO (p k : positive) :
  Z.pos (Pos.iter xO p k) = Z.pos p * 2 ^ Z.pos k
  ∧ Z.pos (digits2_pos (Pos.iter xO p k)) = Z.pos (digits2_pos p) + Z.pos k.
Proof.
  induction k as [|k IH] using Pos.peano_ind.
  - cbn [Pos.iter digits2_pos]. split; [|lia]. rewrite Pos2Z.inj_xO. lia.
  - rewrite Pos.iter_succ. destruct IH as [IH1 IH2]. cbn [digits2_pos].
    rewrite Pos2Z.inj_xO, !Pos2Z.inj_succ, IH1, IH2, Z.pow_succ_r by lia.
    split; lia.
Qed.

(** An integer of at most 53 binary digits is a double: the literal has
    its value, with the mantissa shifted to 53 digits. *)
Lemma binary_round_exact (s : bool) (p : positive) :
  Z.pos (digits2_pos p) ≤ 53 →
  ∃ m e, binary_round prec emax s p 0 = S754_finite s m e
         ∧ - 52 ≤ e ≤ 0 ∧ Z.pos m = Z.pos p * 2 ^ (- e).
Proof.
  intros Hd. unfold binary_round, shl_align.
  set (d := Z.pos (digits2_pos p)) in *.
  assert (1 ≤ d) as Hd1 by (unfold d; lia).
  assert (fexp prec emax (d + 0) = d - 53) as Hf
      by (unfold fexp, emin, prec, emax; lia).
  rewrite Hf.
  assert (∀ m e, Z.pos (digits2_pos m) = 53 → - 52 ≤ e ≤ 0 →
            binary_round_aux prec emax s (Z.pos m) e loc_Exact = S754_finite s m e)
    as Haux.
  { intros m e Hm He. unfold binary_round_aux, shr_fexp. cbn [Zdigits2].
    rewrite Hm.
    replace (fexp prec emax (53 + e) - e) with 0
      by (unfold fexp, emin, prec, emax; lia).
    cbn [shr shr_record_of_loc shr_m loc_of_shr_record round_nearest_even Zdigits2].
    rewrite Hm.
    replace (fexp prec emax (53 + e) - e) with 0
      by (unfold fexp, emin, prec, emax; lia).
    cbn [shr shr_record_of_loc shr_m].
    replace (e <=? emax - prec) with true; [done|].
    symmetry. apply Z.leb_le. unfold emax, prec. lia. }
  destruct (d - 53 - 0) as [|k|k] eqn:Hk; try lia.
  - exists p, 0. rewrite Haux by (fold d; lia).
    split; [done|]. split; [lia|]. cbn. lia.
  - destruct (iter_xO p k) as [Hv Hdig].
    exists (Pos.iter xO p k), (d - 53).
    rewrite Haux by (fold d in Hdig; lia).
    split; [done|]. split; [lia|].
    rewrite Hv. f_equal. f_equal. lia.
Qed.

Lemma digits2_pos_le (p : positive) (n : Z) :
  Z.pos p < 2 ^ n → 0 ≤ n → Z.pos (digits2_pos p) ≤ n.
Proof.
  intros Hp Hn. pose proof (digits2_pos_bounds p) as [Hlo _].
  destruct (Z.le_gt_cases (Z.pos (digits2_pos p)) n) as [|Hgt]; [done|].
  assert (2 ^ n ≤ 2 ^ (Z.pos (digits2_pos p) - 1))
    by (apply Z.pow_le_mono_r; lia).
  lia.
Qed.

(** The literal of an integer below [2 ^ 53] in magnitude: a zero or a
    finite number of the sign of the integer whose mantissa and exponent
    give its absolute value. *)
Lemma lit_exact (z : Z) :
  Z.abs z < 2 ^ 53 →
  (z = 0 ∧ lit z = S754_zero false)
  ∨ ∃ m e, lit z = S754_finite (z <? 0) m e
           ∧ - 52 ≤ e ≤ 0 ∧ Z.pos m = Z.abs z * 2 ^ (- e).
Proof.
  intros Hz. unfold lit, binary_normalize. destruct z as [|p|p].
  - by left.
  - right. apply binary_round_exact, digits2_pos_le; lia.
  - right. apply binary_round_exact, digits2_pos_le; lia.
Qed.

Lemma to_Z_finite (s : bool) (m : positive) (e v : Z) :
  - 52 ≤ e ≤ 0 → Z.pos m = v * 2 ^ (- e) →
  to_Z (S754_finite s m e) = Some (cond_Zopp s v).
Proof.
  intros He Hm. unfold to_Z.
  assert (0 < 2 ^ (- e)) by (apply Z.pow_pos_nonneg; lia).
  destruct (Z.leb_spec 0 e).
  - replace e with 0 in * by lia. do 2 f_equal. cbn in Hm. lia.
  - rewrite Hm, Z.mod_mul, Z.eqb_refl, Z.div_mul by lia. done.
Qed.

Lemma to_Z_lit (z : Z) : Z.abs z < 2 ^ 53 → to_Z (lit z) = Some z.
Proof.
  intros Hz. destruct (lit_exact z Hz) as [[-> ->]|(m & e & -> & He & Hm)];
    [done|].
  rewrite (to_Z_finite _ _ _ _ He Hm). f_equal.
  destruct (Z.ltb_spec z 0); cbn; lia.
Qed.

Lemma key_of_number_finite (s : bool) (m : positive) (e v : Z) :
  - 52 ≤ e ≤ 0 → Z.pos m = v * 2 ^ (- e) →
  ∃ q, key_of_number (S754_finite s m e) = KeyNumber (Some q)
       ∧ (q == inject_Z (cond_Zopp s v))%Q.
Proof.
  intros He Hm. unfold key_of_number.
  assert (0 < 2 ^ (- e)) by (apply Z.pow_pos_nonneg; lia).
  eexists. split; [reflexivity|].
  destruct (Z.leb_spec 0 e).
  - replace e with 0 in * by lia. cbn in Hm.
    replace (Z.pos m * 2 ^ 0) with v by (cbn; lia). reflexivity.
  - unfold Qeq. cbn [Qnum Qden inject_Z]. rewrite Z2Pos.id by lia.
    destruct s; cbn [cond_Zopp]; lia.
Qed.

(** The key of the literal of an integer below [2 ^ 53] in magnitude is
    the integer, and so is the key of its opposite. *)
Lemma key_of_number_lit (z : Z) :
  Z.abs z < 2 ^ 53 →
  ∃ q, key_of_number (lit z) = KeyNumber (Some q) ∧ (q == inject_Z z)%Q.
Proof.
  intros Hz. destruct (lit_exact z Hz) as [[-> ->]|(m & e & -> & He & Hm)].
  - by exists 0%Q.
  - destruct (key_of_number_finite (z <? 0) m e (Z.abs z) He Hm) as (q & -> & Hq).
    exists q. split; [done|]. rewrite Hq.
    destruct (Z.ltb_spec z 0); cbn [cond_Zopp]; f_equiv; lia.
Qed.

Lemma key_of_number_neg_lit (z : Z) :
  0 ≤ z < 2 ^ 53 →
  ∃ q, key_of_number (neg (lit z)) = KeyNumber (Some q) ∧ (q == inject_Z (- z))%Q.
Proof.
  intros Hz. destruct (lit_exact z ltac:(lia)) as [[-> ->]|(m & e & -> & He & Hm)].
  - by exists 0%Q.
  - replace (z <? 0) with false by (symmetry; apply Z.ltb_ge; lia).
    cbn [neg SFopp negb].
    destruct (key_of_number_finite true m e (Z.abs z) He Hm) as (q & -> & Hq).
    exists q. split; [done|]. rewrite Hq. cbn [cond_Zopp]. f_equiv. lia.
Qed.

(** ** The sign test *)

(** Two numbers other than zero of opposite signs are not equal; a number
    other than zero and [NaN] is equal to itself. *)
Lemma SFeqb_opposite_signs (x y : number) :
  (∃ m e, x = S754_finite true m e) ∨ x = S754_infinity true →
  (∃ m e, y = S754_finite false m e) ∨ y = S754_infinity false →
  SFeqb x y = false.
Proof. intros [(m & e & ->) | ->] [(m' & e' & ->) | ->]; reflexivity. Qed.

Lemma SFeqb_refl_nonzero (x : number) (s : bool) :
  (∃ m e, x = S754_finite s m e) ∨ x = S754_infinity s → SFeqb x x = true.
Proof.
  intros [(m & e & ->) | ->]; unfold SFeqb, SFcompare.
  - rewrite Z.compare_refl, Pos.compare_cont_refl. destruct s; reflexivity.
  - destruct s; reflexivity.
Qed.

(** On a finite double other than zero the sign test answers the sign. *)
Lemma isNegativeSign_finite (s : bool) (m : positive) (e : Z) :
  bounded prec emax m e = true → isNegativeSign (S754_finite s m e) = s.
Proof.
  intros Hb. unfold isNegativeSign, strict_neq. cbn [abs SFabs].
  pose proof (reciprocal_finite false m e Hb) as Hpos.
  destruct s.
  - pose proof (reciprocal_finite true m e Hb) as Hneg.
    by rewrite SFeqb_opposite_signs.
  - by rewrite (SFeqb_refl_nonzero _ false).
Qed.

(** C6, as amended: on every double the sign test answers the sign bit of a
    zero and of a finite number (true for negative numbers and [-0], false
    for positive numbers and [+0]); it answers false on both infinities and
    true on [NaN]. *)
Theorem isNegativeSign_spec (x : number) :
  is_double x →
  isNegativeSign x =
    match x with
    | S754_zero s | S754_finite s _ _ => s
    | S754_infinity _ => false
    | S754_nan => true
    end.
Proof.
  intros Hx. destruct x as [[] | [] | | s m e]; try reflexivity.
  apply isNegativeSign_finite, Hx.
Qed.

Lemma isNegativeSign_spec_witness :
  is_double (neg (lit 2)) ∧ isNegativeSign (neg (lit 2)) = true.
Proof.
  split; [reflexivity |].
  exact (isNegativeSign_spec (neg (lit 2)) eq_refl).
Defined.

(** C6, as stated, fails at [-Infinity]: it is below zero and the sign test
    answers false. *)
Lemma isNegativeSign_negative_infinity :
  lt (neg Infinity) (lit 0) = true ∧ isNegativeSign (neg Infinity) = false.
Proof. split; reflexivity. Qed.

(** ** The permutation tables *)

(** C5: the table is defined exactly on the six ordered pairs of distinct
    orientations (it has no entry for a pair of equal orientations), and
    the absolute values of every defined table are a permutation of
    0, 1, 2. *)
Theorem resliceTable_defined_permutation :
  (∀ from to,
      match resliceTable from to with
      | Some permuteTable =>
          from ≠ to ∧
          length permuteTable = 3%nat ∧
          Permutation (absTable permuteTable) [lit 0; lit 1; lit 2] ∧
          Permutation (axes permuteTable) [Some 0; Some 1; Some 2]%nat
      | None => from = to
      end) ∧
  length (filter (λ p, is_Some (resliceTable p.1 p.2))
            (list_prod orientations orientations)) = 6%nat.
Proof.
  split; [| reflexivity].
  intros [] []; cbn [resliceTable]; try reflexivity;
    (split; [discriminate |]); (split; [reflexivity |]);
    vm_compute; split;
      first [ reflexivity
            | apply perm_swap
            | apply perm_skip, perm_swap
            | eapply perm_trans; [apply perm_swap |]; apply perm_skip, perm_swap
            | eapply perm_trans; [apply perm_skip, perm_swap |]; apply perm_swap
            | eapply perm_trans; [apply perm_swap |];
              eapply perm_trans; [apply perm_skip, perm_swap |]; apply perm_swap ].
Qed.

(** The flips and axes of the six tables: the entries written [-0] are
    flipped entries of axis 0. *)
Lemma resliceTable_flips (from to : orientation) (t : list number) :
  resliceTable from to = Some t → flips t = table_flips from to.
Proof. destruct from, to; intros [= <-]; vm_compute; reflexivity. Qed.

Lemma resliceTable_axes (from to : orientation) (t : list number) :
  resliceTable from to = Some t → axes t = table_axes from to.
Proof. destruct from, to; intros [= <-]; vm_compute; reflexivity. Qed.

(** [permuteValues] and the table look-ups in terms of axes and flips. *)
Lemma permuteValues_axes {A} (t : list number) (src : list (option A)) :
  permuteValues (absTable t) src = (λ a, n ← a; mjoin (src !! n)) <$> axes t.
Proof.
  unfold permuteValues, axes, array_get. by rewrite <- list_fmap_compose.
Qed.

Lemma entry_flips (t : list number) (n : nat) :
  (n < length t)%nat → isNegativeSign (entry t n) = default true (flips t !! n).
Proof.
  intros Hn. unfold entry, flips. rewrite list_lookup_fmap.
  destruct (lookup_lt_is_Some_2 t n Hn) as [x ->]. reflexivity.
Qed.

Lemma entry_axes (t : list number) (n : nat) :
  (n < length t)%nat → array_index (entry (absTable t) n) = mjoin (axes t !! n).
Proof.
  intros Hn. unfold entry, axes. rewrite list_lookup_fmap.
  assert (n < length (absTable t))%nat as Hn' by (unfold absTable; by rewrite length_fmap).
  destruct (lookup_lt_is_Some_2 _ n Hn') as [x ->]. reflexivity.
Qed.

Lemma resliceTable_length (from to : orientation) (t : list number) :
  resliceTable from to = Some t → length t = 3%nat.
Proof. destruct from, to; intros [= <-]; reflexivity. Qed.

(** ** Voxel remapping *)

(** The extents derived from an axial volume are those of one volume. *)
Lemma dims_from_axial_of_volume (c r n : Z) : dims_of_volume (dims_from_axial c r n).
Proof.
  intros from to t Ht.
  rewrite permuteValues_axes, (resliceTable_axes _ _ _ Ht).
  destruct from, to; try discriminate Ht; reflexivity.
Qed.

(** The extents of one volume are three numbers per orientation, fixed by
    those of the axial one. *)
Lemma dims_of_volume_inv (dims : orientation → list Z) :
  dims_of_volume dims →
  ∃ c r n, ∀ o, dims o = dims_from_axial c r n o.
Proof.
  intros H.
  pose proof (H axial sagittal _ eq_refl) as Has.
  pose proof (H axial coronal _ eq_refl) as Hac.
  pose proof (H sagittal axial _ eq_refl) as Hsa.
  rewrite permuteValues_axes in Has, Hac, Hsa.
  rewrite (resliceTable_axes axial sagittal) in Has by reflexivity.
  rewrite (resliceTable_axes axial coronal) in Hac by reflexivity.
  rewrite (resliceTable_axes sagittal axial) in Hsa by reflexivity.
  destruct (dims sagittal) as [| s0 [| s1 [| s2 [| ? ?]]]] eqn:Es;
    try discriminate Has.
  destruct (dims axial) as [| a0 [| a1 [| a2 [| ? ?]]]] eqn:Ea;
    try discriminate Hsa; try discriminate Has.
  destruct (dims coronal) as [| c0 [| c1 [| c2 [| ? ?]]]] eqn:Ec;
    try discriminate Hac.
  cbn in Has, Hac. simplify_eq.
  exists a0, a1, a2. intros []; done.
Qed.

(** [remapVoxel] between distinct orientations, on the decoded table. *)
Lemma remapVoxel_decoded (dims : orientation → list Z) (i j k : Z)
    (from to : orientation) :
  from ≠ to →
  remapVoxel dims [i; j; k] from to =
    remap_decoded (table_flips to from) (table_axes to from) (dims from) i j k.
Proof.
  intros Hne. unfold remapVoxel. rewrite decide_False by done.
  destruct (resliceTable to from) as [t |] eqn:Ht;
    [| by destruct from, to].
  pose proof (resliceTable_length _ _ _ Ht) as Hlen.
  rewrite <- (resliceTable_flips _ _ _ Ht), <- (resliceTable_axes _ _ _ Ht).
  cbn [mbind option_bind].
  unfold remap_decoded, set_coordinate.
  rewrite !entry_flips, !entry_axes by lia. reflexivity.
Qed.

(** C1: for the extents of one volume and two distinct orientations,
    remapping a voxel from [A] to [B] and the result back from [B] to [A]
    returns the voxel; this holds for every integer triple, in bounds or
    not. *)
Theorem remapVoxel_round_trip (dims : orientation → list Z)
    (A B : orientation) (i j k : Z) :
  dims_of_volume dims → A ≠ B →
  remapVoxel dims [i; j; k] A B ≫= (λ v, remapVoxel dims v B A) = Some [i; j; k].
Proof.
  intros Hd HAB. destruct (dims_of_volume_inv dims Hd) as (c & r & n & E).
  rewrite remapVoxel_decoded, E by done.
  destruct A, B; try done; cbn -[remapVoxel Z.sub];
    (rewrite remapVoxel_decoded, E by done);
    cbn -[Z.sub]; repeat f_equal; lia.
Qed.

Lemma remapVoxel_round_trip_witness :
  remapVoxel (dims_from_axial 4 5 6) [1; 2; 3] axial sagittal
    ≫= (λ v, remapVoxel (dims_from_axial 4 5 6) v sagittal axial) = Some [1; 2; 3].
Proof.
  apply (remapVoxel_round_trip (dims_from_axial 4 5 6) axial sagittal 1 2 3).
  - apply dims_from_axial_of_volume.
  - discriminate.
Defined.

(** ** Reslice metadata *)

(** A loop that has thrown keeps its exception. *)
Lemma foldl_Throw {A B} (step : result A → B → result A) (e : string) (l : list B) :
  (∀ e b, step (Throw e) b = Throw e) → foldl step (Throw e) l = Throw e.
Proof. intros Hstep. induction l as [| b l IH]; cbn; [done |]. by rewrite Hstep. Qed.

Lemma bind_Ok {A B} (r : result A) (f : A → result B) (b : B) :
  r ≫= f = Ok b → ∃ a, r = Ok a ∧ f a = Ok b.
Proof. destruct r as [a | e]; [by exists a | discriminate]. Qed.

Lemma defined_Ok {A} (o : option A) (a : A) : defined o = Ok a → o = Some a.
Proof. destruct o; cbn; congruence. Qed.

Lemma entry_absTable (t : list number) (n : nat) :
  (n < length t)%nat → entry (absTable t) n = abs (entry t n).
Proof.
  intros Hn. unfold entry, absTable. rewrite list_lookup_fmap.
  destruct (lookup_lt_is_Some_2 t n Hn) as [x ->]. reflexivity.
Qed.

Lemma permuteValues_lookup {A} (t : list number) (src : list (option A)) (k : nat) :
  (k < length t)%nat →
  mjoin (permuteValues (absTable t) src !! k) = array_get src (abs (entry t k)).
Proof.
  intros Hk. unfold permuteValues, absTable, entry.
  rewrite !list_lookup_fmap.
  destruct (lookup_lt_is_Some_2 t k Hk) as [x ->]. reflexivity.
Qed.

(** The element a table selects, by the axis it decodes to. *)
Lemma array_get_entry {A} (from to : orientation) (t : list number)
    (src : list (option A)) (k : nat) :
  resliceTable from to = Some t → (k < 3)%nat →
  array_get src (abs (entry t k)) =
    n ← mjoin (table_axes from to !! k); mjoin (src !! n).
Proof.
  intros Ht Hk. pose proof (resliceTable_length _ _ _ Ht) as Hlen.
  unfold array_get.
  rewrite <- entry_absTable, entry_axes, (resliceTable_axes _ _ _ Ht) by lia.
  reflexivity.
Qed.

Section ResliceFacts.

Variable getCustomImageId : string → nat → string.
Variable uuid_v4 : nat → string.

(** Every slice the loop adds carries the permuted sizes and spacings,
    and every identifier it lists names a slice. *)
Lemma reslice_loop (reslicedSeriesId imageLoaderName : string)
    (sampleMetadata : metadata) (permuteTable : list number)
    (fromSize toSize : list (option Z)) (fromSpacing toSpacing : list (option spacing))
    (reslicedIOP : option (list num)) (P : instance → Prop) :
  (∀ f ipp loc,
      P {| instanceId := Some (uuid_v4 f);
           metadata_of := resliced_slice_metadata sampleMetadata reslicedSeriesId
                            toSize toSpacing (Z.of_nat f) reslicedIOP ipp loc;
           pixelData := None;
           permuteTable_of := Some permuteTable |}) →
  ∀ (fs : list nat) ids0 insts0 ids insts,
    foldl (reslice_slice getCustomImageId uuid_v4 reslicedSeriesId imageLoaderName
             sampleMetadata permuteTable fromSize toSize fromSpacing toSpacing
             reslicedIOP) (Ok (ids0, insts0)) fs = Ok (ids, insts) →
    (∀ id, id ∈ ids0 → is_Some (insts0 !! id)) →
    map_Forall (λ _, P) insts0 →
    length ids = (length ids0 + length fs)%nat ∧
    (∀ id, id ∈ ids → is_Some (insts !! id)) ∧
    map_Forall (λ _, P) insts.
Proof.
  intros HP fs. induction fs as [| f fs IH]; intros ids0 insts0 ids insts Hrun Hids HP0.
  - cbn in Hrun. injection Hrun as <- <-. split; [cbn; lia | done].
  - cbn [foldl] in Hrun.
    destruct (reslice_slice _ _ _ _ _ _ _ _ _ _ _ (Ok (ids0, insts0)) f)
      as [[ids1 insts1] | e] eqn:Hstep.
    2:{ rewrite foldl_Throw in Hrun by done. discriminate. }
    unfold reslice_slice in Hstep. cbn [mbind result_bind] in Hstep.
    apply bind_Ok in Hstep as (ipp & _ & Hstep).
    apply bind_Ok in Hstep as (loc & _ & Hstep).
    injection Hstep as <- <-.
    apply IH in Hrun as (Hlen & Hin & Hall).
    + split; [| done]. rewrite Hlen, length_app. cbn. lia.
    + intros id [Hid | ->%list_elem_of_singleton]%elem_of_app.
      * destruct (decide (getCustomImageId imageLoaderName f = id)) as [-> | Hne].
        -- rewrite lookup_insert_eq. by eexists.
        -- rewrite lookup_insert_ne by done. by apply Hids.
      * rewrite lookup_insert_eq. by eexists.
    + apply map_Forall_insert_2; [apply HP | done].
Qed.

(** C9: a reslice between equal orientations finds no table and throws;
    it returns for no input. *)
Theorem getReslicedMetadata_same_orientation (reslicedSeriesId : string)
    (o : orientation) (seriesData : series) (imageLoaderName : string) :
  getReslicedMetadata getCustomImageId uuid_v4 reslicedSeriesId o o seriesData
    imageLoaderName = Throw TypeError.
Proof. by destruct o. Qed.

(** C2: the sizes and spacings of the resliced volume are those of the
    source permuted by the absolute table of the pair, [output[k] =
    input[abs(table[k])]], for the triple of the columns, rows and slices
    of the source and for the triple of its spacings: the column spacing
    [x00280030[1]], the row spacing [x00280030[0]] and the slice spacing,
    which is [x00180050] when that is set and else the distance between
    the first two slices.  The number of voxels [rows * cols * slices] is
    the same before and after. *)
Theorem getReslicedMetadata_permutes (reslicedSeriesId : string)
    (from to : orientation) (seriesData : series) (imageLoaderName : string)
    (resliced : series) (sample : instance) (c r : Z) :
  getReslicedMetadata getCustomImageId uuid_v4 reslicedSeriesId from to
    seriesData imageLoaderName = Ok resliced →
  instance_at seriesData 0 = Some sample →
  x00280011 (metadata_of sample) = Some c →
  x00280010 (metadata_of sample) = Some r →
  0 ≤ c → 0 ≤ r →
  ∃ permuteTable (pixelSpacing_ : list (option spacing))
    (sliceSpacing : option spacing),
    resliceTable from to = Some permuteTable ∧
    x00280030 (metadata_of sample) = Some pixelSpacing_ ∧
    (if spacing_truthy (x00180050 (metadata_of sample))
     then sliceSpacing = x00180050 (metadata_of sample)
     else (fmap (M := option) Spacing <$> getDistanceBetweenSlices seriesData 0 1
           : result (option spacing)) = Ok sliceSpacing) ∧
    let fromSize := [Some c; Some r; Some (Z.of_nat (length (imageIds seriesData)))] in
    let fromSpacing : list (option spacing) :=
      [mjoin (pixelSpacing_ !! 1%nat); mjoin (pixelSpacing_ !! 0%nat);
       sliceSpacing] in
    let size k := array_get fromSize (abs (entry permuteTable k)) in
    let space k := array_get fromSpacing (abs (entry permuteTable k)) in
    Some (Z.of_nat (length (imageIds resliced))) = size 2%nat ∧
    (∀ id, id ∈ imageIds resliced → is_Some (instances resliced !! id)) ∧
    (∀ id inst, instances resliced !! id = Some inst →
       x00280011 (metadata_of inst) = size 0%nat ∧
       x00280010 (metadata_of inst) = size 1%nat ∧
       x00280030 (metadata_of inst) = Some [space 1%nat; space 0%nat] ∧
       x00180050 (metadata_of inst) = Some (SpacingArray [space 2%nat])) ∧
    ∃ c' r' n',
      size 0%nat = Some c' ∧ size 1%nat = Some r' ∧ size 2%nat = Some n' ∧
      r' * c' * n' = r * c * Z.of_nat (length (imageIds seriesData)).
Proof.
  intros Hrun Hsample Hc Hr Hc0 Hr0. unfold getReslicedMetadata in Hrun.
  apply bind_Ok in Hrun as (t & Ht%defined_Ok & Hrun).
  apply bind_Ok in Hrun as (sample' & Hs%defined_Ok & Hrun).
  rewrite Hsample in Hs. injection Hs as <-.
  apply bind_Ok in Hrun as (fromSpacing & Hsp & Hrun).
  apply bind_Ok in Hrun as (reslicedIOP & _ & Hrun).
  apply bind_Ok in Hrun as ([ids insts] & Hloop & Hrun).
  injection Hrun as <-. cbn [imageIds instances].
  rewrite Hc, Hr in Hloop.
  unfold spacingArray in Hsp.
  apply bind_Ok in Hsp as (sliceSpacing & Hslice & Hsp).
  apply bind_Ok in Hsp as (pixelSpacing_ & Hps%defined_Ok & Hsp).
  injection Hsp as <-.
  pose proof (resliceTable_length _ _ _ Ht) as Hlen.
  set (fromSize := [Some c; Some r; Some (Z.of_nat (length (imageIds seriesData)))]) in *.
  set (fromSpacing := [mjoin (pixelSpacing_ !! 1%nat);
                       mjoin (pixelSpacing_ !! 0%nat); sliceSpacing]) in *.
  exists t, pixelSpacing_, sliceSpacing.
  split; [done |]. split; [done |]. split.
  { destruct (spacing_truthy (x00180050 (metadata_of sample)));
      [by injection Hslice | done]. }
  cbn zeta. fold fromSize fromSpacing.
  eapply (reslice_loop _ _ _ _ _ _ _ _ _
            (λ inst,
               x00280011 (metadata_of inst) = array_get fromSize (abs (entry t 0)) ∧
               x00280010 (metadata_of inst) = array_get fromSize (abs (entry t 1)) ∧
               x00280030 (metadata_of inst) =
                 Some [array_get fromSpacing (abs (entry t 1));
                       array_get fromSpacing (abs (entry t 0))] ∧
               x00180050 (metadata_of inst) =
                 Some (SpacingArray [array_get fromSpacing (abs (entry t 2))])))
    in Hloop as (Hcount & Hids & Hall).
  2:{ intros f ipp loc. cbn. rewrite !permuteValues_lookup by lia. done. }
  2:{ intros id. by rewrite elem_of_nil. }
  2:{ apply map_Forall_empty. }
  rewrite length_seq in Hcount. cbn in Hcount.
  unfold slice_count in Hcount.
  rewrite permuteValues_lookup in Hcount by lia.
  assert (Hsizes : ∃ c' r' n',
    array_get fromSize (abs (entry t 0)) = Some c' ∧
    array_get fromSize (abs (entry t 1)) = Some r' ∧
    array_get fromSize (abs (entry t 2)) = Some n' ∧ 0 ≤ n' ∧
    r' * c' * n' = r * c * Z.of_nat (length (imageIds seriesData))).
  { rewrite !(array_get_entry from to t _ _ Ht) by lia.
    destruct from, to; try discriminate Ht; cbn;
      do 3 eexists; (repeat split; try reflexivity); first [lia | ring]. }
  destruct Hsizes as (c' & r' & n' & H0 & H1 & H2 & Hn & Hprod).
  split; [| split; [done | split]].
  - rewrite H2 in Hcount |- *. rewrite Hcount. f_equal. lia.
  - intros id inst Hinst. exact (Hall id inst Hinst).
  - by exists c', r', n'.
Qed.

End ResliceFacts.

Lemma getReslicedMetadata_permutes_witness :
  ∃ resliced,
    getReslicedMetadata resliced_name uuid_name "resliced" axial sagittal
      spaced_series "reslice" = Ok resliced ∧
    length (imageIds resliced) = 3%nat ∧
    ∀ id inst, instances resliced !! id = Some inst →
      x00280011 (metadata_of inst) = Some 2 ∧
      x00280010 (metadata_of inst) = Some 4 ∧
      x00280030 (metadata_of inst)
        = Some [Some (Spacing (Some 2%Q)); Some (Spacing (Some (1 # 2)%Q))] ∧
      x00180050 (metadata_of inst)
        = Some (SpacingArray [Some (Spacing (Some (1 # 4)%Q))]).
Proof.
  destruct (getReslicedMetadata resliced_name uuid_name "resliced" axial sagittal
              spaced_series "reslice") as [resliced | e] eqn:Hrun;
    [| vm_compute in Hrun; discriminate Hrun].
  exists resliced. split; [reflexivity |].
  destruct (getReslicedMetadata_permutes resliced_name uuid_name "resliced"
              axial sagittal spaced_series "reslice" resliced
              (spaced_slice 0) 3 2 Hrun eq_refl eq_refl eq_refl
              ltac:(lia) ltac:(lia))
    as (t & ps & sp & Ht & Hps & Hsp & Hn & _ & Hall & _).
  injection Hps as <-. change (sp = Some (Spacing (Some 2%Q))) in Hsp. subst sp.
  split.
  - rewrite (array_get_entry axial sagittal t _ _ Ht) in Hn by lia.
    injection Hn as Hn. lia.
  - intros id inst Hinst. destruct (Hall id inst Hinst) as (H0 & H1 & H2 & H3).
    rewrite (array_get_entry axial sagittal t _ _ Ht) in H0 by lia.
    rewrite (array_get_entry axial sagittal t _ _ Ht) in H1 by lia.
    rewrite !(array_get_entry axial sagittal t _ _ Ht) in H2 by lia.
    rewrite (array_get_entry axial sagittal t _ _ Ht) in H3 by lia.
    split; [exact H0 | split; [exact H1 | split; [exact H2 | exact H3]]].
Defined.

(** *** The reslice of an axis-aligned series returns *)

Lemma is_Ok_inv {A} (r : result A) : is_Ok r → ∃ a, r = Ok a.
Proof. destruct r as [a | e]; [by exists a | done]. Qed.

(** The position of every output slice is computed: a direction is
    selected for each table and each axis-aligned source orientation. *)
Lemma getReslicedIPP_axis_aligned (iop : list Q) (from to : orientation)
    (t : list number) (ipp : list num) (f : Z) (fromSize toSize : list (option Z))
    (fromSpacing : list (option spacing)) :
  axis_aligned iop → resliceTable from to = Some t →
  ∃ reslicedIOP,
    getReslicedIOP (Some (numbers iop)) t = Ok (Some reslicedIOP) ∧
    is_Ok (getReslicedIPP (Some ipp) (Some (numbers iop)) (Some reslicedIOP) t f
             fromSize toSize fromSpacing).
Proof.
  intros Hiop Ht. unfold axis_aligned in Hiop.
  assert (Hall : Forall (λ iop,
            ∃ reslicedIOP,
              getReslicedIOP (Some (numbers iop)) t = Ok (Some reslicedIOP) ∧
              is_Ok (getReslicedIPP (Some ipp) (Some (numbers iop))
                       (Some reslicedIOP) t f fromSize toSize fromSpacing))
            axis_aligned_orientations).
  { destruct from, to; try discriminate Ht; injection Ht as <-;
      repeat constructor; (eexists; split; [vm_compute; reflexivity |]);
      vm_compute; exact I. }
  rewrite Forall_forall in Hall. by apply Hall.
Qed.

Lemma is_Ok_then {A B} (r : result A) (k : A → result B) :
  is_Ok r → (∀ a, is_Ok (k a)) → is_Ok (r ≫= k).
Proof. destruct r as [a | e]; [intros _ Hk; apply Hk | done]. Qed.

Lemma reslice_loop_returns (getCustomImageId : string → nat → string)
    (uuid_v4 : nat → string) (reslicedSeriesId imageLoaderName : string)
    (sampleMetadata : metadata) (permuteTable : list number)
    (fromSize toSize : list (option Z)) (fromSpacing toSpacing : list (option spacing))
    (reslicedIOP : list num) :
  (∀ f, is_Ok (getReslicedIPP (x00200032 sampleMetadata) (x00200037 sampleMetadata)
                 (Some reslicedIOP) permuteTable f fromSize toSize fromSpacing)) →
  ∀ (fs : list nat) acc,
    is_Ok (foldl (reslice_slice getCustomImageId uuid_v4 reslicedSeriesId
                    imageLoaderName sampleMetadata permuteTable fromSize toSize
                    fromSpacing toSpacing (Some reslicedIOP)) (Ok acc) fs).
Proof.
  intros Hipp fs. induction fs as [| f fs IH]; intros [ids insts]; [exact I |].
  cbn [foldl]. unfold reslice_slice at 2. cbn [mbind result_bind].
  destruct (is_Ok_inv _ (Hipp (Z.of_nat f))) as [ipp ->].
  cbn [mbind result_bind getReslicedSliceLocation defined].
  apply IH.
Qed.

(** [getReslicedMetadata] returns for every pair of distinct orientations
    on a series whose first slice carries an axis-aligned orientation, a
    position, an in-plane spacing and a slice thickness other than 0. *)
Lemma getReslicedMetadata_returns (getCustomImageId : string → nat → string)
    (uuid_v4 : nat → string) (reslicedSeriesId : string)
    (from to : orientation) (seriesData : series) (imageLoaderName : string)
    (sample : instance) (iop : list Q) (ipp : list num)
    (inPlane : list (option spacing)) (thickness : Q) :
  from ≠ to →
  instance_at seriesData 0 = Some sample →
  x00200037 (metadata_of sample) = Some (numbers iop) → axis_aligned iop →
  x00200032 (metadata_of sample) = Some ipp →
  x00280030 (metadata_of sample) = Some inPlane →
  x00180050 (metadata_of sample) = Some (Spacing (Some thickness)) →
  ¬ (thickness == 0)%Q →
  is_Ok (getReslicedMetadata getCustomImageId uuid_v4 reslicedSeriesId from to
           seriesData imageLoaderName).
Proof.
  intros Hne Hsample Hiop Haligned Hipp Hplane Hthick Hnz.
  destruct (resliceTable from to) as [t |] eqn:Ht; [| by destruct from, to].
  unfold getReslicedMetadata. rewrite Ht, Hsample. cbn [defined mbind result_bind].
  unfold spacingArray. rewrite Hthick, Hplane.
  assert (truthy thickness = true) as Htruthy.
  { unfold truthy. destruct (Qeq_bool thickness 0) eqn:E; [| done].
    by apply Qeq_bool_iff in E. }
  cbn [spacing_truthy]. rewrite Htruthy. cbn [defined mbind result_bind].
  rewrite Hiop.
  destruct (getReslicedIPP_axis_aligned iop from to t [] 0 [] [] [] Haligned Ht)
    as (reslicedIOP & HrIOP & _).
  rewrite HrIOP.
  cbn [mbind result_bind].
  apply is_Ok_then; [| by intros []].
  apply reslice_loop_returns.
  intros f. rewrite Hipp, Hiop.
  destruct (getReslicedIPP_axis_aligned iop from to t ipp f
              [x00280011 (metadata_of sample); x00280010 (metadata_of sample);
               Some (Z.of_nat (length (imageIds seriesData)))]
              (permuteValues (absTable t)
                 [x00280011 (metadata_of sample); x00280010 (metadata_of sample);
                  Some (Z.of_nat (length (imageIds seriesData)))])
              [mjoin (inPlane !! 1%nat); mjoin (inPlane !! 0%nat);
               Some (Spacing (Some thickness))] Haligned Ht)
    as (reslicedIOP' & Hsame & Hok).
  rewrite HrIOP in Hsame. by injection Hsame as <-.
Qed.

(** ** Distance between slices *)

Lemma has_numbers_3 (a : list num) :
  has_numbers 3 a → ∃ (x y z : Q) rest, a = Some x :: Some y :: Some z :: rest.
Proof.
  intros H.
  destruct (H 0%nat ltac:(lia)) as [x Hx].
  destruct (H 1%nat ltac:(lia)) as [y Hy].
  destruct (H 2%nat ltac:(lia)) as [z Hz].
  destruct a as [| ? [| ? [| ? rest]]]; try discriminate.
  cbn in Hx, Hy, Hz. simplify_eq. by exists x, y, z, rest.
Qed.

Lemma has_numbers_6 (a : list num) :
  has_numbers 6 a →
  ∃ (a0 a1 a2 a3 a4 a5 : Q) rest,
    a = Some a0 :: Some a1 :: Some a2 :: Some a3 :: Some a4 :: Some a5 :: rest.
Proof.
  intros H.
  destruct (H 0%nat ltac:(lia)) as [a0 H0].
  destruct (H 1%nat ltac:(lia)) as [a1 H1].
  destruct (H 2%nat ltac:(lia)) as [a2 H2].
  destruct (H 3%nat ltac:(lia)) as [a3 H3].
  destruct (H 4%nat ltac:(lia)) as [a4 H4].
  destruct (H 5%nat ltac:(lia)) as [a5 H5].
  destruct a as [| ? [| ? [| ? [| ? [| ? [| ? rest]]]]]]; try discriminate.
  cbn in H0, H1, H2, H3, H4, H5. simplify_eq.
  by exists a0, a1, a2, a3, a4, a5, rest.
Qed.

(** The projection of a position on the normal is a number when both are
    made of numbers. *)
Lemma dot3_number (o p : list num) :
  has_numbers 6 o → has_numbers 3 p →
  ∃ d : Q, dot3 (getNormalOrientation o) p = Some d.
Proof.
  intros (a0 & a1 & a2 & a3 & a4 & a5 & rest & ->)%has_numbers_6
         (x & y & z & rest' & ->)%has_numbers_3.
  cbn. eauto.
Qed.

(** C7, as amended: the distance of a slice to itself is [0] when the
    series has at most one slice, and when the slice carries an
    orientation of six numbers and a position of three; when the
    orientation or the position is absent from a slice of a longer series
    the result is [undefined]. *)
Theorem getDistanceBetweenSlices_same_slice (seriesData : series) (i : nat) :
  ((length (imageIds seriesData) ≤ 1)%nat →
   getDistanceBetweenSlices seriesData i i = Ok (Some (Some 0%Q))) ∧
  (∀ inst o p,
     (1 < length (imageIds seriesData))%nat →
     instance_at seriesData i = Some inst →
     orientation_of (metadata_of inst) = Some o → has_numbers 6 o →
     position_of (metadata_of inst) = Some p → has_numbers 3 p →
     ∃ d : Q, getDistanceBetweenSlices seriesData i i = Ok (Some (Some d)) ∧
              (d == 0)%Q) ∧
  (∀ inst,
     (1 < length (imageIds seriesData))%nat →
     instance_at seriesData i = Some inst →
     orientation_of (metadata_of inst) = None ∨
     position_of (metadata_of inst) = None →
     getDistanceBetweenSlices seriesData i i = Ok None).
Proof.
  unfold getDistanceBetweenSlices, orientation_of, position_of.
  split; [| split].
  - intros Hlen. apply Nat.leb_le in Hlen. by rewrite Hlen.
  - intros inst o p Hlen Hinst Ho Hon Hp Hpn.
    apply Nat.leb_gt in Hlen. rewrite Hlen, Hinst. cbn [defined mbind result_bind].
    rewrite Ho, Hp. cbn [defined mbind result_bind].
    destruct (dot3_number o p Hon Hpn) as [d ->].
    exists (Qabs (d - d)). split; [reflexivity |].
    assert (Hd : (d - d == 0)%Q) by ring. by rewrite Hd.
  - intros inst Hlen Hinst Habsent.
    apply Nat.leb_gt in Hlen. rewrite Hlen, Hinst. cbn [defined mbind result_bind].
    destruct Habsent as [-> | ->]; [done |].
    by destruct (alias_or_raw (imageOrientation _) _).
Qed.

Lemma getDistanceBetweenSlices_same_slice_witness :
  ∃ d : Q, getDistanceBetweenSlices (axial_series 2 2 3) 1 1 = Ok (Some (Some d)) ∧
           (d == 0)%Q.
Proof.
  refine (proj1 (proj2 (getDistanceBetweenSlices_same_slice (axial_series 2 2 3) 1))
            (axial_slice 2 2 1) (numbers [1; 0; 0; 0; 1; 0]%Q)
            (numbers [0; 0; inject_Z 2]%Q) _ _ _ _ _ _).
  - cbn. lia.
  - vm_compute. reflexivity.
  - reflexivity.
  - intros k Hk. do 6 (destruct k as [| k]; [cbn; eauto |]). lia.
  - reflexivity.
  - intros k Hk. do 3 (destruct k as [| k]; [cbn; eauto |]). lia.
Defined.

(** C7, as stated, fails on a series of two slices without orientation and
    position: the distance of the first slice to itself is [undefined]. *)
Lemma getDistanceBetweenSlices_undefined :
  instance_at bare_series 0 ≠ None ∧
  getDistanceBetweenSlices bare_series 0 0 = Ok None ∧
  getDistanceBetweenSlices bare_series 0 0 ≠ Ok (Some (Some 0%Q)).
Proof. vm_compute. repeat split; discriminate. Qed.

(** ** Pixel data of a resliced slice *)

Lemma typed_array_set_length (a : typed_array) (index : Z) (v : option Z) :
  length (elements (typed_array_set a index v)) = length (elements a).
Proof.
  unfold typed_array_set.
  destruct ((0 <=? index) && (index <? Z.of_nat (length (elements a))));
    cbn; [apply length_insert | reflexivity].
Qed.

Lemma reslice_pixel_Throw (originalData : series) (permuteTable : list number)
    (fromCols : option Z) (rows cols frame : Z) (e : string) (ji : Z * Z) :
  reslice_pixel originalData permuteTable fromCols rows cols frame (Throw e) ji
  = Throw e.
Proof. reflexivity. Qed.

(** The loops store into the array they were given and never resize it. *)
Lemma reslice_loop_length (originalData : series) (permuteTable : list number)
    (fromCols : option Z) (rows cols frame : Z) (order : list (Z * Z)) :
  ∀ a b,
    foldl (reslice_pixel originalData permuteTable fromCols rows cols frame)
      (Ok a) order = Ok b →
    buffer_length b = buffer_length a.
Proof.
  induction order as [| ji order IH]; intros a b Hrun; cbn [foldl] in Hrun.
  - by injection Hrun as <-.
  - destruct (reslice_pixel originalData permuteTable fromCols rows cols frame
                (Ok a) ji) as [a' | e] eqn:Hstep.
    2:{ rewrite foldl_Throw in Hrun by apply reslice_pixel_Throw. discriminate. }
    rewrite (IH _ _ Hrun). clear IH Hrun.
    unfold reslice_pixel in Hstep. cbn [mbind result_bind] in Hstep.
    destruct ji as [j i].
    apply bind_Ok in Hstep as (target & ->%defined_Ok & Hstep).
    apply bind_Ok in Hstep as (v & _ & Hstep).
    injection Hstep as <-. cbn. by rewrite typed_array_set_length.
Qed.

Lemma new_typed_array_length (t : array_type) (size : option Z) (a : typed_array) :
  new_typed_array t size = Ok a →
  Z.of_nat (length (elements a)) = default 0 size.
Proof.
  unfold new_typed_array. destruct size as [n |]; [| by intros [= <-]].
  destruct (n <? 0) eqn:Hn; [discriminate |]. intros [= <-]. cbn.
  apply Z.ltb_ge in Hn. rewrite length_replicate. lia.
Qed.

Lemma getTypedArray_length (tags : metadata) (size : option Z) (a : typed_array) :
  getTypedArray tags size = Ok (Some a) →
  Z.of_nat (length (elements a)) = default 0 size.
Proof.
  unfold getTypedArray. intros H.
  apply bind_Ok in H as (r & _ & H).
  repeat case_decide;
    try (destruct (new_typed_array _ size) as [a' |] eqn:Hnew; [| discriminate H];
         injection H as <-; by apply new_typed_array_length in Hnew).
  discriminate H.
Qed.

(** C3, as amended: the buffer returned for an output slice holds the
    pixels of that one slice; its length is [rows * cols] of the slice,
    whatever the orientation pair. *)
Theorem getReslicedPixeldata_length (imageId : string)
    (originalData reslicedData : series) (reslicedSlice : typed_array) :
  getReslicedPixeldata imageId originalData reslicedData = Ok (Some reslicedSlice) →
  ∃ inst,
    instances reslicedData !! imageId = Some inst ∧
    Z.of_nat (length (elements reslicedSlice)) =
      default 0 (size_mul (x00280010 (metadata_of inst)) (x00280011 (metadata_of inst))).
Proof.
  unfold getReslicedPixeldata. intros Hrun.
  apply bind_Ok in Hrun as (inst & Hinst%defined_Ok & Hrun).
  apply bind_Ok in Hrun as (t & _ & Hrun).
  apply bind_Ok in Hrun as (a & Ha & Hrun).
  apply bind_Ok in Hrun as (original & _ & Hrun).
  apply reslice_loop_length in Hrun.
  exists inst. split; [done |].
  destruct a as [a |]; [| discriminate Hrun].
  injection Hrun as ->. by apply getTypedArray_length in Ha.
Qed.

Lemma getReslicedPixeldata_length_witness :
  ∃ resliced reslicedSlice inst,
    sagittal_of 2 2 2 = Ok resliced ∧
    getReslicedPixeldata "reslice://0" (axial_series 2 2 2) resliced
      = Ok (Some reslicedSlice) ∧
    instances resliced !! "reslice://0" = Some inst ∧
    Z.of_nat (length (elements reslicedSlice)) =
      default 0 (size_mul (x00280010 (metadata_of inst)) (x00280011 (metadata_of inst))).
Proof.
  destruct (sagittal_of 2 2 2) as [resliced | e] eqn:Hr;
    [| vm_compute in Hr; discriminate Hr].
  destruct (getReslicedPixeldata "reslice://0" (axial_series 2 2 2) resliced)
    as [[reslicedSlice |] | e] eqn:Hrun.
  - destruct (getReslicedPixeldata_length _ _ _ _ Hrun) as (inst & Hinst & Hlen).
    by exists resliced, reslicedSlice, inst.
  - vm_compute in Hr. injection Hr as <-. vm_compute in Hrun. discriminate Hrun.
  - vm_compute in Hr. injection Hr as <-. vm_compute in Hrun. discriminate Hrun.
Defined.

(** C3, as stated, fails on the sagittal reslice of an axial series of two
    slices of 2 by 2 pixels: the target volume has 2 slices of 2 rows and 2
    columns, and the buffer of its first slice has 4 elements, not 8. *)
Lemma getReslicedPixeldata_one_slice :
  ∃ resliced reslicedSlice inst,
    sagittal_of 2 2 2 = Ok resliced ∧
    getReslicedPixeldata "reslice://0" (axial_series 2 2 2) resliced
      = Ok (Some reslicedSlice) ∧
    instances resliced !! "reslice://0" = Some inst ∧
    x00280010 (metadata_of inst) = Some 2 ∧
    x00280011 (metadata_of inst) = Some 2 ∧
    length (imageIds resliced) = 2%nat ∧
    length (elements reslicedSlice) = 4%nat ∧
    Z.of_nat (length (elements reslicedSlice))
      ≠ 2 * 2 * Z.of_nat (length (imageIds resliced)).
Proof.
  destruct (sagittal_of 2 2 2) as [resliced | e] eqn:Hr;
    vm_compute in Hr; [injection Hr as <- | discriminate Hr].
  do 3 eexists. split; [reflexivity |].
  split; [vm_compute; reflexivity |].
  split; [vm_compute; reflexivity |].
  vm_compute. repeat split; discriminate.
Qed.

(** With a negative row entry the pixels of output row [j] go to
    [rows * cols - j * cols + i]: row 0 lands past the end of the buffer,
    and no row reaches the elements below [cols]. *)
Lemma write_index_flipped (permuteTable : list number) (rows cols j i : Z) :
  isNegativeSign (entry permuteTable 1) = true →
  0 ≤ j < rows → 0 ≤ i < cols →
  cols ≤ write_index permuteTable rows cols j i ∧
  (j = 0 → rows * cols ≤ write_index permuteTable rows cols j i).
Proof.
  intros Hneg Hj Hi. unfold write_index. rewrite Hneg. split; [nia | intros ->; lia].
Qed.

(** C10: on the coronal reslice of an axial series of two slices of 2 rows
    and 3 columns the row entry of the table is negative; the pixels of
    output row 0 are stored at [rows * cols + i], outside the buffer of
    [rows * cols] elements, those of the last row at [cols + i], and the
    elements [0 .. cols - 1] of the returned buffer keep their initial 0
    although every source pixel is positive. *)
Theorem getReslicedPixeldata_first_row_unwritten :
  ∃ resliced inst permuteTable,
    coronal_of 2 3 2 = Ok resliced ∧
    instances resliced !! "reslice://0" = Some inst ∧
    x00280010 (metadata_of inst) = Some 2 ∧
    x00280011 (metadata_of inst) = Some 3 ∧
    permuteTable_of inst = Some permuteTable ∧
    isNegativeSign (entry permuteTable 1) = true ∧
    write_index permuteTable 2 3 0 <$> [0; 1; 2] = [6; 7; 8] ∧
    write_index permuteTable 2 3 1 <$> [0; 1; 2] = [3; 4; 5] ∧
    Forall (λ inst, ∃ pixels, pixelData inst = Some pixels ∧ Forall (Z.lt 0) pixels)
           (map_to_list (instances (axial_series 2 3 2))).*2 ∧
    getReslicedPixeldata "reslice://0" (axial_series 2 3 2) resliced
      = Ok (Some (TypedArray Uint16 [0; 0; 0; 2; 2; 2])).
Proof.
  destruct (coronal_of 2 3 2) as [resliced | e] eqn:Hr;
    vm_compute in Hr; [injection Hr as <- | discriminate Hr].
  do 3 eexists. split; [reflexivity |].
  split; [vm_compute; reflexivity |].
  split; [reflexivity |]. split; [reflexivity |]. split; [reflexivity |].
  split; [vm_compute; reflexivity |].
  split; [vm_compute; reflexivity |].
  split; [vm_compute; reflexivity |].
  split; [| vm_compute; reflexivity].
  vm_compute. repeat constructor; eexists; (split; [reflexivity |]); repeat constructor.
Qed.

(** ** Slice ordering *)

(** *** Decimal strings *)

Lemma digit_cases (d : Z) :
  0 ≤ d ≤ 9 →
  d = 0 ∨ d = 1 ∨ d = 2 ∨ d = 3 ∨ d = 4 ∨ d = 5 ∨ d = 6 ∨ d = 7 ∨ d = 8 ∨ d = 9.
Proof. lia. Qed.

Ltac digit_cases d H :=
  destruct (digit_cases d H) as [->|[->|[->|[->|[->|[->|[->|[->|[->| ->]]]]]]]]].

Lemma digit_value_digit_char (d : Z) :
  0 ≤ d ≤ 9 → digit_value 10 (digit_char d) = Some d.
Proof. intros H. digit_cases d H; reflexivity. Qed.

(** The digits are read up to a character that is no digit. *)
Lemma parse_digits_digits_string (ds : list Z) (rest : string) (acc : option Z) :
  Forall (λ d, 0 ≤ d ≤ 9) ds → ds ≠ [] →
  (∀ c r, rest = String c r → digit_value 10 c = None) →
  parse_digits 10 acc (digits_string ds +:+ rest)
  = Some (foldl (λ a d, a * 10 + d) (default 0 acc) ds).
Proof.
  intros Hds. revert acc. induction Hds as [|d ds Hd Hds IH]; intros acc Hne Hrest;
    [done|].
  change (digits_string (d :: ds) +:+ rest)
    with (String (digit_char d) (digits_string ds +:+ rest)).
  cbn [parse_digits]. rewrite digit_value_digit_char by done.
  destruct ds as [|d' ds]; [|by rewrite IH].
  change (digits_string [] +:+ rest) with rest. cbn [foldl].
  destruct rest as [|c r]; [done|]. cbn [parse_digits].
  by rewrite (Hrest c r eq_refl).
Qed.

Lemma parse_unsigned_digits (ds : list Z) (rest : string) :
  decimal_digits ds →
  (∀ c r, rest = String c r → digit_value 10 c = None ∧ c ≠ "x"%char ∧ c ≠ "X"%char) →
  parse_unsigned (digits_string ds +:+ rest) = Some (digits_value ds).
Proof.
  intros [Hne Hds] Hrest.
  transitivity (parse_digits 10 None (digits_string ds +:+ rest));
    [|apply parse_digits_digits_string; [done..|]; intros c r E; by apply (Hrest c r)].
  destruct Hds as [|d ds Hd Hds]; [done|].
  change (digits_string (d :: ds) +:+ rest)
    with (String (digit_char d) (digits_string ds +:+ rest)).
  destruct ds as [|d' ds].
  - change (digits_string [] +:+ rest) with rest.
    destruct rest as [|c r]; [digit_cases d Hd; reflexivity|].
    destruct (Hrest c r eq_refl) as (_ & Hx & HX).
    digit_cases d Hd; try reflexivity.
    unfold parse_unsigned. change (digit_char 0) with "0"%char.
    destruct c as [[] [] [] [] [] [] [] []]; try reflexivity; done.
  - apply Forall_cons in Hds as [Hd' _].
    change (digits_string (d' :: ds) +:+ rest)
      with (String (digit_char d') (digits_string ds +:+ rest)).
    digit_cases d Hd; try reflexivity.
    digit_cases d' Hd'; reflexivity.
Qed.

Lemma skip_spaces_spaces (k : nat) (s : string) :
  skip_spaces (spaces k +:+ s) = skip_spaces s.
Proof.
  induction k as [|k IH]; [done|].
  change (spaces (S k) +:+ s) with (String " " (spaces k +:+ s)).
  cbn [skip_spaces]. exact IH.
Qed.

Lemma spaces_stop (k : nat) (c : ascii) (r : string) :
  spaces k = String c r →
  digit_value 10 c = None ∧ c ≠ "x"%char ∧ c ≠ "X"%char.
Proof. destruct k as [|k]; [done|]. by intros [= <- _]. Qed.

(** [parseInt] reads the decimal string of an integer: the result is the
    double nearest to the integer. *)
Lemma parseInt_string_integer (k : nat) (sign : option bool) (ds : list Z) (k' : nat) :
  decimal_digits ds →
  parseInt_string (integer_string k sign ds k')
  = match sign with
    | Some true => neg (lit (digits_value ds))
    | _ => lit (digits_value ds)
    end.
Proof.
  intros Hds. unfold integer_string, parseInt_string.
  rewrite skip_spaces_spaces.
  pose proof (parse_unsigned_digits ds (spaces k') Hds (spaces_stop k')) as Hparse.
  destruct sign as [[]|].
  - change (sign_string (Some true) +:+ digits_string ds +:+ spaces k')
      with (String "-" (digits_string ds +:+ spaces k')).
    cbn [skip_spaces is_space]. change (is_space "-") with false. cbn match.
    by rewrite Hparse.
  - change (sign_string (Some false) +:+ digits_string ds +:+ spaces k')
      with (String "+" (digits_string ds +:+ spaces k')).
    cbn [skip_spaces is_space]. change (is_space "+") with false. cbn match.
    by rewrite Hparse.
  - change (sign_string None +:+ digits_string ds +:+ spaces k')
      with (digits_string ds +:+ spaces k').
    destruct Hds as [Hne Hds]. destruct Hds as [|d ds Hd Hds]; [done|].
    revert Hparse.
    change (digits_string (d :: ds) +:+ spaces k')
      with (String (digit_char d) (digits_string ds +:+ spaces k')).
    intros Hparse.
    digit_cases d Hd;
      (match goal with
       | |- context [digit_char ?d] =>
           let c := eval vm_compute in (digit_char d) in
           change (digit_char d) with c in *
       end);
      cbn [skip_spaces];
      (match goal with
       | |- context [is_space ?c] => change (is_space c) with false
       end); cbn match; by rewrite Hparse.
Qed.

Lemma digits_value_nonneg (ds : list Z) :
  Forall (λ d, 0 ≤ d ≤ 9) ds → 0 ≤ digits_value ds.
Proof.
  unfold digits_value. intros Hds.
  assert (∀ a, 0 ≤ a → 0 ≤ foldl (λ a d, a * 10 + d) a ds) as H; [|apply H; lia].
  induction Hds as [|d ds Hd Hds IH]; intros a Ha; [done|].
  cbn. apply IH. lia.
Qed.

(** The key of an instance number below [2 ^ 53] in magnitude is the
    number. *)
Lemma parseInt_key (v : tag_value) (n : Z) :
  holds_number v n → Z.abs n < 2 ^ 53 →
  ∃ q, key_of_number (parseInt (Some v)) = KeyNumber (Some q)
       ∧ (q == inject_Z n)%Q.
Proof.
  intros [->|(k & sign & ds & k' & Hds & -> & ->)] Hn; cbn [parseInt].
  - unfold parseInt_integer. rewrite to_Z_lit by done.
    replace (Z.abs n <? 10 ^ 21) with true by (symmetry; apply Z.ltb_lt; lia).
    by apply key_of_number_lit.
  - rewrite parseInt_string_integer by done.
    pose proof (digits_value_nonneg ds (proj2 Hds)) as Hpos.
    destruct sign as [[]|]; cbn [signed_value] in *.
    + apply key_of_number_neg_lit. lia.
    + by apply key_of_number_lit.
    + by apply key_of_number_lit.
Qed.

(** *** The stable sort *)

Section StableSort.

Context {A : Type}.

Lemma insert_sorted_perm (x : sort_key * A) (l : list (sort_key * A)) :
  insert_sorted x l ≡ₚ x :: l.
Proof.
  induction l as [| y l IH]; cbn; [done |].
  destruct (compareAscending x.1 y.1); try done;
    rewrite IH; apply perm_swap.
Qed.

Lemma stable_sort_snoc (l : list (sort_key * A)) (x : sort_key * A) :
  stable_sort (l ++ [x]) = insert_sorted x (stable_sort l).
Proof. unfold stable_sort. by rewrite foldl_app. Qed.

Lemma stable_sort_perm (l : list (sort_key * A)) : stable_sort l ≡ₚ l.
Proof.
  induction l as [| x l IH] using rev_ind; [done |].
  rewrite stable_sort_snoc, insert_sorted_perm, IH.
  by rewrite Permutation_app_comm.
Qed.

(** Keys that are [undefined] throughout leave the order as it is. *)
Lemma stable_sort_undefined (l : list (sort_key * A)) :
  Forall (λ p, p.1 = KeyUndefined) l → stable_sort l = l.
Proof.
  induction l as [| x l IH] using rev_ind; [done |].
  intros [Hl Hx]%Forall_app. apply Forall_cons in Hx as [Hx _].
  rewrite stable_sort_snoc, IH by done. clear IH.
  induction Hl as [| y l Hy Hl IH]; [done |].
  cbn [app insert_sorted]. rewrite Hx, Hy. cbn. by rewrite IH.
Qed.

Context (g : A → Q).

(** The elements whose key is the number [g] gives. *)
Let keyed (p : sort_key * A) : Prop :=
  ∃ q, p.1 = KeyNumber (Some q) ∧ (q == g p.2)%Q.

Lemma insert_sorted_Qle (x : sort_key * A) (l : list (sort_key * A)) :
  keyed x → Forall keyed l →
  Sorted Qle (g <$> l.*2) → Sorted Qle (g <$> (insert_sorted x l).*2).
Proof.
  intros (qx & Hx & Hqx) Hl Hs. induction l as [| y l IH]; cbn.
  - repeat constructor.
  - inversion Hl as [| ? ? (qy & Hy & Hqy) Hl']; subst.
    rewrite Hx, Hy. cbn [compareAscending].
    cbn in Hs. inversion Hs as [| ? ? Hs' Hhd]; subst.
    destruct (Qcompare_spec qx qy) as [Hcmp | Hcmp | Hcmp]; cbn.
    + constructor; [by apply IH |].
      destruct l as [| z l]; cbn.
      * constructor. rewrite <- Hqx, <- Hqy, Hcmp. apply Qle_refl.
      * inversion Hl' as [| ? ? (qz & Hz & Hqz) _]; subst.
        rewrite Hx, Hz. cbn [compareAscending].
        destruct (Qcompare_spec qx qz); cbn; constructor;
          first [by inversion Hhd
                | rewrite <- Hqx, <- Hqy, Hcmp; apply Qle_refl].
    + constructor; [done |]. constructor.
      rewrite <- Hqx, <- Hqy. by apply Qlt_le_weak.
    + constructor; [by apply IH |].
      destruct l as [| z l]; cbn.
      * constructor. rewrite <- Hqx, <- Hqy. by apply Qlt_le_weak.
      * inversion Hl' as [| ? ? (qz & Hz & Hqz) _]; subst.
        rewrite Hx, Hz. cbn [compareAscending].
        destruct (Qcompare_spec qx qz); cbn; constructor;
          first [by inversion Hhd
                | rewrite <- Hqx, <- Hqy; by apply Qlt_le_weak].
Qed.

Lemma stable_sort_Qle (l : list (sort_key * A)) :
  Forall keyed l → Sorted Qle (g <$> (stable_sort l).*2).
Proof.
  induction l as [| x l IH] using rev_ind; [constructor |].
  intros [Hl Hx]%Forall_app. apply Forall_cons in Hx as [Hx _].
  rewrite stable_sort_snoc. apply insert_sorted_Qle; [done | | by apply IH].
  apply Forall_forall. intros p Hp. rewrite stable_sort_perm in Hp.
  by eapply Forall_forall in Hl.
Qed.

End StableSort.

(** An ascending list without repetition is strictly ascending. *)
Lemma Sorted_le_NoDup_lt (l : list Z) : Sorted Z.le l → NoDup l → Sorted Z.lt l.
Proof.
  intros Hs Hnd. apply Sorted_StronglySorted in Hs; [| intros ???; lia].
  apply StronglySorted_Sorted.
  induction Hs as [| x l Hs IH Hall]; [constructor |].
  apply NoDup_cons in Hnd as [Hx Hnd].
  constructor; [by apply IH |].
  rewrite Forall_forall in Hall |- *. intros y Hy.
  assert (x ≠ y) by (intros ->; by apply Hx, list_elem_of_In).
  specialize (Hall y Hy). lia.
Qed.


(** A list ascending in the rationals of integers is ascending. *)
Lemma Sorted_Qle_Z (qs : list Q) (ns : list Z) :
  Forall2 (λ q n, (q == inject_Z n)%Q) qs ns → Sorted Qle qs → Sorted Z.le ns.
Proof.
  induction 1 as [| q n qs ns Hq Hqs IH]; intros Hs; [constructor |].
  inversion Hs as [| ? ? Hs' Hhd]; subst. constructor; [by apply IH |].
  destruct Hqs as [| q' n' qs ns Hq' _]; constructor.
  inversion Hhd as [| ? ? Hle]; subst.
  rewrite Hq, Hq' in Hle. by rewrite Zle_Qle.
Qed.

Lemma Forall_exists_Forall2 {A B} (P : A → B → Prop) (l : list A) :
  Forall (λ x, ∃ y, P x y) l → ∃ k, Forall2 P l k.
Proof.
  induction 1 as [| x l [y Hy] _ [k IH]]; [by exists [] |].
  exists (y :: k). by constructor.
Qed.

(** [sortBy] when the iteratee returns a key for every element. *)
Lemma sortBy_keys {A} (collection : list A) (iteratee : A → result sort_key)
    (key : A → sort_key) :
  (∀ x, x ∈ collection → iteratee x = Ok (key x)) →
  sortBy collection iteratee
  = Ok (stable_sort ((λ x, (key x, x)) <$> collection)).*2.
Proof.
  intros Hkey. unfold sortBy.
  assert (foldr (λ x acc, k ← iteratee x; rest ← acc; Ok ((k, x) :: rest))
            (Ok []) collection = Ok ((λ x, (key x, x)) <$> collection)) as ->;
    [| reflexivity].
  induction collection as [| x l IH]; [reflexivity |]. cbn [foldr fmap list_fmap].
  rewrite Hkey by left. rewrite IH; [reflexivity |].
  intros y Hy. apply Hkey. by right.
Qed.

(** [sortBy] when the iteratee throws on the first element. *)
Lemma sortBy_Throw {A} (x : A) (collection : list A)
    (iteratee : A → result sort_key) (e : string) :
  iteratee x = Throw e → sortBy (x :: collection) iteratee = Throw e.
Proof. intros H. unfold sortBy. cbn [foldr]. by rewrite H. Qed.

Lemma contentTime_not_gated (seriesData : series) (imageId : string) (inst : instance) :
  instances seriesData !! imageId = Some inst → lacks_gating (metadata_of inst) →
  sortStackCallback seriesData imageId "contentTime" = Throw NotATimeSeries.
Proof.
  intros Hinst Hgate. unfold sortStackCallback, lacks_gating in *.
  rewrite decide_False, decide_True, Hinst by done. cbn.
  destruct (x00181090 (metadata_of inst)) as [n |]; [| done].
  destruct (x00080033 (metadata_of inst)); [| done].
  replace (1 <? n) with false by (symmetry; apply Z.ltb_ge; lia).
  by rewrite andb_false_r.
Qed.


Lemma instanceNumber_key (seriesData : series) (imageId : string) (n : Z) :
  numbered seriesData imageId n → Z.abs n < 2 ^ 53 →
  ∃ q, sortStackCallback seriesData imageId "instanceNumber"
       = Ok (KeyNumber (Some q)) ∧ (q == inject_Z n)%Q.
Proof.
  intros (inst & v & Hinst & Hv & Hholds) Hn. unfold sortStackCallback.
  rewrite decide_True, Hinst by done. cbn [defined mbind result_bind].
  rewrite Hv. destruct (parseInt_key v n Hholds Hn) as (q & -> & Hq).
  by exists q.
Qed.

(** C8: on a series whose slices lack cardiac gating and hold an instance
    number below [2 ^ 53] in magnitude, as a number or as a decimal string,
    the content-time method throws and is discarded, and the identifiers
    come back in ascending order of their instance numbers, strictly
    ascending when the numbers are distinct. *)
Theorem getSortedStack_instance_order (seriesData : series)
    (returnSuccessMethod : bool) :
  (∀ imageId, imageId ∈ imageIds seriesData →
     ∃ inst n, instances seriesData !! imageId = Some inst ∧
               lacks_gating (metadata_of inst) ∧
               numbered seriesData imageId n ∧ Z.abs n < 2 ^ 53) →
  ∃ sorted numbers,
    getSortedStack seriesData ["contentTime"; "instanceNumber"] returnSuccessMethod
      = Some sorted ∧
    (imageIds seriesData ≠ [] →
       sortBy (imageIds seriesData)
         (λ imageId, sortStackCallback seriesData imageId "contentTime")
       = Throw NotATimeSeries) ∧
    sorted ≡ₚ imageIds seriesData ∧
    Forall2 (numbered seriesData) sorted numbers ∧
    Sorted Z.le numbers ∧
    (NoDup numbers → Sorted Z.lt numbers).
Proof.
  intros Hall.
  set (key := λ imageId,
         match sortStackCallback seriesData imageId "instanceNumber" with
         | Ok k => k
         | Throw _ => KeyUndefined
         end).
  set (g := λ imageId,
         match key imageId with
         | KeyNumber (Some q) => q
         | _ => 0%Q
         end).
  assert (Hnum : ∀ imageId, imageId ∈ imageIds seriesData →
            ∃ n, (numbered seriesData imageId n
                  ∧ sortStackCallback seriesData imageId "instanceNumber"
                    = Ok (key imageId)
                  ∧ key imageId = KeyNumber (Some (g imageId)))
                 ∧ (g imageId == inject_Z n)%Q).
  { intros id (inst & n & _ & _ & Hn & Hbound)%Hall.
    destruct (instanceNumber_key _ _ _ Hn Hbound) as (q & Hq & Hqn).
    exists n. unfold g, key. rewrite Hq. done. }
  set (keyed := (λ x, (key x, x)) <$> imageIds seriesData).
  assert (Hperm : (stable_sort keyed).*2 ≡ₚ imageIds seriesData).
  { rewrite stable_sort_perm. unfold keyed.
    rewrite <- list_fmap_compose. by rewrite list_fmap_id. }
  assert (Hsorted : Sorted Qle (g <$> (stable_sort keyed).*2)).
  { apply stable_sort_Qle. unfold keyed. apply Forall_fmap, Forall_forall.
    intros id Hid. destruct (Hnum id Hid) as (n & (_ & _ & Hk) & _).
    exists (g id). by split. }
  assert (Hsort : sortBy (imageIds seriesData)
            (λ imageId, sortStackCallback seriesData imageId "instanceNumber")
          = Ok (stable_sort keyed).*2).
  { apply sortBy_keys. intros id Hid.
    by destruct (Hnum id Hid) as (n & (_ & Hk & _) & _). }
  assert (Hthrow : imageIds seriesData ≠ [] →
            sortBy (imageIds seriesData)
              (λ imageId, sortStackCallback seriesData imageId "contentTime")
            = Throw NotATimeSeries).
  { destruct (imageIds seriesData) as [| id ids] eqn:Hids; [done |]. intros _.
    apply sortBy_Throw.
    destruct (Hall id ltac:(left)) as (inst & n & Hinst & Hgate & _).
    by eapply contentTime_not_gated. }
  destruct (Forall_exists_Forall2
              (λ id n, numbered seriesData id n ∧ (g id == inject_Z n)%Q)
              (stable_sort keyed).*2) as [numbers Hnumbers].
  { apply Forall_forall. intros id Hid. rewrite Hperm in Hid.
    destruct (Hnum id Hid) as (n & (Hn & _) & Hq). by exists n. }
  assert (Hle : Sorted Z.le numbers).
  { apply (Sorted_Qle_Z (g <$> (stable_sort keyed).*2)); [| done].
    apply Forall2_fmap_l. eapply Forall2_impl; [exact Hnumbers |].
    by intros id n [_ Hq]. }
  exists (stable_sort keyed).*2, numbers.
  split; [| split; [done | split; [done | split; [| split; [done |]]]]].
  - unfold getSortedStack. cbn [tryToSort].
    destruct (imageIds seriesData) as [| id ids] eqn:Hids.
    + reflexivity.
    + rewrite Hthrow by done. by rewrite Hsort.
  - eapply Forall2_impl; [exact Hnumbers |]. by intros id n [Hn _].
  - intros Hnd. by apply Sorted_le_NoDup_lt.
Qed.

Lemma getSortedStack_instance_order_witness :
  ∃ sorted numbers,
    getSortedStack shuffled_series ["contentTime"; "instanceNumber"] false
      = Some sorted ∧
    sorted = ["b"; "c"; "a"] ∧
    sorted ≡ₚ imageIds shuffled_series ∧
    Forall2 (numbered shuffled_series) sorted numbers ∧
    Sorted Z.le numbers ∧
    (NoDup numbers → Sorted Z.lt numbers).
Proof.
  destruct (getSortedStack_instance_order shuffled_series false)
    as (sorted & numbers & Hrun & _ & Hperm & Hnum & Hle & Hlt).
  - intros imageId Hin. cbn in Hin.
    repeat (apply elem_of_cons in Hin as [-> | Hin]);
      [| | | by apply elem_of_nil in Hin].
    + exists (numbered_slice "3"), 3.
      split; [vm_compute; reflexivity |]. split; [exact I |]. split; [| lia].
      exists (numbered_slice "3"), (TagString "3").
      split; [vm_compute; reflexivity |]. split; [reflexivity |].
      right. exists 0%nat, None, [3], 0%nat.
      split; [split; [done | repeat constructor; lia] |]. by split.
    + exists (numbered_slice " 1"), 1.
      split; [vm_compute; reflexivity |]. split; [exact I |]. split; [| lia].
      exists (numbered_slice " 1"), (TagString " 1").
      split; [vm_compute; reflexivity |]. split; [reflexivity |].
      right. exists 1%nat, None, [1], 0%nat.
      split; [split; [done | repeat constructor; lia] |]. by split.
    + exists (numbered_slice "2"), 2.
      split; [vm_compute; reflexivity |]. split; [exact I |]. split; [| lia].
      exists (numbered_slice "2"), (TagString "2").
      split; [vm_compute; reflexivity |]. split; [reflexivity |].
      right. exists 0%nat, None, [2], 0%nat.
      split; [split; [done | repeat constructor; lia] |]. by split.
  - exists sorted, numbers. split; [exact Hrun |].
    split; [| by repeat split].
    vm_compute in Hrun. by injection Hrun as <-.
Defined.

(** The three slices come back as [b], [c], [a]. *)
Example getSortedStack_shuffled :
  getSortedStack shuffled_series ["contentTime"; "instanceNumber"] false
  = Some ["b"; "c"; "a"].
Proof. vm_compute. reflexivity. Qed.

(** Without a usable method the result is [undefined]. *)
Example getSortedStack_no_method :
  getSortedStack shuffled_series ["contentTime"] false = None.
Proof. vm_compute. reflexivity. Qed.

(** Instance numbers beyond [2 ^ 53] that read as the same double are
    equal keys: the slices stay in the order of the input, which is not
    that of the numbers. *)
Example getSortedStack_beyond_double :
  getSortedStack wide_series ["contentTime"; "instanceNumber"] false
  = Some ["a"; "b"].
Proof. vm_compute. reflexivity. Qed.

(** Slices whose instance number is no number come after the numbered
    ones, in the order of the input. *)
Example getSortedStack_unnumbered :
  getSortedStack unnumbered_series ["contentTime"; "instanceNumber"] false
  = Some ["d"; "b"; "a"; "c"].
Proof. vm_compute. reflexivity. Qed.

(** ** Mean values and the volume header *)

(** Writing the components of [t] one after the other, starting after the
    [length pre] components already written. *)
Lemma foldl_accumulate (t : list num) : ∀ tpre pre m,
  length pre = length tpre →
  foldl (accumulate (tpre ++ t)) (pre ++ m) (seq (length pre) (length t))
  = pre ++ merge_sum m t.
Proof.
  induction t as [| b t IH]; intros tpre pre m Hlen.
  - by destruct m.
  - cbn [length seq foldl].
    assert (Hstep : accumulate (tpre ++ b :: t) (pre ++ m) (length pre)
                    = (pre ++ [match m with
                               | a :: _ => if ntruthy a then nadd a b else b
                               | [] => b
                               end]) ++ tail m).
    { unfold accumulate.
      rewrite (lookup_app_r tpre) by lia.
      rewrite Hlen, Nat.sub_diag. cbn [lookup list_lookup mjoin option_join].
      rewrite <- Hlen.
      rewrite (lookup_app_r pre) by lia. rewrite Nat.sub_diag.
      destruct m as [| a m]; cbn [lookup list_lookup tail].
      - by rewrite !app_nil_r.
      - rewrite insert_app_r_alt by lia. rewrite Nat.sub_diag. cbn.
        by rewrite <- app_assoc. }
    rewrite Hstep.
    replace (tpre ++ b :: t) with ((tpre ++ [b]) ++ t) by (by rewrite <- app_assoc).
    replace (S (length pre)) with (length (pre ++ [match m with
                               | a :: _ => if ntruthy a then nadd a b else b
                               | [] => b
                               end])) by (rewrite length_app; cbn; lia).
    rewrite IH by (rewrite !length_app; cbn; lia).
    rewrite <- app_assoc. by destruct m.
Qed.

Lemma accumulate_all (t m : list num) :
  foldl (accumulate t) m (seq 0 (length t)) = merge_sum m t.
Proof. exact (foldl_accumulate t [] [] m eq_refl). Qed.

Lemma merge_sum_numbers (qs v : list Q) :
  length qs = length v →
  merge_sum (numbers qs) (numbers v) = numbers (merge_Q qs v).
Proof.
  revert v. induction qs as [| q qs IH]; intros [| x v] Hlen;
    try discriminate Hlen; [reflexivity |].
  unfold numbers in *. cbn. f_equal.
  - unfold truthy. by destruct (Qeq_bool q 0).
  - apply IH. cbn in Hlen. lia.
Qed.

Lemma merge_Q_length (qs v : list Q) :
  length qs = length v → length (merge_Q qs v) = length qs.
Proof. intros H. unfold merge_Q. rewrite length_zip_with. lia. Qed.

Lemma merge_Q_lookup (qs v : list Q) (k : nat) :
  length qs = length v →
  (default 0 (merge_Q qs v !! k) == default 0 (qs !! k) + default 0 (v !! k))%Q.
Proof.
  intros Hlen. unfold merge_Q. rewrite lookup_zip_with.
  destruct (qs !! k) as [q |] eqn:Hq; cbn.
  - destruct (lookup_lt_is_Some_2 v k) as [x Hx].
    { rewrite <- Hlen. by eapply lookup_lt_Some. }
    rewrite Hx. cbn. unfold truthy.
    destruct (Qeq_bool q 0) eqn:Hz; cbn; [| reflexivity].
    apply Qeq_bool_iff in Hz. rewrite Hz. ring.
  - rewrite (lookup_ge_None_2 v k); [cbn; ring |].
    rewrite <- Hlen. by apply lookup_ge_None.
Qed.

(** The running sums after a list of vectors of the same length. *)
Lemma sum_loop (n : nat) (vs : list (list Q)) : ∀ qs,
  length qs = n → Forall (λ v, length v = n) vs →
  ∃ qs',
    foldl (λ m v, merge_sum m (numbers v)) (numbers qs) vs = numbers qs' ∧
    length qs' = n ∧
    ∀ k, (default 0 (qs' !! k)
          == default 0 (qs !! k) + foldr Qplus 0 (component k vs))%Q.
Proof.
  induction vs as [| v vs IH]; intros qs Hqs Hvs.
  - exists qs. split; [done |]. split; [done |]. intros k.
    unfold component. cbn [fmap list_fmap foldr]. ring.
  - apply Forall_cons in Hvs as [Hv Hvs]. cbn [foldl].
    rewrite merge_sum_numbers by lia.
    destruct (IH (merge_Q qs v)) as (qs' & Hrun & Hlen & Hsum);
      [rewrite merge_Q_length; lia | done |].
    exists qs'. split; [done |]. split; [done |]. intros k.
    rewrite Hsum, merge_Q_lookup by lia.
    unfold component. cbn [fmap list_fmap foldr]. ring.
Qed.

Section MeanValue.

Variable seriesData : series.
Variable tag : string.

Lemma add_tag_value_Throw (e : string) (imageId : string) :
  add_tag_value seriesData tag (Throw e) imageId = Throw e.
Proof. reflexivity. Qed.

(** The loop over slices whose attribute is a vector of a summed length. *)
Lemma mean_loop_array (f : metadata → option (list Q)) (n : nat) :
  (∀ m, attribute_of m tag = (λ a, AttrArray (numbers a)) <$> f m) →
  summed_length n = true →
  ∀ ids m,
    (∀ imageId, imageId ∈ ids → ∃ inst v, instances seriesData !! imageId = Some inst ∧
                                 f (metadata_of inst) = Some v ∧ length v = n) →
    length (metadata_at seriesData ids) = length ids ∧
    Forall (λ v, length v = n)
      ((λ m, default [] (f m)) <$> metadata_at seriesData ids) ∧
    foldl (add_tag_value seriesData tag) (Ok (MeanArray m)) ids
    = Ok (MeanArray (foldl (λ m v, merge_sum m (numbers v)) m
                       ((λ m, default [] (f m)) <$> metadata_at seriesData ids))).
Proof.
  intros Hattr Hn ids. induction ids as [| imageId ids IH]; intros m Hids.
  - repeat split. constructor.
  - destruct (Hids imageId ltac:(left)) as (inst & v & Hinst & Hv & Hlen).
    destruct (IH (merge_sum m (numbers v))) as (IHl & IHf & IHr).
    { intros other Hother. apply Hids. by right. }
    unfold metadata_at in *. cbn [omap list_omap foldl].
    rewrite Hinst. cbn [fmap option_fmap option_map list_fmap foldl length].
    rewrite Hv. cbn [default from_option]. change (id v) with v.
    split; [by rewrite IHl |]. split; [by constructor |].
    rewrite <- IHr. f_equal.
    unfold add_tag_value. cbn [mbind result_bind].
    rewrite Hinst. cbn [defined mbind result_bind]. rewrite Hattr, Hv. cbn.
    rewrite accumulate_all.
    assert (length (numbers v) = n) as -> by (unfold numbers; by rewrite length_fmap).
    by rewrite Hn.
Qed.

(** The loop over slices whose attribute is a number. *)
Lemma mean_loop_number (f : metadata → option Q) :
  (∀ m, attribute_of m tag = (λ q, AttrNumber (Some q)) <$> f m) →
  ∀ ids q0,
    (∀ imageId, imageId ∈ ids → ∃ inst x, instances seriesData !! imageId = Some inst ∧
                                 f (metadata_of inst) = Some x) →
    length (metadata_at seriesData ids) = length ids ∧
    ∃ q, foldl (add_tag_value seriesData tag) (Ok (MeanNumber (Some q0))) ids
         = Ok (MeanNumber (Some q)) ∧
         (q == q0 + foldr Qplus 0
                      ((λ m, default 0 (f m)) <$> metadata_at seriesData ids))%Q.
Proof.
  intros Hattr ids. induction ids as [| imageId ids IH]; intros q0 Hids.
  - split; [done |]. exists q0. split; [done |].
    unfold metadata_at. cbn [omap list_omap fmap list_fmap foldr]. ring.
  - destruct (Hids imageId ltac:(left)) as (inst & x & Hinst & Hx).
    destruct (IH (q0 + x)%Q) as (IHl & q & IHr & IHq).
    { intros other Hother. apply Hids. by right. }
    unfold metadata_at in *. cbn [omap list_omap foldl].
    rewrite Hinst. cbn [fmap option_fmap option_map list_fmap foldr length].
    rewrite Hx. cbn [default from_option]. change (id x) with x.
    split; [by rewrite IHl |]. exists q. split.
    + rewrite <- IHr. f_equal.
      unfold add_tag_value. cbn [mbind result_bind].
      rewrite Hinst. cbn [defined mbind result_bind]. by rewrite Hattr, Hx.
    + rewrite IHq. ring.
Qed.

End MeanValue.

Lemma ndiv_number (q : Q) (n : nat) :
  n ≠ 0%nat → ndiv (Some q) n = Some (q / inject_Z (Z.of_nat n))%Q.
Proof. intros Hn. unfold ndiv. by rewrite decide_False. Qed.

Lemma component_length (k : nat) (vs : list (list Q)) :
  length (component k vs) = length vs.
Proof. unfold component. by rewrite length_fmap. Qed.

(** The array mean of [getMeanValue] is the componentwise mean. *)
Lemma getMeanValue_array (seriesData : series) (tag : string)
    (f : metadata → option (list Q)) (n : nat) :
  (∀ m, attribute_of m tag = (λ a, AttrArray (numbers a)) <$> f m) →
  summed_length n = true →
  imageIds seriesData ≠ [] →
  (∀ imageId, imageId ∈ imageIds seriesData →
     ∃ inst v, instances seriesData !! imageId = Some inst ∧
               f (metadata_of inst) = Some v ∧ length v = n) →
  ∃ mv, getMeanValue seriesData tag true = Ok mv ∧
        is_mean_array n ((λ m, default [] (f m)) <$> slices_of seriesData) mv.
Proof.
  intros Hattr Hn Hne Hids. unfold getMeanValue, slices_of.
  destruct (mean_loop_array seriesData tag f n Hattr Hn (imageIds seriesData) [] Hids)
    as (Hlen & Hvs & ->).
  set (vs := (λ m, default [] (f m)) <$> metadata_at seriesData (imageIds seriesData)) in *.
  assert (Hcount : length vs = length (imageIds seriesData)).
  { unfold vs. by rewrite length_fmap. }
  destruct vs as [| v vs'] eqn:Evs.
  { destruct (imageIds seriesData); [done | discriminate Hcount]. }
  apply Forall_cons in Hvs as [Hv Hvs'].
  cbn [foldl merge_sum].
  destruct (sum_loop n vs' v Hv Hvs') as (qs & -> & Hqs & Hsum).
  cbn [mbind result_bind].
  eexists. split; [reflexivity |].
  eexists. split; [reflexivity |].
  split; [unfold numbers; by rewrite !length_fmap |].
  intros k Hk.
  destruct (lookup_lt_is_Some_2 qs k ltac:(lia)) as [q Hq].
  destruct (lookup_lt_is_Some_2 v k ltac:(lia)) as [x Hx].
  exists (q / inject_Z (Z.of_nat (length (imageIds seriesData))))%Q. split.
  - unfold numbers. rewrite !list_lookup_fmap, Hq. cbn.
    rewrite ndiv_number; [done |]. by destruct (imageIds seriesData).
  - unfold mean_of. rewrite component_length, Hcount.
    specialize (Hsum k). rewrite Hq, Hx in Hsum. cbn [default from_option] in Hsum.
    change (id q) with q in Hsum. change (id x) with x in Hsum.
    unfold component at 1. cbn [fmap list_fmap foldr]. rewrite Hx.
    cbn [default from_option]. change (id x) with x.
    by rewrite Hsum.
Qed.

(** The scalar mean of [getMeanValue] is the mean. *)
Lemma getMeanValue_number (seriesData : series) (tag : string)
    (f : metadata → option Q) :
  (∀ m, attribute_of m tag = (λ q, AttrNumber (Some q)) <$> f m) →
  imageIds seriesData ≠ [] →
  (∀ imageId, imageId ∈ imageIds seriesData →
     ∃ inst x, instances seriesData !! imageId = Some inst ∧
               f (metadata_of inst) = Some x) →
  ∃ mv, getMeanValue seriesData tag false = Ok mv ∧
        is_mean_number ((λ m, default 0%Q (f m)) <$> slices_of seriesData) mv.
Proof.
  intros Hattr Hne Hids. unfold getMeanValue, slices_of.
  destruct (mean_loop_number seriesData tag f Hattr (imageIds seriesData) 0%Q Hids)
    as (Hlen & q & -> & Hq).
  cbn [mbind result_bind].
  eexists. split; [reflexivity |].
  rewrite ndiv_number by (by destruct (imageIds seriesData)).
  eexists. split; [reflexivity |].
  unfold mean_of. rewrite length_fmap, Hlen, Hq. by rewrite Qplus_0_l.
Qed.

(** The entry of the volume survives the entries of the slices when no
    slice is named ["volume"]. *)
Lemma add_slice_entries (seriesData : series) (v : header_entry) : ∀ ids header,
  "volume" ∉ ids →
  (∀ imageId, imageId ∈ ids → is_Some (instances seriesData !! imageId)) →
  header !! "volume" = Some v →
  ∃ header', foldl (add_slice_entry seriesData) (Ok header) ids = Ok header' ∧
             header' !! "volume" = Some v.
Proof.
  induction ids as [| imageId ids IH]; intros header Hvol Hids Hv.
  - by exists header.
  - apply not_elem_of_cons in Hvol as [Hne Hvol].
    destruct (Hids imageId ltac:(left)) as [inst Hinst].
    cbn [foldl]. unfold add_slice_entry at 2. cbn [mbind result_bind].
    rewrite Hinst. cbn [defined].
    apply IH; [done | |].
    + intros other Hother. apply Hids. by right.
    + by rewrite lookup_insert_ne.
Qed.

(** C4: on a non-empty series whose slices carry orientation, spacing and
    pixel extrema (and none of which is named ["volume"], the key of the
    aggregate entry), the header's orientation, spacing, largest and
    smallest pixel value are the componentwise arithmetic means of the
    slices' values, and its slice thickness is the distance computed
    between slice 0 and slice 1. *)
Theorem buildHeader_aggregates (seriesData : series) (thickness : option num) :
  imageIds seriesData ≠ [] →
  "volume" ∉ imageIds seriesData →
  header_ready seriesData →
  getDistanceBetweenSlices seriesData 0 1 = Ok thickness →
  ∃ header v,
    buildHeader seriesData = Ok header ∧
    header !! "volume" = Some (HeaderVolume v) ∧
    is_mean_array 6
      ((λ m, default [] (imageOrientation m)) <$> slices_of seriesData)
      (volume_imageOrientation v) ∧
    is_mean_array 2
      ((λ m, default [] (pixelSpacing m)) <$> slices_of seriesData)
      (volume_pixelSpacing v) ∧
    is_mean_number
      ((λ m, default 0%Q (maxPixelValue m)) <$> slices_of seriesData)
      (volume_maxPixelValue v) ∧
    is_mean_number
      ((λ m, default 0%Q (minPixelValue m)) <$> slices_of seriesData)
      (volume_minPixelValue v) ∧
    sliceThickness v = thickness.
Proof.
  intros Hne Hvol Hready Hdist.
  destruct (getMeanValue_array seriesData "imageOrientation" imageOrientation 6)
    as (orientation & Ho & Hom); [done | done | done | |].
  { intros imageId (inst & o & p & mx & mn & H & Ho & Hlo & _)%Hready. eauto. }
  destruct (getMeanValue_array seriesData "pixelSpacing" pixelSpacing 2)
    as (spacing_ & Hs & Hsm); [done | done | done | |].
  { intros imageId (inst & o & p & mx & mn & H & _ & _ & Hp & Hlp & _)%Hready. eauto. }
  destruct (getMeanValue_number seriesData "maxPixelValue" maxPixelValue)
    as (maxValue & Hmax & Hmaxm); [done | done | |].
  { intros imageId (inst & o & p & mx & mn & H & _ & _ & _ & _ & Hmx & _)%Hready. eauto. }
  destruct (getMeanValue_number seriesData "minPixelValue" minPixelValue)
    as (minValue & Hmin & Hminm); [done | done | |].
  { intros imageId (inst & o & p & mx & mn & H & _ & _ & _ & _ & _ & Hmn)%Hready. eauto. }
  assert (Hfirst : ∃ inst, instance_at seriesData 0 = Some inst).
  { unfold instance_at.
    destruct (imageIds seriesData) as [| first ids] eqn:Hids; [done |].
    destruct (Hready first) as (inst & _ & _ & _ & _ & Hinst & _);
      [rewrite Hids; left |].
    exists inst. cbn. by rewrite Hinst. }
  destruct Hfirst as [inst Hinst].
  unfold buildHeader. rewrite Hinst. cbn [defined mbind result_bind].
  rewrite Ho, Hs, Hmax, Hmin, Hdist. cbn [mbind result_bind].
  edestruct (add_slice_entries seriesData) as (header & -> & Hheader);
    [exact Hvol | | apply lookup_singleton_eq |].
  { intros imageId (? & _ & _ & _ & _ & H & _)%Hready. by eexists. }
  eexists header, _. split; [reflexivity |]. split; [exact Hheader |].
  cbn. done.
Qed.

Lemma buildHeader_aggregates_witness :
  ∃ header v,
    buildHeader (axial_series 2 3 2) = Ok header ∧
    header !! "volume" = Some (HeaderVolume v) ∧
    is_mean_array 6
      ((λ m, default [] (imageOrientation m)) <$> slices_of (axial_series 2 3 2))
      (volume_imageOrientation v) ∧
    is_mean_array 2
      ((λ m, default [] (pixelSpacing m)) <$> slices_of (axial_series 2 3 2))
      (volume_pixelSpacing v) ∧
    is_mean_number
      ((λ m, default 0%Q (maxPixelValue m)) <$> slices_of (axial_series 2 3 2))
      (volume_maxPixelValue v) ∧
    is_mean_number
      ((λ m, default 0%Q (minPixelValue m)) <$> slices_of (axial_series 2 3 2))
      (volume_minPixelValue v) ∧
    sliceThickness v = Some (Some 2%Q).
Proof.
  apply (buildHeader_aggregates (axial_series 2 3 2) (Some (Some 2%Q))).
  - discriminate.
  - intros Hin. vm_compute in Hin.
    repeat (apply elem_of_cons in Hin as [Hin | Hin]; [discriminate Hin |]).
    by apply elem_of_nil in Hin.
  - intros imageId Hin.
    change (imageIds (axial_series 2 3 2)) with [slice_name 0; slice_name 1] in Hin.
    repeat (apply elem_of_cons in Hin as [-> | Hin]);
      [| | by apply elem_of_nil in Hin];
      do 5 eexists; (split; [vm_compute; reflexivity |]);
      repeat split; reflexivity.
  - vm_compute. reflexivity.
Defined.

(** The mean on two slices whose largest pixel values are 0 and 1. *)
Example getMeanValue_axial :
  getMeanValue (axial_series 2 3 2) "maxPixelValue" false
  = Ok (MeanNumber (Some (1 # 2)%Q)).
Proof. vm_compute. reflexivity. Qed.

(** * Pixel extrema *)

Local Ltac elem := rewrite ?elem_of_cons, ?not_elem_of_cons in *; intuition (auto; lia).

Lemma getMinPixelValue_cons (x p : Z) (l : list Z) :
  getMinPixelValue None (x :: p :: l)
  = getMinPixelValue None ((if (x =? 0) || (p <? x) then p else x) :: l).
Proof. cbn. by destruct ((x =? 0) || (p <? x)). Qed.

Lemma getMaxPixelValue_cons (x p : Z) (l : list Z) :
  getMaxPixelValue None (x :: p :: l)
  = getMaxPixelValue None ((if (x =? 0) || (x <? p) then p else x) :: l).
Proof. cbn. by destruct ((x =? 0) || (x <? p)). Qed.

(** X1.  Without a supplied value, and when no pixel is [0],
    [getMinPixelValue] returns the least pixel of a non-empty array. *)
Theorem getMinPixelValue_least (pixelData : list Z) :
  pixelData ≠ [] → 0 ∉ pixelData →
  ∃ m, getMinPixelValue None pixelData = Some m ∧ m ∈ pixelData
       ∧ ∀ p, p ∈ pixelData → m ≤ p.
Proof.
  destruct pixelData as [|x l]; [done|]. intros _.
  revert x. induction l as [|p l IH]; intros x H0.
  - exists x. split; [done|]. split; [elem|].
    intros p Hp. apply list_elem_of_singleton in Hp. lia.
  - rewrite getMinPixelValue_cons.
    assert (x ≠ 0 ∧ p ≠ 0 ∧ 0 ∉ l) as (Hx & Hp & Hl).
    { elem. }
    destruct (Z.eqb_spec x 0) as [|_]; [done|]. cbn [orb].
    destruct (Z.ltb_spec p x) as [Hlt|Hge].
    + destruct (IH p) as (m & -> & Hin & Hle).
      { elem. }
      exists m. split; [done|]. split; [elem|].
      intros q Hq. apply elem_of_cons in Hq as [->|Hq]; [|by apply Hle].
      pose proof (Hle p ltac:(elem)). lia.
    + destruct (IH x) as (m & -> & Hin & Hle).
      { elem. }
      exists m. split; [done|]. split; [elem|].
      intros q Hq. rewrite !elem_of_cons in Hq.
      destruct Hq as [->|[->|Hq]].
      * apply Hle. elem.
      * pose proof (Hle x ltac:(elem)). lia.
      * apply Hle. elem.
Qed.

Lemma getMinPixelValue_least_witness :
  ∃ m, getMinPixelValue None [7; 3; 5] = Some m ∧ m ∈ [7; 3; 5]
       ∧ ∀ p, p ∈ [7; 3; 5] → m ≤ p.
Proof.
  apply getMinPixelValue_least; [done|].
  rewrite !not_elem_of_cons. repeat split; try lia. apply not_elem_of_nil.
Defined.

(** X2.  A pixel [0] restarts the search of [getMinPixelValue]: in data
    without negative pixels, whatever precedes the last [0] is forgotten,
    and the result is that of the pixels after it. *)
Theorem getMinPixelValue_restarts_at_zero (before after : list Z) :
  Forall (λ p, 0 ≤ p) before → after ≠ [] →
  getMinPixelValue None (before ++ 0 :: after) = getMinPixelValue None after.
Proof.
  intros Hpre Hpost. destruct after as [|q after]; [done|]. clear Hpost.
  destruct before as [|x before]; [done|].
  apply Forall_cons in Hpre as [Hx Hpre]. revert x Hx.
  induction Hpre as [|y before Hy Hpre IH]; intros x Hx.
  - cbn [app]. rewrite getMinPixelValue_cons.
    destruct (Z.eqb_spec x 0), (Z.ltb_spec 0 x); try lia; done.
  - cbn [app]. rewrite getMinPixelValue_cons.
    destruct ((x =? 0) || (y <? x)); by apply IH.
Qed.

Lemma getMinPixelValue_restarts_at_zero_witness :
  getMinPixelValue None ([3; 1] ++ 0 :: [5; 7]) = getMinPixelValue None [5; 7].
Proof.
  apply getMinPixelValue_restarts_at_zero; [|done].
  repeat constructor; lia.
Defined.

(** X3.  Without a supplied value, [getMaxPixelValue] returns the greatest
    pixel of a non-empty array that has no negative pixel. *)
Theorem getMaxPixelValue_greatest (pixelData : list Z) :
  pixelData ≠ [] → Forall (λ p, 0 ≤ p) pixelData →
  ∃ m, getMaxPixelValue None pixelData = Some m ∧ m ∈ pixelData
       ∧ ∀ p, p ∈ pixelData → p ≤ m.
Proof.
  destruct pixelData as [|x l]; [done|]. intros _.
  revert x. induction l as [|p l IH]; intros x H0.
  - exists x. split; [done|]. split; [elem|].
    intros p Hp. apply list_elem_of_singleton in Hp. lia.
  - rewrite getMaxPixelValue_cons.
    apply Forall_cons in H0 as [Hx H0]. pose proof H0 as H0'.
    apply Forall_cons in H0' as [Hp Hl].
    destruct (Z.eqb_spec x 0) as [->|Hx0]; cbn [orb].
    + destruct (IH p H0) as (m & -> & Hin & Hle).
      exists m. split; [done|]. split; [elem|].
      intros q Hq. apply elem_of_cons in Hq as [->|Hq]; [|by apply Hle].
      pose proof (Hle p ltac:(elem)). lia.
    + destruct (Z.ltb_spec x p) as [Hlt|Hge].
      * destruct (IH p H0) as (m & -> & Hin & Hle).
        exists m. split; [done|]. split; [elem|].
        intros q Hq. apply elem_of_cons in Hq as [->|Hq]; [|by apply Hle].
        pose proof (Hle p ltac:(elem)). lia.
      * destruct (IH x) as (m & -> & Hin & Hle); [by constructor|].
        exists m. split; [done|]. split; [elem|].
        intros q Hq. rewrite !elem_of_cons in Hq.
        destruct Hq as [->|[->|Hq]].
        -- apply Hle. elem.
        -- pose proof (Hle x ltac:(elem)). lia.
        -- apply Hle. elem.
Qed.

Lemma getMaxPixelValue_greatest_witness :
  ∃ m, getMaxPixelValue None [0; 3; 5; 0] = Some m ∧ m ∈ [0; 3; 5; 0]
       ∧ ∀ p, p ∈ [0; 3; 5; 0] → p ≤ m.
Proof.
  apply getMaxPixelValue_greatest; [done|]. repeat constructor; lia.
Defined.

(** * Image identifiers *)

Lemma last_piece_digits (ds : list Z) :
  Forall (λ d, 0 ≤ d ≤ 9) ds → last_piece (digits_string ds) = None.
Proof.
  induction 1 as [|d ds Hd Hds IH]; [done|].
  cbn [digits_string foldr last_piece]. fold (digits_string ds).
  destruct (digits_string ds) as [|c rest] eqn:E; [done|].
  replace (is_slash (digit_char d)) with false; [done|].
  digit_cases d Hd; reflexivity.
Qed.

Lemma append_empty (s : string) : s +:+ "" = s.
Proof.
  induction s as [|c s IH]; [done|].
  change (String c s +:+ "") with (String c (s +:+ "")). by rewrite IH.
Qed.

Lemma last_piece_cons (c c' : ascii) (rest : string) :
  last_piece (String c (String c' rest))
  = if is_slash c && is_slash c' then Some (default rest (last_piece rest))
    else last_piece (String c' rest).
Proof. reflexivity. Qed.

Lemma last_piece_separator (n : nat) (piece : string) :
  last_piece piece = None →
  ∀ prefix, String.length prefix = n → last_char prefix ≠ Some "/"%char →
    last_piece (prefix +:+ "//" +:+ piece) = Some piece.
Proof.
  intros Hpiece. induction (lt_wf n) as [n _ IH]. intros prefix Hn Hlast.
  destruct prefix as [|c [|c' rest]].
  - change ("" +:+ "//" +:+ piece) with (String "/" (String "/" piece)).
    cbn. by rewrite Hpiece.
  - cbn in Hlast.
    assert (is_slash c = false) as Hc.
    { unfold is_slash. apply N.eqb_neq. intros E. apply Hlast. f_equal.
      rewrite <- (ascii_N_embedding c), E. reflexivity. }
    change (String c "" +:+ "//" +:+ piece) with (String c (String "/" (String "/" piece))).
    cbn. rewrite Hc. cbn. by rewrite Hpiece.
  - change (String c (String c' rest) +:+ "//" +:+ piece)
      with (String c (String c' (rest +:+ "//" +:+ piece))).
    rewrite last_piece_cons. destruct (is_slash c && is_slash c') eqn:E.
    + destruct rest as [|c'' rest'].
      { exfalso. apply Hlast. cbn. f_equal.
        apply andb_true_iff in E as [_ E]. unfold is_slash in E.
        apply N.eqb_eq in E. rewrite <- (ascii_N_embedding c'), E. reflexivity. }
      rewrite (IH (String.length (String c'' rest'))); [done| |done|done].
      cbn in Hn. cbn. lia.
    + change (String c' (rest +:+ "//" +:+ piece))
        with (String c' rest +:+ "//" +:+ piece).
      apply (IH (String.length (String c' rest))); [|done|done].
      cbn in Hn. cbn. lia.
Qed.

(** X4.  [parseImageId] reads back the slice number of an image id: for a
    prefix that does not end with a slash and a non-empty string of decimal
    digits that denote a number below [2 ^ 53], the id made of the prefix,
    two slashes and the digits parses to that number. *)
Theorem parseImageId_round_trip (prefix : string) (ds : list Z) :
  last_char prefix ≠ Some "/"%char → decimal_digits ds →
  digits_value ds < 2 ^ 53 →
  to_Z (parseImageId (prefix +:+ "//" +:+ digits_string ds))
  = Some (digits_value ds).
Proof.
  intros Hprefix Hds Hbound. unfold parseImageId, split_pop.
  rewrite (last_piece_separator (String.length prefix));
    [|apply last_piece_digits, Hds|done|done].
  cbn [default from_option]. change (id (digits_string ds)) with (digits_string ds).
  pose proof (parseInt_string_integer 0 None ds 0 Hds) as Hparse.
  unfold integer_string in Hparse.
  change (spaces 0 +:+ sign_string None +:+ digits_string ds +:+ spaces 0)
    with (digits_string ds +:+ "") in Hparse.
  rewrite append_empty in Hparse. rewrite Hparse.
  apply to_Z_lit. pose proof (digits_value_nonneg ds (proj2 Hds)). lia.
Qed.

Lemma parseImageId_round_trip_witness :
  to_Z (parseImageId ("dicomfile:" +:+ "//" +:+ digits_string [1; 0; 7])) = Some 107.
Proof.
  apply (parseImageId_round_trip "dicomfile:" [1; 0; 7]); [done| |cbn; lia].
  split; [done|]. repeat constructor; lia.
Defined.

Lemma is_slash_false (c : ascii) : c ≠ "/"%char → is_slash c = false.
Proof.
  intros Hc. unfold is_slash. apply N.eqb_neq. intros E. apply Hc.
  rewrite <- (ascii_N_embedding c), E. reflexivity.
Qed.

Lemma last_piece_prefix (prefix s : string) :
  last_piece prefix = None → last_char prefix ≠ Some "/"%char → prefix ≠ "" →
  last_piece (prefix +:+ s) = last_piece s.
Proof.
  induction prefix as [|c prefix IH]; [done|]. intros Hnone Hlast _.
  destruct prefix as [|c' rest].
  - change (String c "" +:+ s) with (String c s).
    destruct s as [|c' s]; [done|]. rewrite last_piece_cons.
    rewrite is_slash_false; [done|]. intros ->. by apply Hlast.
  - change (String c (String c' rest) +:+ s)
      with (String c (String c' (rest +:+ s))).
    rewrite last_piece_cons in *.
    destruct (is_slash c && is_slash c'); [done|].
    change (String c' (rest +:+ s)) with (String c' rest +:+ s).
    by apply IH.
Qed.

(** X5.  An image id with three slashes before the digits, as in a file
    URL, does not parse: when the text before them has no separator and
    does not end with a slash, the separator is found at the first two
    slashes, the last piece starts with the third, and [parseImageId] is
    [NaN]. *)
Theorem parseImageId_three_slashes (prefix : string) (ds : list Z) :
  last_piece prefix = None → last_char prefix ≠ Some "/"%char →
  Forall (λ d, 0 ≤ d ≤ 9) ds →
  parseImageId (prefix +:+ "///" +:+ digits_string ds) = NaN.
Proof.
  intros Hnone Hlast Hds. unfold parseImageId, split_pop.
  assert (last_piece ("///" +:+ digits_string ds)
          = Some ("/" +:+ digits_string ds)) as Hpiece.
  { change ("///" +:+ digits_string ds)
      with (String "/" (String "/" (String "/" (digits_string ds)))).
    rewrite last_piece_cons. cbn [is_slash N_of_ascii andb]. 
    change (is_slash "/" && is_slash "/") with true. cbn match.
    destruct Hds as [|d ds Hd Hds]; [done|].
    change (digits_string (d :: ds))
      with (String (digit_char d) (digits_string ds)).
    rewrite last_piece_cons.
    replace (is_slash (digit_char d)) with false
      by (digit_cases d Hd; reflexivity).
    rewrite andb_false_r.
    change (String (digit_char d) (digits_string ds))
      with (digits_string (d :: ds)).
    rewrite last_piece_digits; [done|by constructor]. }
  destruct prefix as [|c prefix].
  - change ("" +:+ "///" +:+ digits_string ds) with ("///" +:+ digits_string ds).
    by rewrite Hpiece.
  - rewrite last_piece_prefix, Hpiece; done.
Qed.

Lemma parseImageId_three_slashes_witness :
  parseImageId ("file:" +:+ "///" +:+ digits_string [1; 2]) = NaN.
Proof.
  apply (parseImageId_three_slashes "file:" [1; 2]); [done|done|].
  repeat constructor; lia.
Defined.

(** * Dates and tag codes *)

Lemma length_2 (s : string) :
  String.length s = 2%nat → ∃ a b, s = String a (String b "").
Proof. destruct s as [|a [|b [|c s]]]; try done. by exists a, b. Qed.

Lemma length_4 (s : string) :
  String.length s = 4%nat →
  ∃ a b c d, s = String a (String b (String c (String d ""))).
Proof.
  destruct s as [|a [|b [|c [|d [|e s]]]]]; try done. by exists a, b, c, d.
Qed.

Local Ltac explode :=
  repeat match goal with
         | H : String.length _ = 2%nat |- _ =>
             apply length_2 in H as (? & ? & ->)
         | H : String.length _ = 4%nat |- _ =>
             apply length_4 in H as (? & ? & ? & ? & ->)
         end.

(** X6.  On a date of four year, two month and two day characters,
    whatever follows them, [formatDate] puts hyphens between the three
    pieces. *)
Theorem formatDate_pieces (yyyy mm dd rest : string) :
  String.length yyyy = 4%nat → String.length mm = 2%nat →
  String.length dd = 2%nat →
  formatDate (yyyy +:+ mm +:+ dd +:+ rest) = yyyy +:+ "-" +:+ mm +:+ "-" +:+ dd.
Proof. intros. explode. destruct rest; reflexivity. Qed.

Lemma formatDate_pieces_witness :
  formatDate ("2020" +:+ "01" +:+ "31" +:+ "") = "2020" +:+ "-" +:+ "01" +:+ "-" +:+ "31".
Proof. by apply formatDate_pieces. Defined.

(** X7.  A date of at most four characters has no month and no day: their
    first characters are [undefined], and the text [0undefined] stands in
    their places. *)
Theorem formatDate_short (date : string) :
  (String.length date ≤ 4)%nat →
  formatDate date = date +:+ "-0undefined-0undefined".
Proof.
  intros H. destruct date as [|a [|b [|c [|d [|e s]]]]]; try reflexivity.
  cbn in H. lia.
Qed.

Lemma formatDate_short_witness :
  formatDate "2020" = "2020" +:+ "-0undefined-0undefined".
Proof. apply formatDate_short. cbn. lia. Defined.

(** X8.  On a date and time of fourteen characters, whatever follows
    them (a fraction of a second, a time zone), [formatDateTime] gives the
    date as [formatDate] does, a slash, and the time with colons. *)
Theorem formatDateTime_pieces (yyyy mm dd hh m ss rest : string) :
  String.length yyyy = 4%nat → String.length mm = 2%nat →
  String.length dd = 2%nat → String.length hh = 2%nat →
  String.length m = 2%nat → String.length ss = 2%nat →
  formatDateTime (yyyy +:+ mm +:+ dd +:+ hh +:+ m +:+ ss +:+ rest)
  = formatDate (yyyy +:+ mm +:+ dd) +:+ "/" +:+ hh +:+ ":" +:+ m +:+ ":" +:+ ss.
Proof. intros. explode. destruct rest; reflexivity. Qed.

Lemma formatDateTime_pieces_witness :
  formatDateTime ("2020" +:+ "01" +:+ "31" +:+ "10" +:+ "15" +:+ "30" +:+ ".5")
  = formatDate ("2020" +:+ "01" +:+ "31") +:+ "/" +:+ "10" +:+ ":" +:+ "15" +:+ ":" +:+ "30".
Proof. by apply formatDateTime_pieces. Defined.

Lemma upper_char_not_x (c : ascii) : Ascii.eqb (upper_char c) "x" = false.
Proof. destruct c as [[] [] [] [] [] [] [] []]; reflexivity. Qed.

Lemma exec_tag_toUpperCase (s : string) : exec_tag (toUpperCase s) = None.
Proof.
  induction s as [|c s IH]; [done|].
  cbn [toUpperCase exec_tag]. by rewrite upper_char_not_x.
Qed.

(** X9.  [getDICOMTagCode] is idempotent: a code it has formatted has no
    lower-case [x] left and is returned as it is. *)
Theorem getDICOMTagCode_idempotent (code : string) :
  getDICOMTagCode (getDICOMTagCode code) = getDICOMTagCode code.
Proof.
  unfold getDICOMTagCode at 2 3. destruct (exec_tag code) as [[g1 g2]|] eqn:E.
  - unfold getDICOMTagCode. by rewrite exec_tag_toUpperCase.
  - unfold getDICOMTagCode. by rewrite E.
Qed.

Lemma take_word_words (w rest : string) :
  String.length w = 4%nat → forallb is_word (list_ascii_of_string w) = true →
  take_word 4 (w +:+ rest) = Some (w, rest).
Proof.
  intros H Hw. apply length_4 in H as (a & b & c & d & ->). cbn in Hw.
  apply andb_true_iff in Hw as [Ha Hw]. apply andb_true_iff in Hw as [Hb Hw].
  apply andb_true_iff in Hw as [Hc Hw]. apply andb_true_iff in Hw as [Hd _].
  change (take_word 4 (String a (String b (String c (String d rest))))
          = Some (String a (String b (String c (String d ""))), rest)).
  cbn [take_word]. by rewrite Ha, Hb, Hc, Hd.
Qed.

(** X10.  A raw tag code, [x] followed by four group and four element
    word characters, is formatted as the upper-case group and element in
    parentheses with a comma between them; what follows the eight
    characters is dropped. *)
Theorem getDICOMTagCode_raw (group element rest : string) :
  String.length group = 4%nat → String.length element = 4%nat →
  forallb is_word (list_ascii_of_string group) = true →
  forallb is_word (list_ascii_of_string element) = true →
  getDICOMTagCode ("x" +:+ group +:+ element +:+ rest)
  = "(" +:+ toUpperCase group +:+ "," +:+ toUpperCase element +:+ ")".
Proof.
  intros Hg He Hwg Hwe. unfold getDICOMTagCode.
  change ("x" +:+ group +:+ element +:+ rest)
    with (String "x" (group +:+ element +:+ rest)).
  cbn [exec_tag]. change (Ascii.eqb "x" "x") with true. cbn match.
  rewrite take_word_words by done. cbn [mbind option_bind].
  rewrite take_word_words by done. cbn [mbind option_bind].
  explode. reflexivity.
Qed.

Lemma getDICOMTagCode_raw_witness :
  getDICOMTagCode ("x" +:+ "0028" +:+ "000a" +:+ "")
  = "(" +:+ toUpperCase "0028" +:+ "," +:+ toUpperCase "000a" +:+ ")".
Proof. by apply getDICOMTagCode_raw. Defined.

(** * Slice ordering with any list of methods *)

Lemma sortBy_Ok {A} (collection sorted : list A) (iteratee : A → result sort_key) :
  sortBy collection iteratee = Ok sorted →
  ∃ keyed, keyed.*2 = collection ∧ sorted = (stable_sort keyed).*2
           ∧ Forall (λ p, iteratee p.2 = Ok p.1) keyed.
Proof.
  unfold sortBy.
  destruct (foldr _ _ collection) as [keyed|e] eqn:E; [|discriminate].
  intros [= <-]. exists keyed. split; [|split; [done|]].
  - revert keyed E. induction collection as [|x l IH]; intros keyed E.
    + by injection E as <-.
    + cbn [foldr] in E. destruct (iteratee x) as [k|]; [|discriminate].
      destruct (foldr _ _ l) as [rest|]; [|discriminate].
      injection E as <-. cbn. f_equal. by apply IH.
  - revert keyed E. induction collection as [|x l IH]; intros keyed E.
    + injection E as <-. constructor.
    + cbn [foldr] in E. destruct (iteratee x) as [k|] eqn:Ek; [|discriminate].
      destruct (foldr _ _ l) as [rest|]; [|discriminate].
      injection E as <-. constructor; [done|]. by apply IH.
Qed.

Lemma sortBy_throws {A} (collection : list A) (iteratee : A → result sort_key)
    (x : A) (e : string) :
  x ∈ collection → iteratee x = Throw e →
  ∃ e', sortBy collection iteratee = Throw e'.
Proof.
  intros Hx He. unfold sortBy.
  assert (∃ e', foldr (λ x acc, k ← iteratee x; rest ← acc; Ok ((k, x) :: rest))
                  (Ok []) collection = Throw e') as [e' ->]; [|by exists e'].
  induction collection as [|y l IH]; [by apply elem_of_nil in Hx|].
  cbn [foldr]. destruct (iteratee y) as [k|e1] eqn:Ey; [|by exists e1].
  apply elem_of_cons in Hx as [->|Hx]; [congruence|].
  destruct (IH Hx) as [e' ->]. by exists e'.
Qed.

(** X11.  Whatever the list of methods, a stack that [getSortedStack]
    returns is a rearrangement of the image ids of the series: no id is
    lost, added or repeated. *)
Theorem getSortedStack_permutation (seriesData : series)
    (sortPriorities sorted : list string) (returnSuccessMethod : bool) :
  getSortedStack seriesData sortPriorities returnSuccessMethod = Some sorted →
  sorted ≡ₚ imageIds seriesData.
Proof.
  unfold getSortedStack.
  induction sortPriorities as [|sortMethod methods IH]; [done|].
  cbn [tryToSort]. destruct (sortBy _ _) as [l|e] eqn:E; [|done].
  intros [= <-]. apply sortBy_Ok in E as (keyed & <- & -> & _).
  by rewrite stable_sort_perm.
Qed.

Lemma getSortedStack_permutation_witness :
  ["b"; "c"; "a"] ≡ₚ imageIds shuffled_series.
Proof.
  apply (getSortedStack_permutation shuffled_series
           ["contentTime"; "instanceNumber"] ["b"; "c"; "a"] false).
  vm_compute. reflexivity.
Defined.

(** X12.  A method name that is none of the three known ones sorts
    nothing and stops the search: every image gets the key [undefined],
    the ids come back in the order of the series, and the methods after it
    are not tried. *)
Theorem getSortedStack_unknown_method (seriesData : series) (method : string)
    (methods : list string) (returnSuccessMethod : bool) :
  method ≠ "instanceNumber" → method ≠ "contentTime" → method ≠ "imagePosition" →
  getSortedStack seriesData (method :: methods) returnSuccessMethod
  = Some (imageIds seriesData).
Proof.
  intros H1 H2 H3. unfold getSortedStack. cbn [tryToSort].
  rewrite (sortBy_keys _ _ (λ _, KeyUndefined)).
  - rewrite stable_sort_undefined.
    + by rewrite <- list_fmap_compose, list_fmap_id.
    + apply Forall_fmap, Forall_forall. by intros.
  - intros imageId _. unfold sortStackCallback. by rewrite !decide_False.
Qed.

Lemma getSortedStack_unknown_method_witness :
  getSortedStack shuffled_series ("sliceLocation" :: ["instanceNumber"]) true
  = Some (imageIds shuffled_series).
Proof. by apply getSortedStack_unknown_method. Defined.

(** X13.  One image without cardiac gating is enough for the content-time
    method to be given up: the result is that of the methods after it. *)
Theorem getSortedStack_contentTime_skipped (seriesData : series)
    (methods : list string) (returnSuccessMethod : bool)
    (imageId : string) (inst : instance) :
  imageId ∈ imageIds seriesData →
  instances seriesData !! imageId = Some inst →
  lacks_gating (metadata_of inst) →
  getSortedStack seriesData ("contentTime" :: methods) returnSuccessMethod
  = getSortedStack seriesData methods returnSuccessMethod.
Proof.
  intros Hin Hinst Hgate. unfold getSortedStack. cbn [tryToSort].
  destruct (sortBy_throws (imageIds seriesData)
              (λ imageId, sortStackCallback seriesData imageId "contentTime")
              imageId NotATimeSeries Hin) as [e ->]; [|done].
  by eapply contentTime_not_gated.
Qed.

Lemma getSortedStack_contentTime_skipped_witness :
  getSortedStack shuffled_series ("contentTime" :: ["instanceNumber"]) false
  = getSortedStack shuffled_series ["instanceNumber"] false.
Proof.
  eapply (getSortedStack_contentTime_skipped shuffled_series _ _ "b").
  - cbn. rewrite !elem_of_cons. auto.
  - vm_compute. reflexivity.
  - exact I.
Defined.

(** X14.  An image id of the series without an instance makes each of the
    three known methods throw, so a list of known methods ends in
    [undefined]. *)
Theorem getSortedStack_missing_instance (seriesData : series)
    (sortPriorities : list string) (returnSuccessMethod : bool)
    (imageId : string) :
  imageId ∈ imageIds seriesData →
  instances seriesData !! imageId = None →
  Forall (λ method, method ∈ ["instanceNumber"; "contentTime"; "imagePosition"])
         sortPriorities →
  getSortedStack seriesData sortPriorities returnSuccessMethod = None.
Proof.
  intros Hin Hnone Hknown. unfold getSortedStack.
  induction Hknown as [|method methods Hm Hknown IH]; [done|].
  cbn [tryToSort].
  destruct (sortBy_throws (imageIds seriesData)
              (λ imageId, sortStackCallback seriesData imageId method)
              imageId TypeError Hin) as [e ->]; [|done].
  unfold sortStackCallback. rewrite Hnone.
  repeat (apply elem_of_cons in Hm as [->|Hm]); [done..|].
  by apply elem_of_nil in Hm.
Qed.
Lemma getSortedStack_missing_instance_witness :
  getSortedStack incomplete_series ["contentTime"; "instanceNumber"] false = None.
Proof.
  apply (getSortedStack_missing_instance incomplete_series _ false "d").
  - cbn. rewrite !elem_of_cons. auto.
  - vm_compute. reflexivity.
  - repeat constructor.
Defined.

(** * The axis of the position method *)

Lemma nleb_le (a b : Q) : nleb (Some a) (Some b) = true ↔ (a <= b)%Q.
Proof. cbn. apply Qle_bool_iff. Qed.

Lemma nleb_gt (a b : Q) : nleb (Some a) (Some b) = false ↔ (b < a)%Q.
Proof.
  cbn. rewrite <- not_true_iff_false, Qle_bool_iff. split.
  - apply Qnot_le_lt.
  - apply Qlt_not_le.
Qed.

Lemma sortIndex_of_None (v1 v2 v3 : Q) :
  sortIndex_of (Some v1) (Some v2) (Some v3) = None ↔ (v1 < v3 ∧ v3 < v2)%Q.
Proof.
  unfold sortIndex_of.
  destruct (nleb (Some v1) (Some v2)) eqn:E12;
  destruct (nleb (Some v2) (Some v3)) eqn:E23;
  destruct (nleb (Some v2) (Some v1)) eqn:E21;
  destruct (nleb (Some v3) (Some v1)) eqn:E31;
  destruct (nleb (Some v3) (Some v2)) eqn:E32;
  rewrite ?nleb_le, ?nleb_gt in *; cbn [andb];
  (split; [try discriminate; intros _; split; q_order
          | intros [? ?]; try reflexivity; q_order]).
Qed.

(** X15.  The axis the position method sorts along is one on which the
    image plane has the least weight; no axis is chosen exactly when the
    first weight is below the third and the third below the second. *)
Theorem sortIndex_of_least (v1 v2 v3 : Q) :
  (∀ k, sortIndex_of (Some v1) (Some v2) (Some v3) = Some k →
        ∃ m, [v1; v2; v3] !! k = Some m ∧ (m <= v1 ∧ m <= v2 ∧ m <= v3)%Q)
  ∧ (sortIndex_of (Some v1) (Some v2) (Some v3) = None ↔ (v1 < v3 ∧ v3 < v2)%Q).
Proof.
  split; [|apply sortIndex_of_None].
  unfold sortIndex_of.
  destruct (nleb (Some v1) (Some v2)) eqn:E12;
  destruct (nleb (Some v2) (Some v3)) eqn:E23;
  destruct (nleb (Some v2) (Some v1)) eqn:E21;
  destruct (nleb (Some v3) (Some v1)) eqn:E31;
  destruct (nleb (Some v3) (Some v2)) eqn:E32;
  rewrite ?nleb_le, ?nleb_gt in *; cbn [andb];
  intros k [= <-]; eexists; (split; [reflexivity|]); repeat split; q_order.
Qed.

Lemma sortIndex_of_least_witness :
  ∃ m, [1; 1; 0]%Q !! 2%nat = Some m ∧ (m <= 1 ∧ m <= 1 ∧ m <= 0)%Q.
Proof. apply (proj1 (sortIndex_of_least 1 1 0) 2%nat). reflexivity. Defined.

Lemma imagePosition_key (seriesData : series) (imageId : string) (inst : instance)
    (a1 a2 a3 b1 b2 b3 : Q) :
  instances seriesData !! imageId = Some inst →
  imageOrientation (metadata_of inst) = Some [a1; a2; a3; b1; b2; b3] →
  sortStackCallback seriesData imageId "imagePosition"
  = Ok (match sortIndex_of (Some (a1 * a1 + b1 * b1)%Q) (Some (a2 * a2 + b2 * b2)%Q)
                (Some (a3 * a3 + b3 * b3)%Q)
              ≫= (default [] (numbers <$> imagePosition (metadata_of inst)) !!.) with
        | Some x => KeyNumber x
        | None => KeyUndefined
        end).
Proof.
  intros Hinst Ho. unfold sortStackCallback.
  rewrite decide_False, decide_False, decide_True, Hinst by done.
  cbn -[sortIndex_of]. rewrite Ho. cbn -[sortIndex_of].
  by destruct (sortIndex_of _ _ _ ≫= _).
Qed.

(** X16.  For a stack whose orientation weighs the first axis least and
    the second most, the position method chooses no axis: every image gets
    the key [undefined], the method succeeds, and the ids come back
    unsorted, whatever the positions are. *)
Theorem getSortedStack_position_unsorted (seriesData : series)
    (methods : list string) (returnSuccessMethod : bool)
    (a1 a2 a3 b1 b2 b3 : Q) :
  (a1 * a1 + b1 * b1 < a3 * a3 + b3 * b3)%Q →
  (a3 * a3 + b3 * b3 < a2 * a2 + b2 * b2)%Q →
  (∀ imageId, imageId ∈ imageIds seriesData →
     ∃ inst, instances seriesData !! imageId = Some inst ∧
             imageOrientation (metadata_of inst) = Some [a1; a2; a3; b1; b2; b3]) →
  getSortedStack seriesData ("imagePosition" :: methods) returnSuccessMethod
  = Some (imageIds seriesData).
Proof.
  intros H13 H32 Hall. unfold getSortedStack. cbn [tryToSort].
  rewrite (sortBy_keys _ _ (λ _, KeyUndefined)).
  - rewrite stable_sort_undefined.
    + by rewrite <- list_fmap_compose, list_fmap_id.
    + apply Forall_fmap, Forall_forall. by intros.
  - intros imageId (inst & Hinst & Ho)%Hall.
    rewrite (imagePosition_key _ _ _ _ _ _ _ _ _ Hinst Ho).
    destruct (sortIndex_of_None (a1 * a1 + b1 * b1) (a2 * a2 + b2 * b2)
                (a3 * a3 + b3 * b3)) as [_ ->]; done.
Qed.

Lemma getSortedStack_position_unsorted_witness :
  getSortedStack (positioned_series [0; 1; 0; 3 # 5; 0; 4 # 5]%Q)
    ("imagePosition" :: ["instanceNumber"]) false
  = Some (imageIds (positioned_series [0; 1; 0; 3 # 5; 0; 4 # 5]%Q)).
Proof.
  apply (getSortedStack_position_unsorted _ _ _ 0 1 0 (3 # 5) 0 (4 # 5));
    [reflexivity | reflexivity |].
  intros imageId Hin. cbn in Hin.
  repeat (apply elem_of_cons in Hin as [-> | Hin]);
    [| | | by apply elem_of_nil in Hin];
    eexists; (split; [vm_compute; reflexivity | reflexivity]).
Defined.

(** X17.  For a stack whose slices share an orientation for which the
    position method chooses axis [k], the ids come back in ascending order
    of the component of their positions along [k]. *)
Theorem getSortedStack_position_order (seriesData : series)
    (methods : list string) (returnSuccessMethod : bool)
    (a1 a2 a3 b1 b2 b3 : Q) (k : nat) :
  sortIndex_of (Some (a1 * a1 + b1 * b1)%Q) (Some (a2 * a2 + b2 * b2)%Q)
    (Some (a3 * a3 + b3 * b3)%Q) = Some k →
  (∀ imageId, imageId ∈ imageIds seriesData →
     ∃ inst, instances seriesData !! imageId = Some inst ∧
             imageOrientation (metadata_of inst) = Some [a1; a2; a3; b1; b2; b3] ∧
             is_Some (position_along seriesData k imageId)) →
  ∃ sorted along,
    getSortedStack seriesData ("imagePosition" :: methods) returnSuccessMethod
      = Some sorted ∧
    sorted ≡ₚ imageIds seriesData ∧
    position_along seriesData k <$> sorted = Some <$> along ∧
    Sorted Qle along.
Proof.
  intros Hk Hall.
  set (g := λ imageId, default 0%Q (position_along seriesData k imageId)).
  assert (Hpos : ∀ imageId, imageId ∈ imageIds seriesData →
            position_along seriesData k imageId = Some (g imageId)).
  { intros id (inst & _ & _ & z & Hz)%Hall. unfold g. by rewrite Hz. }
  set (keyed := (λ x, (KeyNumber (Some (g x)), x)) <$> imageIds seriesData).
  assert (Hperm : (stable_sort keyed).*2 ≡ₚ imageIds seriesData).
  { rewrite stable_sort_perm. unfold keyed.
    rewrite <- list_fmap_compose. by rewrite list_fmap_id. }
  exists (stable_sort keyed).*2, (g <$> (stable_sort keyed).*2).
  split; [|split; [done|split]].
  - unfold getSortedStack. cbn [tryToSort].
    rewrite (sortBy_keys _ _ (λ x, KeyNumber (Some (g x)))); [done|].
    intros id Hid. destruct (Hall id Hid) as (inst & Hinst & Ho & _).
    rewrite (imagePosition_key _ _ _ _ _ _ _ _ _ Hinst Ho), Hk.
    pose proof (Hpos id Hid) as Hg. unfold position_along in Hg.
    rewrite Hinst in Hg. cbn in Hg. cbn [mbind option_bind].
    destruct (imagePosition (metadata_of inst)) as [p|]; [|done].
    cbn in Hg |- *. unfold numbers. rewrite list_lookup_fmap, Hg. done.
  - rewrite <- (list_fmap_compose g Some). apply Forall_fmap_ext_1.
    apply Forall_forall. intros id Hid. cbn. apply Hpos. by rewrite <- Hperm.
  - apply stable_sort_Qle. unfold keyed. apply Forall_fmap, Forall_forall.
    intros id _. by exists (g id).
Qed.

Lemma getSortedStack_position_order_witness :
  ∃ sorted along,
    getSortedStack (positioned_series [1; 0; 0; 0; 1; 0]%Q)
      ("imagePosition" :: []) false = Some sorted ∧
    sorted ≡ₚ imageIds (positioned_series [1; 0; 0; 0; 1; 0]%Q) ∧
    position_along (positioned_series [1; 0; 0; 0; 1; 0]%Q) 2 <$> sorted
      = Some <$> along ∧
    Sorted Qle along.
Proof.
  apply (getSortedStack_position_order _ _ _ 1 0 0 0 1 0 2); [reflexivity|].
  intros imageId Hin. cbn in Hin.
  repeat (apply elem_of_cons in Hin as [-> | Hin]);
    [| | | by apply elem_of_nil in Hin];
    eexists; (split; [vm_compute; reflexivity | split; [reflexivity|]]);
    eexists; vm_compute; reflexivity.
Defined.

(** * Orientation vectors *)

(** X18.  The normal [getNormalOrientation] computes from six numbers is
    at a right angle to the row and to the column direction. *)
Theorem getNormalOrientation_perpendicular (iop : list Q) :
  length iop = 6%nat →
  ∃ r c : Q,
    dot3 (getNormalOrientation (numbers iop)) (row_versor (numbers iop)) = Some r
    ∧ dot3 (getNormalOrientation (numbers iop)) (column_versor (numbers iop)) = Some c
    ∧ (r == 0 ∧ c == 0)%Q.
Proof.
  intros Hlen.
  destruct iop as [|u0 [|u1 [|u2 [|v0 [|v1 [|v2 [|]]]]]]]; try discriminate Hlen.
  eexists _, _. split; [reflexivity|]. split; [reflexivity|]. split; ring.
Qed.

Lemma getNormalOrientation_perpendicular_witness :
  ∃ r c : Q,
    dot3 (getNormalOrientation (numbers [0; 1; 0; 3 # 5; 0; 4 # 5]%Q))
         (row_versor (numbers [0; 1; 0; 3 # 5; 0; 4 # 5]%Q)) = Some r
    ∧ dot3 (getNormalOrientation (numbers [0; 1; 0; 3 # 5; 0; 4 # 5]%Q))
           (column_versor (numbers [0; 1; 0; 3 # 5; 0; 4 # 5]%Q)) = Some c
    ∧ (r == 0 ∧ c == 0)%Q.
Proof. by apply getNormalOrientation_perpendicular. Defined.

Lemma permuteSignedArrays_table (from to : orientation) (t : list number)
    (u v w : list num) :
  resliceTable from to = Some t →
  permuteSignedArrays t [Some u; Some v; Some w]
  = Ok (signed_permutation (table_flips from to) (table_axes from to) [u; v; w]).
Proof. destruct from, to; intros [= <-]; vm_compute; reflexivity. Qed.

Lemma getReslicedIOP_table (from to : orientation) (t : list number)
    (u0 u1 u2 v0 v1 v2 : Q) :
  resliceTable from to = Some t →
  getReslicedIOP (Some (numbers [u0; u1; u2; v0; v1; v2])) t
  = let u := numbers [u0; u1; u2] in
    let v := numbers [v0; v1; v2] in
    let w := numbers [u1 * v2 - u2 * v1; u2 * v0 - u0 * v2; u0 * v1 - u1 * v0]%Q in
    match signed_permutation (table_flips from to) (table_axes from to) [u; v; w] with
    | [Some a; Some b; _] => Ok (Some (a ++ b))
    | _ => Throw TypeError
    end.
Proof.
  intros Ht. unfold getReslicedIOP.
  change (row_versor (numbers [u0; u1; u2; v0; v1; v2])) with (numbers [u0; u1; u2]).
  change (column_versor (numbers [u0; u1; u2; v0; v1; v2])) with (numbers [v0; v1; v2]).
  change (getNormalOrientation (numbers [u0; u1; u2; v0; v1; v2]))
    with (numbers [u1 * v2 - u2 * v1; u2 * v0 - u0 * v2; u0 * v1 - u1 * v0]%Q).
  rewrite (permuteSignedArrays_table from to) by done.
  destruct from, to; try discriminate Ht; reflexivity.
Qed.

(** X19.  Reslicing an orientation of unit directions at a right angle
    with the table of a pair, and the result with the table of the
    reversed pair, gives back the orientation. *)
Theorem getReslicedIOP_round_trip (from to : orientation) (t t' : list number)
    (iop : list Q) :
  resliceTable from to = Some t → resliceTable to from = Some t' →
  orthonormal iop →
  ∃ there back : list Q,
    getReslicedIOP (Some (numbers iop)) t = Ok (Some (numbers there))
    ∧ getReslicedIOP (Some (numbers there)) t' = Ok (Some (numbers back))
    ∧ Forall2 Qeq back iop.
Proof.
  intros Ht Ht' Hiop.
  destruct iop as [|u0 [|u1 [|u2 [|v0 [|v1 [|v2 [|]]]]]]]; try done.
  destruct Hiop as (Hu & Hv & Huv).
  rewrite (getReslicedIOP_table from to) by done.
  destruct from, to; try discriminate Ht;
    (eexists [_; _; _; _; _; _], [_; _; _; _; _; _];
     split; [cbn -[Qmult Qminus Qopp]; reflexivity|];
     split; [rewrite (getReslicedIOP_table _ _ _ _ _ _ _ _ _ Ht');
             cbn -[Qmult Qminus Qopp]; reflexivity|]);
    repeat constructor; nsatz.
Qed.

Lemma getReslicedIOP_round_trip_witness :
  ∃ there back : list Q,
    getReslicedIOP (Some (numbers [0; 1; 0; 3 # 5; 0; 4 # 5]%Q))
      [Number.lit 1; Number.neg (Number.lit 2); Number.neg (Number.lit 0)]
    = Ok (Some (numbers there))
    ∧ getReslicedIOP (Some (numbers there))
        [Number.neg (Number.lit 2); Number.lit 0; Number.neg (Number.lit 1)]
      = Ok (Some (numbers back))
    ∧ Forall2 Qeq back [0; 1; 0; 3 # 5; 0; 4 # 5]%Q.
Proof.
  apply (getReslicedIOP_round_trip axial sagittal); [reflexivity..|].
  repeat split; reflexivity.
Defined.

(** X20.  The resliced orientation of unit directions at a right angle
    is again made of unit directions at a right angle. *)
Theorem getReslicedIOP_orthonormal (from to : orientation) (t : list number)
    (iop : list Q) :
  resliceTable from to = Some t → orthonormal iop →
  ∃ there : list Q,
    getReslicedIOP (Some (numbers iop)) t = Ok (Some (numbers there))
    ∧ orthonormal there.
Proof.
  intros Ht Hiop.
  destruct iop as [|u0 [|u1 [|u2 [|v0 [|v1 [|v2 [|]]]]]]]; try done.
  destruct Hiop as (Hu & Hv & Huv).
  rewrite (getReslicedIOP_table from to) by done.
  destruct from, to; try discriminate Ht;
    (eexists [_; _; _; _; _; _];
     split; [cbn -[Qmult Qminus Qopp]; reflexivity|]);
    repeat split; nsatz.
Qed.

Lemma getReslicedIOP_orthonormal_witness :
  ∃ there : list Q,
    getReslicedIOP (Some (numbers [0; 1; 0; 3 # 5; 0; 4 # 5]%Q))
      [Number.lit 0; Number.neg (Number.lit 2); Number.lit 1]
    = Ok (Some (numbers there))
    ∧ orthonormal there.
Proof.
  apply (getReslicedIOP_orthonormal axial coronal); [reflexivity|].
  repeat split; reflexivity.
Defined.

(** * Extents and voxels *)

(** X21.  The absolute tables of a pair of orientations and of the
    reversed pair are inverse permutations: permuting a triple with the
    first and the result with the second gives back the triple. *)
Theorem permuteValues_round_trip {A} (from to : orientation)
    (t t' : list number) (sourceArray : list (option A)) :
  resliceTable from to = Some t → resliceTable to from = Some t' →
  length sourceArray = 3%nat →
  permuteValues (absTable t') (permuteValues (absTable t) sourceArray)
  = sourceArray.
Proof.
  intros Ht Ht' Hlen. rewrite !permuteValues_axes.
  rewrite (resliceTable_axes _ _ _ Ht), (resliceTable_axes _ _ _ Ht').
  destruct sourceArray as [|a [|b [|c [|]]]]; try discriminate Hlen.
  destruct from, to; try discriminate Ht; reflexivity.
Qed.

Lemma permuteValues_round_trip_witness :
  permuteValues (absTable [Number.neg (Number.lit 2); Number.lit 0; Number.neg (Number.lit 1)])
    (permuteValues (absTable [Number.lit 1; Number.neg (Number.lit 2); Number.neg (Number.lit 0)])
       [Some 512; Some 256; Some 40])
  = [Some 512; Some 256; Some 40].
Proof. by apply (permuteValues_round_trip axial sagittal). Defined.

(** X22.  Between two distinct orientations of one volume, [remapVoxel]
    maps the closed box from [0] to the extents onto the closed box of the
    target orientation. *)
Theorem remapVoxel_box (dims : orientation → list Z) (A B : orientation)
    (i j k : Z) :
  dims_of_volume dims → A ≠ B →
  Forall2 (λ c extent, 0 ≤ c ≤ extent) [i; j; k] (dims A) →
  ∃ v, remapVoxel dims [i; j; k] A B = Some v
       ∧ Forall2 (λ c extent, 0 ≤ c ≤ extent) v (dims B).
Proof.
  intros Hd HAB Hbox. destruct (dims_of_volume_inv dims Hd) as (c & r & n & E).
  rewrite remapVoxel_decoded, !E in * by done.
  destruct A, B; try done; cbn -[Z.sub] in *;
    apply Forall2_cons in Hbox as [Hi Hbox];
    apply Forall2_cons in Hbox as [Hj Hbox];
    apply Forall2_cons in Hbox as [Hk _];
    (eexists; split; [reflexivity|]); repeat constructor; lia.
Qed.

Lemma remapVoxel_box_witness :
  ∃ v, remapVoxel (dims_from_axial 4 5 6) [1; 2; 3] axial sagittal = Some v
       ∧ Forall2 (λ c extent, 0 ≤ c ≤ extent) v (dims_from_axial 4 5 6 sagittal).
Proof.
  apply remapVoxel_box.
  - apply dims_from_axial_of_volume.
  - discriminate.
  - repeat constructor; lia.
Defined.

(** X23.  The first voxel of a volume never maps to a voxel of the target
    orientation: every table flips an axis, and the flipped coordinate [0]
    becomes the extent, one past the last index. *)
Theorem remapVoxel_origin (dims : orientation → list Z) (A B : orientation) :
  dims_of_volume dims → A ≠ B →
  ∃ v axis extent,
    remapVoxel dims [0; 0; 0] A B = Some v
    ∧ v !! axis = Some extent ∧ dims B !! axis = Some extent.
Proof.
  intros Hd HAB. destruct (dims_of_volume_inv dims Hd) as (c & r & n & E).
  rewrite remapVoxel_decoded, !E by done.
  destruct A, B; try done; cbn;
    eexists; [exists 0%nat | exists 0%nat | exists 2%nat | exists 2%nat
             | exists 1%nat | exists 1%nat];
    eexists; (split; [reflexivity|]); split; cbn; f_equal; lia.
Qed.

Lemma remapVoxel_origin_witness :
  ∃ v axis extent,
    remapVoxel (dims_from_axial 4 5 6) [0; 0; 0] axial sagittal = Some v
    ∧ v !! axis = Some extent
    ∧ dims_from_axial 4 5 6 sagittal !! axis = Some extent.
Proof.
  apply remapVoxel_origin.
  - apply dims_from_axial_of_volume.
  - discriminate.
Defined.

(** * Distance between slices *)

(** X24.  For two slices of a series that carry the same orientation,
    the distance does not depend on the order of the two slices, and it is
    never negative. *)
Theorem getDistanceBetweenSlices_symmetric (seriesData : series) (i j : nat)
    (inst1 inst2 : instance) (o p1 p2 : list num) :
  (1 < length (imageIds seriesData))%nat →
  instance_at seriesData i = Some inst1 → instance_at seriesData j = Some inst2 →
  orientation_of (metadata_of inst1) = Some o →
  orientation_of (metadata_of inst2) = Some o → has_numbers 6 o →
  position_of (metadata_of inst1) = Some p1 → has_numbers 3 p1 →
  position_of (metadata_of inst2) = Some p2 → has_numbers 3 p2 →
  ∃ d d' : Q,
    getDistanceBetweenSlices seriesData i j = Ok (Some (Some d))
    ∧ getDistanceBetweenSlices seriesData j i = Ok (Some (Some d'))
    ∧ (d == d' ∧ 0 <= d)%Q.
Proof.
  unfold getDistanceBetweenSlices, orientation_of, position_of.
  intros Hlen Hi Hj Ho1 Ho2 Ho Hp1 Hn1 Hp2 Hn2.
  apply Nat.leb_gt in Hlen. rewrite Hlen, Hi, Hj. cbn [defined mbind result_bind].
  rewrite Ho1, Ho2, Hp1, Hp2. cbn [defined mbind result_bind].
  destruct (dot3_number o p1 Ho Hn1) as [d1 ->].
  destruct (dot3_number o p2 Ho Hn2) as [d2 ->].
  exists (Qabs (d1 - d2)), (Qabs (d2 - d1)).
  split; [reflexivity|]. split; [reflexivity|]. split.
  - by rewrite Qabs_Qminus.
  - apply Qabs_nonneg.
Qed.

Lemma getDistanceBetweenSlices_symmetric_witness :
  ∃ d d' : Q,
    getDistanceBetweenSlices (axial_series 2 2 3) 0 2 = Ok (Some (Some d))
    ∧ getDistanceBetweenSlices (axial_series 2 2 3) 2 0 = Ok (Some (Some d'))
    ∧ (d == d' ∧ 0 <= d)%Q.
Proof.
  apply (getDistanceBetweenSlices_symmetric (axial_series 2 2 3) 0 2
           (axial_slice 2 2 0) (axial_slice 2 2 2)
           (numbers [1; 0; 0; 0; 1; 0]%Q)
           (numbers [0; 0; inject_Z 0]%Q) (numbers [0; 0; inject_Z 4]%Q)).
  - cbn. lia.
  - vm_compute. reflexivity.
  - vm_compute. reflexivity.
  - reflexivity.
  - reflexivity.
  - intros k Hk. do 6 (destruct k as [| k]; [cbn; eauto |]). lia.
  - reflexivity.
  - intros k Hk. do 3 (destruct k as [| k]; [cbn; eauto |]). lia.
  - reflexivity.
  - intros k Hk. do 3 (destruct k as [| k]; [cbn; eauto |]). lia.
Defined.

(** X25.  When the first slice has an orientation of unit directions at a
    right angle and the second slice lies at the position of the first
    moved by [t] along the normal, the distance is the absolute value of
    [t]. *)
Theorem getDistanceBetweenSlices_along_normal (seriesData : series) (i j : nat)
    (inst1 inst2 : instance) (u0 u1 u2 v0 v1 v2 x y z x' y' z' t : Q) :
  (1 < length (imageIds seriesData))%nat →
  instance_at seriesData i = Some inst1 → instance_at seriesData j = Some inst2 →
  orientation_of (metadata_of inst1) = Some (numbers [u0; u1; u2; v0; v1; v2]) →
  orthonormal [u0; u1; u2; v0; v1; v2] →
  position_of (metadata_of inst1) = Some (numbers [x; y; z]) →
  position_of (metadata_of inst2) = Some (numbers [x'; y'; z']) →
  (x' == x + t * (u1 * v2 - u2 * v1))%Q →
  (y' == y + t * (u2 * v0 - u0 * v2))%Q →
  (z' == z + t * (u0 * v1 - u1 * v0))%Q →
  ∃ d : Q, getDistanceBetweenSlices seriesData i j = Ok (Some (Some d))
           ∧ (d == Qabs t)%Q.
Proof.
  unfold getDistanceBetweenSlices, orientation_of, position_of.
  intros Hlen Hi Hj Ho (Hu & Hv & Huv) Hp1 Hp2 Hx Hy Hz.
  apply Nat.leb_gt in Hlen. rewrite Hlen, Hi, Hj. cbn [defined mbind result_bind].
  rewrite Ho, Hp1, Hp2. cbn [defined mbind result_bind].
  eexists. split; [reflexivity|]. cbn -[Qmult Qminus Qplus Qabs].
  rewrite <- (Qabs_opp t). apply Qabs_wd. nsatz.
Qed.

Lemma getDistanceBetweenSlices_along_normal_witness :
  ∃ d : Q, getDistanceBetweenSlices (axial_series 2 2 3) 0 2 = Ok (Some (Some d))
           ∧ (d == Qabs 4)%Q.
Proof.
  apply (getDistanceBetweenSlices_along_normal (axial_series 2 2 3) 0 2
           (axial_slice 2 2 0) (axial_slice 2 2 2) 1 0 0 0 1 0 0 0 0 0 0 4 4).
  - cbn. lia.
  - vm_compute. reflexivity.
  - vm_compute. reflexivity.
  - reflexivity.
  - repeat split; reflexivity.
  - reflexivity.
  - reflexivity.
  - reflexivity.
  - reflexivity.
  - reflexivity.
Defined.

(** * The contiguous pixel array *)

Lemma copy_slice_Throw (e : string) (sliceData : result (list Z)) :
  copy_slice (Throw e) sliceData = Throw e.
Proof. reflexivity. Qed.

(** The loop of [buildData] on slices that fit: the slices are laid one
    after the other from the offset on, the rest of the array is as it
    was. *)
Lemma copy_loop (t : array_type) (slices : list (list Z)) :
  ∀ (els : list Z) (offsetData : nat),
    (offsetData + length (concat slices) ≤ length els)%nat →
    foldl copy_slice (Ok (TypedArray t els, offsetData)) (Ok <$> slices)
    = Ok (TypedArray t (take offsetData els ++ (wrap t <$> concat slices)
                        ++ drop (offsetData + length (concat slices)) els),
          (offsetData + length (concat slices))%nat).
Proof.
  induction slices as [|px slices IH]; intros els offsetData Hfit.
  - cbn. rewrite Nat.add_0_r, take_drop. reflexivity.
  - cbn [concat] in *. rewrite length_app in Hfit.
    cbn [fmap list_fmap foldl]. unfold copy_slice at 2.
    cbn [mbind result_bind]. unfold typed_array_copy. cbn [elements element_type].
    replace (length els <? offsetData + length px)%nat with false
      by (symmetry; apply Nat.ltb_ge; lia).
    cbn [mbind result_bind].
    set (W := wrap t <$> px).
    assert (length W = length px) as HW by (unfold W; by rewrite length_fmap).
    assert (length (take offsetData els) = offsetData) as Htake
      by (rewrite length_take; lia).
    rewrite IH.
    2:{ rewrite !length_app, length_drop. lia. }
    f_equal. rewrite length_app. f_equal; [|lia]. f_equal.
    rewrite (app_assoc (take offsetData els) W).
    rewrite take_app_length' by (rewrite length_app; lia).
    rewrite drop_app_ge by (rewrite length_app; lia).
    rewrite length_app, Htake, HW, drop_drop.
    rewrite fmap_app. fold W. rewrite <- !app_assoc. do 4 f_equal. lia.
Qed.

(** The loop on slices that do not fit. *)
Lemma copy_loop_overflow (t : array_type) (slices : list (list Z)) :
  ∀ (els : list Z) (offsetData : nat),
    (length els < offsetData + length (concat slices))%nat →
    (offsetData ≤ length els)%nat →
    foldl copy_slice (Ok (TypedArray t els, offsetData)) (Ok <$> slices)
    = Throw RangeError.
Proof.
  induction slices as [|px slices IH]; intros els offsetData Hover Hoff.
  - cbn in Hover. lia.
  - cbn [concat] in *. rewrite length_app in Hover.
    cbn [fmap list_fmap foldl]. unfold copy_slice at 2.
    cbn [mbind result_bind]. unfold typed_array_copy. cbn [elements element_type].
    destruct (Nat.ltb_spec (length els) (offsetData + length px)) as [Hlt|Hge].
    + cbn [mbind result_bind]. apply foldl_Throw, copy_slice_Throw.
    + cbn [mbind result_bind]. apply IH.
      * rewrite !length_app, length_fmap, length_take, length_drop. lia.
      * rewrite !length_app, length_fmap, length_take, length_drop. lia.
Qed.

Lemma slice_pixels_series (seriesData : series) (ids : list string)
    (pixels : list (list Z)) :
  Forall2 (λ imageId px, ∃ inst, instances seriesData !! imageId = Some inst
                                  ∧ pixelData inst = Some px) ids pixels →
  slice_pixels seriesData <$> ids = Ok <$> pixels.
Proof.
  induction 1 as [|imageId px ids pixels (inst & Hinst & Hpx) _ IH]; [done|].
  cbn [fmap list_fmap]. f_equal; [|exact IH].
  unfold slice_pixels. rewrite Hinst. cbn. by rewrite Hpx.
Qed.

Lemma length_concat_same (n : nat) (pixels : list (list Z)) :
  Forall (λ px, length px = n) pixels →
  length (concat pixels) = (length pixels * n)%nat.
Proof.
  induction 1 as [|px pixels Hpx _ IH]; [done|].
  cbn. rewrite length_app, IH, Hpx. lia.
Qed.

(** X26.  With [useSeriesData], when every slice of the series carries
    [rows * cols] pixels, [buildData] returns the pixels of the slices one
    after the other in the order of the image ids, each wrapped to the
    element type of the representation of the first slice. *)
Theorem buildData_series (cachedImages : list (list Z)) (seriesData : series)
    (first : instance) (r c : Z) (pixels : list (list Z)) :
  instance_at seriesData 0 = Some first →
  or_else (rows (metadata_of first)) (x00280010 (metadata_of first)) = Some r →
  or_else (cols (metadata_of first)) (x00280011 (metadata_of first)) = Some c →
  0 ≤ r * c →
  Forall2 (λ imageId px, ∃ inst, instances seriesData !! imageId = Some inst
                                  ∧ pixelData inst = Some px)
          (imageIds seriesData) pixels →
  Forall (λ px, length px = Z.to_nat (r * c)) pixels →
  buildData cachedImages seriesData true
  = Ok (TypedArray (array_type_of (repr (metadata_of first)))
          (wrap (array_type_of (repr (metadata_of first))) <$> concat pixels)).
Proof.
  intros Hfirst Hr Hc Hrc Hpixels Hlen. unfold buildData, data_length.
  rewrite Hfirst. cbn [defined mbind result_bind]. rewrite Hr, Hc.
  cbn [size_mul mbind option_bind]. unfold new_typed_array.
  pose proof (Forall2_length _ _ _ Hpixels) as Hn.
  replace (r * c * Z.of_nat (length (imageIds seriesData)) <? 0) with false
    by (symmetry; apply Z.ltb_ge; nia).
  cbn [mbind result_bind].
  rewrite (slice_pixels_series _ _ _ Hpixels), copy_loop.
  2:{ rewrite length_replicate, (length_concat_same _ _ Hlen). nia. }
  cbn [mbind result_bind]. do 2 f_equal.
  rewrite take_0, drop_ge, app_nil_r; [done|].
  rewrite length_replicate, (length_concat_same _ _ Hlen). nia.
Qed.

Lemma buildData_series_witness :
  buildData [] (axial_series 2 2 2) true
  = Ok (TypedArray Uint16 (wrap Uint16 <$> concat [[1; 1; 1; 1]; [2; 2; 2; 2]])).
Proof.
  apply (buildData_series [] (axial_series 2 2 2) (axial_slice 2 2 0) 2 2).
  - vm_compute. reflexivity.
  - reflexivity.
  - reflexivity.
  - lia.
  - repeat constructor; eexists; (split; vm_compute; reflexivity).
  - repeat constructor.
Defined.

(** X27.  Without [useSeriesData], the pixel data of the series is not
    read: when the images of the cache fit, the array holds them one after
    the other in the order of the cache, wrapped to the element type, and
    zeros up to [rows * cols] times the number of image ids. *)
Theorem buildData_cached (cachedImages : list (list Z)) (seriesData : series)
    (first : instance) (n : Z) :
  instance_at seriesData 0 = Some first →
  data_length seriesData (metadata_of first) = Some n →
  Z.of_nat (length (concat cachedImages)) ≤ n →
  buildData cachedImages seriesData false
  = Ok (TypedArray (array_type_of (repr (metadata_of first)))
          ((wrap (array_type_of (repr (metadata_of first))) <$> concat cachedImages)
           ++ replicate (Z.to_nat n - length (concat cachedImages)) 0)).
Proof.
  intros Hfirst Hn Hfit. unfold buildData. rewrite Hfirst.
  cbn [defined mbind result_bind]. rewrite Hn. unfold new_typed_array.
  replace (n <? 0) with false by (symmetry; apply Z.ltb_ge; lia).
  cbn [mbind result_bind]. rewrite copy_loop by (rewrite length_replicate; lia).
  cbn [mbind result_bind]. do 2 f_equal.
  by rewrite take_0, drop_replicate.
Qed.

Lemma buildData_cached_witness :
  buildData [[70000; 1]; [2; 3]; [4]] (axial_series 2 2 2) false
  = Ok (TypedArray Uint16
          ((wrap Uint16 <$> concat [[70000; 1]; [2; 3]; [4]])
           ++ replicate (Z.to_nat 8 - length (concat [[70000; 1]; [2; 3]; [4]])) 0)).
Proof.
  apply (buildData_cached _ (axial_series 2 2 2) (axial_slice 2 2 0) 8).
  - vm_compute. reflexivity.
  - reflexivity.
  - cbn. lia.
Defined.

(** X28.  Without [useSeriesData], a cache that holds more pixels than
    [rows * cols] times the number of image ids (images of another series,
    say) makes [buildData] throw a [RangeError]: nothing is returned. *)
Theorem buildData_cache_overflow (cachedImages : list (list Z))
    (seriesData : series) (first : instance) :
  instance_at seriesData 0 = Some first →
  default 0 (data_length seriesData (metadata_of first))
    < Z.of_nat (length (concat cachedImages)) →
  buildData cachedImages seriesData false = Throw RangeError.
Proof.
  intros Hfirst Hover. unfold buildData. rewrite Hfirst.
  cbn [defined mbind result_bind]. unfold new_typed_array.
  destruct (data_length seriesData (metadata_of first)) as [n|];
    cbn [default from_option] in Hover.
  - change (id n) with n in Hover.
    destruct (Z.ltb_spec n 0) as [Hneg|Hpos]; [done|].
    cbn [mbind result_bind].
    rewrite copy_loop_overflow; [done| |lia].
    rewrite length_replicate. lia.
  - cbn [mbind result_bind].
    rewrite copy_loop_overflow; [done| |cbn; lia]. cbn in *. lia.
Qed.

Lemma buildData_cache_overflow_witness :
  buildData [[1; 2; 3; 4]; [5; 6; 7; 8]; [9]] (axial_series 2 2 2) false
  = Throw RangeError.
Proof.
  apply (buildData_cache_overflow _ (axial_series 2 2 2) (axial_slice 2 2 0)).
  - vm_compute. reflexivity.
  - cbn. lia.
Defined.

(** * Pixels of a resliced slice *)

Section ReslicePixels.

Context (originalData : series) (permuteTable : list number)
        (fromCols : option Z) (rows cols frame : Z).

Let step := reslice_pixel originalData permuteTable fromCols rows cols frame.

Lemma reslice_pixel_Ok (a : option typed_array) (b : option typed_array) (j i : Z) :
  step (Ok a) (j, i) = Ok b →
  ∃ target v,
    a = Some target
    ∧ getPixelValue originalData fromCols (source_coordinates permuteTable frame j i)
      = Ok v
    ∧ b = Some (typed_array_set target (write_index permuteTable rows cols j i) v).
Proof.
  unfold step, reslice_pixel. cbn [mbind result_bind]. intros H.
  apply bind_Ok in H as (target & ->%defined_Ok & H).
  apply bind_Ok in H as (v & Hv & H). injection H as <-.
  by exists target, v.
Qed.

Lemma typed_array_set_type (a : typed_array) (index : Z) (v : option Z) :
  element_type (typed_array_set a index v) = element_type a.
Proof. unfold typed_array_set. by destruct (_ && _). Qed.

Lemma typed_array_set_other (a : typed_array) (index : Z) (v : option Z) (n : nat) :
  index ≠ Z.of_nat n →
  elements (typed_array_set a index v) !! n = elements a !! n.
Proof.
  intros Hne. unfold typed_array_set.
  destruct (_ && _) eqn:E; [|done]. cbn [elements].
  apply andb_true_iff in E as [E _]. apply Z.leb_le in E.
  apply list_lookup_insert_ne. lia.
Qed.

Lemma typed_array_set_same (a : typed_array) (index : Z) (v : option Z) :
  0 ≤ index < Z.of_nat (length (elements a)) →
  elements (typed_array_set a index v) !! Z.to_nat index
  = Some (wrap (element_type a) (default 0 v)).
Proof.
  intros Hin. unfold typed_array_set.
  replace ((0 <=? index) && (index <? Z.of_nat (length (elements a)))) with true
    by (symmetry; apply andb_true_iff; split; [apply Z.leb_le|apply Z.ltb_lt]; lia).
  cbn [elements]. apply list_lookup_insert_eq. lia.
Qed.

Lemma reslice_loop_type (order : list (Z * Z)) :
  ∀ a b, foldl step (Ok (Some a)) order = Ok (Some b) →
         element_type b = element_type a.
Proof.
  induction order as [|[j i] order IH]; intros a b Hrun.
  - by injection Hrun as <-.
  - cbn [foldl] in Hrun.
    destruct (step (Ok (Some a)) (j, i)) as [a'|e] eqn:Hstep.
    2:{ rewrite foldl_Throw in Hrun by apply reslice_pixel_Throw. discriminate. }
    apply reslice_pixel_Ok in Hstep as (target & v & [= <-] & _ & ->).
    rewrite (IH _ _ Hrun). apply typed_array_set_type.
Qed.

(** The loops leave an element alone that no pair of the order stores to. *)
Lemma reslice_loop_keeps (order : list (Z * Z)) (n : nat) :
  (∀ j i, (j, i) ∈ order → write_index permuteTable rows cols j i ≠ Z.of_nat n) →
  ∀ a b, foldl step (Ok (Some a)) order = Ok (Some b) →
         elements b !! n = elements a !! n ∧ element_type b = element_type a
         ∧ length (elements b) = length (elements a).
Proof.
  induction order as [|[j i] order IH]; intros Hother a b Hrun.
  - by injection Hrun as <-.
  - cbn [foldl] in Hrun.
    destruct (step (Ok (Some a)) (j, i)) as [a'|e] eqn:Hstep.
    2:{ rewrite foldl_Throw in Hrun by apply reslice_pixel_Throw. discriminate. }
    apply reslice_pixel_Ok in Hstep as (target & v & [= <-] & _ & ->).
    destruct (IH (λ j i H, Hother j i (list_elem_of_further _ _ _ H)) _ _ Hrun)
      as (-> & -> & ->).
    rewrite typed_array_set_other, typed_array_set_type, typed_array_set_length;
      [done|]. apply Hother. left.
Qed.

(** An element of the array holds the pixel of the one pair that stores to
    it. *)
Lemma reslice_loop_written (order : list (Z * Z)) :
  NoDup ((λ ji, write_index permuteTable rows cols ji.1 ji.2) <$> order) →
  ∀ a b, foldl step (Ok (Some a)) order = Ok (Some b) →
  ∀ j i, (j, i) ∈ order →
    0 ≤ write_index permuteTable rows cols j i < Z.of_nat (length (elements a)) →
    ∃ v, getPixelValue originalData fromCols
           (source_coordinates permuteTable frame j i) = Ok v
         ∧ elements b !! Z.to_nat (write_index permuteTable rows cols j i)
           = Some (wrap (element_type a) (default 0 v)).
Proof.
  induction order as [|[j0 i0] order IH]; intros Hnd a b Hrun j i Hin Hrange.
  - by apply elem_of_nil in Hin.
  - cbn [fmap list_fmap] in Hnd. apply NoDup_cons in Hnd as [Hfresh Hnd].
    cbn [foldl] in Hrun.
    destruct (step (Ok (Some a)) (j0, i0)) as [a'|e] eqn:Hstep.
    2:{ rewrite foldl_Throw in Hrun by apply reslice_pixel_Throw. discriminate. }
    apply reslice_pixel_Ok in Hstep as (target & v & [= <-] & Hv & ->).
    apply elem_of_cons in Hin as [[= -> ->]|Hin].
    + exists v. split; [done|].
      destruct (reslice_loop_keeps order
                  (Z.to_nat (write_index permuteTable rows cols j0 i0))) with
        (a := typed_array_set a (write_index permuteTable rows cols j0 i0) v) (b := b)
        as (-> & _ & _); [|done|by apply typed_array_set_same].
      intros j i Hji Heq. apply Hfresh. apply list_elem_of_fmap.
      exists (j, i). split; [|done]. cbn [fst snd] in *. lia.
    + destruct (IH Hnd _ _ Hrun j i Hin) as (v' & Hv' & Hb).
      { by rewrite typed_array_set_length. }
      exists v'. split; [done|]. by rewrite Hb, typed_array_set_type.
Qed.

Lemma reslice_loop_undefined (order : list (Z * Z)) (b : typed_array) :
  foldl step (Ok None) order ≠ Ok (Some b).
Proof.
  destruct order as [|[j i] order]; [done|]. cbn [foldl].
  unfold step at 2, reslice_pixel. cbn [mbind result_bind defined].
  by rewrite foldl_Throw by apply reslice_pixel_Throw.
Qed.

End ReslicePixels.

Lemma pixel_order_elem (r c j i : Z) :
  (j, i) ∈ pixel_order (Some r) (Some c) ↔ 0 ≤ j < r ∧ 0 ≤ i < c.
Proof.
  unfold pixel_order. rewrite list_elem_of_bind. split.
  - intros (j' & Hi & Hj). apply list_elem_of_fmap in Hi as (i' & [= -> ->] & Hi).
    apply elem_of_seqZ in Hi, Hj. lia.
  - intros [Hj Hi]. exists j. split; [|apply elem_of_seqZ; lia].
    apply list_elem_of_fmap. exists i. split; [done|]. apply elem_of_seqZ. lia.
Qed.

Lemma pixel_order_NoDup (r c : Z) :
  NoDup ((λ ji : Z * Z, ji.1 * c + ji.2) <$> pixel_order (Some r) (Some c)).
Proof.
  apply NoDup_fmap_2_strong.
  - intros [j i] [j' i'] [Hj Hi]%pixel_order_elem [Hj' Hi']%pixel_order_elem Heq.
    cbn [fst snd] in Heq.
    assert (j = j') by nia. subst. f_equal. lia.
  - unfold pixel_order. apply NoDup_bind.
    + intros j j' [j0 i0] _ _ (? & [= -> ->] & _)%list_elem_of_fmap
             (? & [= -> ->] & _)%list_elem_of_fmap. done.
    + intros j _. apply NoDup_fmap_2; [|apply NoDup_seqZ].
      intros ? ? [= ->]. done.
    + apply NoDup_seqZ.
Qed.

Lemma source_coordinates_table (from to : orientation) (t : list number)
    (n frame j i x y z : Z) :
  resliceTable from to = Some t →
  source_voxel from to n frame j i = Some (x, y, z) →
  isNegativeSign (entry t 1) = false
  ∧ source_coordinates t
      (if isNegativeSign (entry t 2) then n - frame else frame) j i
    = [x; y; z].
Proof.
  destruct from, to; intros [= <-] [= <- <- <-]; split; vm_compute; reflexivity.
Qed.

Lemma wrap_0 (t : array_type) : wrap t 0 = 0.
Proof. by destruct t. Qed.

(** X29.  For the four pairs of orientations whose table keeps the rows
    unflipped, element [j * cols + i] of the array [getReslicedPixeldata]
    returns is the pixel of the original series at the column, row and
    slice that [source_voxel] gives for row [j] and column [i]: the element
    [y * fromCols + x] of the pixel data of slice [z], wrapped to the
    element type; it is [0] when the slice has no such pixel or the series
    no such slice. *)
Theorem getReslicedPixeldata_pixel (imageId : string)
    (originalData reslicedData : series) (a : typed_array)
    (inst first : instance) (from to : orientation)
    (r c fromCols j i x y z : Z) :
  getReslicedPixeldata imageId originalData reslicedData = Ok (Some a) →
  instances reslicedData !! imageId = Some inst →
  permuteTable_of inst = resliceTable from to →
  source_voxel from to (Z.of_nat (length (imageIds reslicedData)))
    (indexOf (imageIds reslicedData) imageId) j i = Some (x, y, z) →
  x00280010 (metadata_of inst) = Some r →
  x00280011 (metadata_of inst) = Some c →
  0 ≤ j < r → 0 ≤ i < c →
  instance_at originalData 0 = Some first →
  x00280011 (metadata_of first) = Some fromCols →
  match lookupZ (imageIds originalData) z ≫= (instances originalData !!.) with
  | Some source =>
      ∃ px, pixelData source = Some px
            ∧ elements a !! Z.to_nat (j * c + i)
              = Some (wrap (element_type a)
                        (default 0 (lookupZ px (y * fromCols + x))))
  | None => elements a !! Z.to_nat (j * c + i) = Some 0
  end.
Proof.
  intros Hrun Hinst Ht Hvoxel Hr Hc Hj Hi Hfirst Hcols.
  destruct (resliceTable from to) as [t|] eqn:Htable; [|by destruct from, to].
  destruct (source_coordinates_table _ _ _ _ _ _ _ _ _ _ Htable Hvoxel)
    as [Hflip Hcoord].
  unfold getReslicedPixeldata in Hrun. rewrite Hinst in Hrun.
  cbn [defined mbind result_bind] in Hrun. rewrite Ht, Hr, Hc in Hrun.
  cbn [defined mbind result_bind] in Hrun.
  apply bind_Ok in Hrun as (reslicedSlice & Hnew & Hrun).
  rewrite Hfirst in Hrun. cbn [defined mbind result_bind default from_option] in Hrun.
  change (id r) with r in Hrun. change (id c) with c in Hrun.
  rewrite Hcols in Hrun.
  destruct reslicedSlice as [a0|]; [|by apply reslice_loop_undefined in Hrun].
  apply getTypedArray_length in Hnew. cbn in Hnew.
  assert (∀ j i, write_index t r c j i = j * c + i) as Hindex.
  { intros. unfold write_index. by rewrite Hflip. }
  pose proof (pixel_order_NoDup r c) as Hnd.
  set (frame := if isNegativeSign (entry t 2)
                then Z.of_nat (length (imageIds reslicedData))
                     - indexOf (imageIds reslicedData) imageId
                else indexOf (imageIds reslicedData) imageId) in *.
  destruct (reslice_loop_written originalData t (Some fromCols) r c frame
              (pixel_order (Some r) (Some c))) with (a := a0) (b := a) (j := j) (i := i)
    as (v & Hv & Ha).
  - erewrite list_fmap_ext; [exact Hnd|]. intros ? [j' i'] _. apply Hindex.
  - exact Hrun.
  - by apply pixel_order_elem.
  - rewrite Hindex. nia.
  - rewrite Hindex in Ha.
    rewrite <- (reslice_loop_type _ _ _ _ _ _ _ _ _ Hrun) in Ha.
    rewrite Hcoord in Hv. unfold getPixelValue in Hv.
    cbn [lookup list_lookup default from_option] in Hv.
    change (id x) with x in Hv. change (id y) with y in Hv.
    change (id z) with z in Hv.
    destruct (lookupZ (imageIds originalData) z ≫= _) as [source|].
    + apply bind_Ok in Hv as (px & Hpx%defined_Ok & Hv). injection Hv as <-.
      exists px. split; [done|]. exact Ha.
    + injection Hv as <-. by rewrite Ha, wrap_0.
Qed.

Lemma getReslicedPixeldata_pixel_witness :
  ∃ resliced a,
    coded_axial 2 3 2 = Ok resliced
    ∧ getReslicedPixeldata "reslice://1" (coded_series 2 3 2) resliced = Ok (Some a)
    ∧ source_voxel coronal axial 2 1 1 2 = Some (2, 1, 1)
    ∧ elements a !! Z.to_nat (1 * 3 + 2) = Some 112.
Proof.
  destruct (coded_axial 2 3 2) as [resliced|e] eqn:Hr;
    [|vm_compute in Hr; discriminate Hr].
  destruct (getReslicedPixeldata "reslice://1" (coded_series 2 3 2) resliced)
    as [[a|]|e] eqn:Hrun;
    vm_compute in Hr; injection Hr as <-;
    [|vm_compute in Hrun; discriminate Hrun..].
  eexists _, a. split; [reflexivity|]. split; [exact Hrun|]. split; [reflexivity|].
  pose proof Hrun as Ha. vm_compute in Ha. injection Ha as Ha.
  eapply (getReslicedPixeldata_pixel "reslice://1" (coded_series 2 3 2) _ a _
            (coded_slice 2 3 0) coronal axial 2 3 3 1 2 2 1 1) in Hrun;
    [|vm_compute; reflexivity..|lia|lia|vm_compute; reflexivity|reflexivity].
  change (lookupZ (imageIds (coded_series 2 3 2)) 1
          ≫= (instances (coded_series 2 3 2) !!.))
    with (Some (coded_slice 2 3 1)) in Hrun.
  destruct Hrun as (px & [= <-] & Hel). rewrite Hel, <- Ha. reflexivity.
Defined.

Lemma getPixelRepresentation_Throw (dataSet : metadata) (e : string) :
  getPixelRepresentation dataSet = Throw e → e = TypeError.
Proof.
  unfold getPixelRepresentation, getTagValue.
  destruct (string_truthy (repr dataSet)); [done|]. by intros [= <-].
Qed.

(** X30.  The [switch] of [getTypedArray] has no default case: for a
    slice of at least one pixel whose representation is none of the six
    integer ones, there is no array to store into, and
    [getReslicedPixeldata] throws a [TypeError], at the first pixel or
    before it when the representation cannot be read. *)
Theorem getReslicedPixeldata_unknown_representation (imageId : string)
    (originalData reslicedData : series) (inst first : instance)
    (t : list number) (r c : Z) :
  instances reslicedData !! imageId = Some inst →
  permuteTable_of inst = Some t →
  x00280010 (metadata_of inst) = Some r →
  x00280011 (metadata_of inst) = Some c →
  0 < r → 0 < c →
  instance_at originalData 0 = Some first →
  Forall (λ known, getPixelRepresentation (metadata_of inst) ≠ Ok known)
    ["Uint8"; "Sint8"; "Uint16"; "Sint16"; "Uint32"; "Sint32"] →
  getReslicedPixeldata imageId originalData reslicedData = Throw TypeError.
Proof.
  intros Hinst Ht Hr Hc Hr0 Hc0 Hfirst Hrepr.
  unfold getReslicedPixeldata. rewrite Hinst.
  cbn [defined mbind result_bind]. rewrite Ht, Hr, Hc.
  cbn [defined mbind result_bind]. unfold getTypedArray.
  destruct (getPixelRepresentation (metadata_of inst)) as [known|e] eqn:E.
  2:{ by rewrite (getPixelRepresentation_Throw _ _ E). }
  cbn [mbind result_bind].
  rewrite !Forall_cons in Hrepr.
  destruct Hrepr as (H1 & H2 & H3 & H4 & H5 & H6 & _).
  rewrite !decide_False by congruence.
  cbn [mbind result_bind]. rewrite Hfirst. cbn [defined mbind result_bind].
  unfold pixel_order. rewrite (seqZ_cons 0 r), (seqZ_cons 0 c) by lia.
  rewrite bind_cons. cbn [fmap list_fmap app foldl].
  unfold reslice_pixel at 2. cbn [mbind result_bind defined].
  apply foldl_Throw, reslice_pixel_Throw.
Qed.

Lemma getReslicedPixeldata_unknown_representation_witness :
  getReslicedPixeldata "f" (axial_series 1 1 1) float_series = Throw TypeError.
Proof.
  eapply (getReslicedPixeldata_unknown_representation "f" (axial_series 1 1 1)
            float_series _ _ _ 1 1); try (vm_compute; reflexivity).
  repeat constructor; discriminate.
Defined.
